(** * Rental-room MCP client: the agent core

    A shallow embedding of the orchestration core of the hostel assistant
    (session store, tool catalog filter, tool-call extractor, orchestrator)
    and the properties its specification states about it.

    JavaScript strings are sequences of UTF-16 code units; they are modelled
    as lists of code units, so that [length], [includes], [indexOf],
    [substring], [trim] and the regular expressions of the source keep their
    meaning. *)

From Stdlib Require Import NArith ZArith Ascii String List Bool Lia.
From stdpp Require Import base option list sorting gmap.

Set Default Proof Using "Type".
Set Warnings "-register-all".
Set Warnings "-notation-incompatible-prefix".

Local Open Scope N_scope.

(* ===================================================================== *)
(** * JavaScript strings *)
(* ===================================================================== *)

Module Js.

(** A string value: its UTF-16 code units. *)
Abbreviation jsstring := (list N).

(** ** Literals

    The source files are UTF-8; a literal of the source is written here as
    the same text and decoded to the code units the runtime holds. *)

Definition bytes_of (s : string) : list N :=
  map N_of_ascii (list_ascii_of_string s).

Definition utf16_of_cp (cp : N) : list N :=
  if cp <? 0x10000 then [cp]
  else [0xD800 + (cp - 0x10000) / 0x400; 0xDC00 + (cp - 0x10000) mod 0x400].

Fixpoint utf8_decode (bs : list N) : list N :=
  match bs with
  | [] => []
  | b0 :: r0 =>
      if b0 <? 0x80 then b0 :: utf8_decode r0
      else match r0 with
      | [] => [0xFFFD]
      | b1 :: r1 =>
          if b0 <? 0xE0 then
            utf16_of_cp ((b0 - 0xC0) * 0x40 + (b1 - 0x80)) ++ utf8_decode r1
          else match r1 with
          | [] => [0xFFFD]
          | b2 :: r2 =>
              if b0 <? 0xF0 then
                utf16_of_cp ((b0 - 0xE0) * 0x1000 + (b1 - 0x80) * 0x40 + (b2 - 0x80))
                  ++ utf8_decode r2
              else match r2 with
              | [] => [0xFFFD]
              | b3 :: r3 =>
                  utf16_of_cp ((b0 - 0xF0) * 0x40000 + (b1 - 0x80) * 0x1000
                               + (b2 - 0x80) * 0x40 + (b3 - 0x80))
                    ++ utf8_decode r3
              end
          end
      end
  end.

(** [js "text"] is the string value of the literal ['text']. *)
Definition js (s : string) : jsstring := utf8_decode (bytes_of s).

(** [jsq "{'a': 1}"] is the literal with every apostrophe read as a
    quotation mark: the text [{"a": 1}]. *)
Definition jsq (s : string) : jsstring :=
  map (fun c => if c =? 0x27 then 0x22 else c) (js s).

(** ** String.prototype methods used by the agent *)

(** [startsWith s p] is [s.startsWith(p)]. *)
Fixpoint startsWith (s p : jsstring) {struct p} : bool :=
  match p, s with
  | [], _ => true
  | _ :: _, [] => false
  | a :: p', b :: s' => (a =? b) && startsWith s' p'
  end.

(** [includes s p] is [s.includes(p)]. *)
Fixpoint includes (s p : jsstring) : bool :=
  startsWith s p ||
  match s with
  | [] => false
  | _ :: s' => includes s' p
  end.

(** [indexOf s p] is [s.indexOf(p)], with [None] for [-1]. *)
Fixpoint indexOf (s p : jsstring) : option nat :=
  if startsWith s p then Some 0%nat
  else match s with
       | [] => None
       | _ :: s' => S <$> indexOf s' p
       end.

(** [substring_from s i] is [s.substring(i)]. *)
Definition substring_from (s : jsstring) (i : nat) : jsstring := drop i s.

(** [s.endsWith(p)] *)
Definition endsWith (s p : jsstring) : bool := startsWith (rev s) (rev p).

(** [s.substring(i, j)] for [i <= j] *)
Definition substring (s : jsstring) (i j : nat) : jsstring := take (j - i) (drop i s).

(** The suffix of [s] that starts at the first [c]; empty when [c] does not
    occur. *)
Fixpoint fromFirst (c : N) (s : jsstring) : jsstring :=
  match s with
  | [] => []
  | x :: s' => if x =? c then s else fromFirst c s'
  end.

(** The prefix of [s] that ends at the last [c]; empty when [c] does not
    occur. *)
Definition toLast (c : N) (s : jsstring) : jsstring := rev (fromFirst c (rev s)).

(** [p] occurs in [s]: what [s.includes(p)] decides. *)
Definition occursIn (p s : jsstring) : Prop := exists l r, s = l ++ p ++ r.

(** A text without braces. *)
Definition braceFree (s : jsstring) : Prop := (0x7B ∉ s) /\ (0x7D ∉ s).

(** [names.join(', ')] *)
Fixpoint commaSpaceJoin (parts : list jsstring) : jsstring :=
  match parts with
  | [] => []
  | [p] => p
  | p :: ps => p ++ [0x2C; 0x20] ++ commaSpaceJoin ps
  end.

(** White space and line terminators: what [trim] removes and what [\s]
    matches in a regular expression. *)
Definition isWhiteSpace (c : N) : bool :=
  ((0x09 <=? c) && (c <=? 0x0D)) || (c =? 0x20) || (c =? 0xA0) || (c =? 0x1680)
  || ((0x2000 <=? c) && (c <=? 0x200A)) || (c =? 0x2028) || (c =? 0x2029)
  || (c =? 0x202F) || (c =? 0x205F) || (c =? 0x3000) || (c =? 0xFEFF).

Fixpoint trimStart (s : jsstring) : jsstring :=
  match s with
  | c :: s' => if isWhiteSpace c then trimStart s' else s
  | [] => []
  end.

Definition trimEnd (s : jsstring) : jsstring := rev (trimStart (rev s)).

Definition trim (s : jsstring) : jsstring := trimEnd (trimStart s).

(** Truthiness of a string: the empty string is falsy. *)
Definition nonEmpty (s : jsstring) : bool :=
  match s with [] => false | _ => true end.

(** [String(n)] for a natural number and for an integer. *)
Fixpoint digitsOf (u : Decimal.uint) : jsstring :=
  match u with
  | Decimal.Nil => []
  | Decimal.D0 u => 0x30 :: digitsOf u
  | Decimal.D1 u => 0x31 :: digitsOf u
  | Decimal.D2 u => 0x32 :: digitsOf u
  | Decimal.D3 u => 0x33 :: digitsOf u
  | Decimal.D4 u => 0x34 :: digitsOf u
  | Decimal.D5 u => 0x35 :: digitsOf u
  | Decimal.D6 u => 0x36 :: digitsOf u
  | Decimal.D7 u => 0x37 :: digitsOf u
  | Decimal.D8 u => 0x38 :: digitsOf u
  | Decimal.D9 u => 0x39 :: digitsOf u
  end.

Definition natToString (n : nat) : jsstring := digitsOf (Nat.to_uint n).

Definition intToString (z : Z) : jsstring :=
  match Z.to_int z with
  | Decimal.Pos u => digitsOf u
  | Decimal.Neg u => 0x2D :: digitsOf u
  end.

(** ** The runtime's Unicode tables

    [toLowerCase] and [normalize('NFD')] are functions of the runtime, fixed
    by the Unicode character database. The agent's code is parametric in
    them. *)
Record Unicode := {
  toLowerCase : jsstring -> jsstring;
  normalizeNFD : jsstring -> jsstring;
  (** the case folding of a regular expression with the [i] flag *)
  canonicalize : N -> N
}.

(** The tables restricted to ASCII letters: every other code unit is left
    as it is. They agree with the runtime on ASCII text. *)
Definition asciiLower (c : N) : N :=
  if (0x41 <=? c) && (c <=? 0x5A) then c + 0x20 else c.

Definition asciiUpper (c : N) : N :=
  if (0x61 <=? c) && (c <=? 0x7A) then c - 0x20 else c.

Definition asciiUnicode : Unicode := {|
  toLowerCase := map asciiLower;
  normalizeNFD := fun s => s;
  canonicalize := asciiUpper
|}.

End Js.

Export Js.

(* ===================================================================== *)
(** * JSON values *)
(* ===================================================================== *)

(** A value [JSON.parse] can return. A number is carried as its decimal
    text: the conversion between that text and a double is the runtime's
    and is not modelled. An object is its list of properties, in insertion
    order. *)
Inductive json :=
| JNull
| JBool (b : bool)
| JNum (lexeme : jsstring)
| JStr (s : jsstring)
| JArr (items : list json)
| JObj (props : list (jsstring * json)).

(** An insertion-ordered map with [set] as JavaScript's [Map] and plain
    objects have it: a new key goes to the end, an existing key keeps its
    place and takes the new value. *)
Module OrdMap.

Fixpoint set {V} (m : list (jsstring * V)) (k : jsstring) (v : V)
  : list (jsstring * V) :=
  match m with
  | [] => [(k, v)]
  | (k', v') :: m' =>
      if decide (k' = k) then (k', v) :: m' else (k', v') :: set m' k v
  end.

Fixpoint get {V} (m : list (jsstring * V)) (k : jsstring) : option V :=
  match m with
  | [] => None
  | (k', v') :: m' => if decide (k' = k) then Some v' else get m' k
  end.

(** [new Map(entries)]: the entries are set one after the other. *)
Definition of_entries {V} (es : list (jsstring * V)) : list (jsstring * V) :=
  foldl (fun m e => set m e.1 e.2) [] es.

(** [map.values()], in insertion order. *)
Definition values {V} (m : list (jsstring * V)) : list V := snd <$> m.

Definition keys {V} (m : list (jsstring * V)) : list jsstring := fst <$> m.

End OrdMap.

(* ===================================================================== *)
(** * Data model *)
(* ===================================================================== *)

(** A tool descriptor of the MCP catalog. *)
Record Tool := {
  name : jsstring;
  description : jsstring;
  inputSchema : json
}.

(* ===================================================================== *)
(** * Tool catalog filter (src/agent/tool-filter.js) *)
(* ===================================================================== *)

Module ToolFilter.

Inductive Category :=
| auth | house | room | tenant | contract | service | invoice | user | other.

#[global] Instance Category_eq_dec : EqDecision Category.
Proof. solve_decision. Defined.

(** [TOOL_KEYWORDS], in the order of its keys. *)
Definition TOOL_KEYWORDS : list (Category * list jsstring) :=
  [ (auth, [js "login"; js "đăng nhập"; js "đăng ký"; js "register"; js "logout";
            js "thoát"; js "current user"; js "người dùng hiện tại"; js "token"]);
    (house, [js "nhà"; js "house"; js "building"; js "tòa nhà"; js "dãy nhà"]);
    (room, [js "phòng"; js "room"; js "trống"; js "available"; js "vacant"; js "empty"]);
    (tenant, [js "khách"; js "tenant"; js "người thuê"; js "cư dân"]);
    (contract, [js "hợp đồng"; js "contract"; js "thuê"]);
    (service, [js "dịch vụ"; js "service"; js "tiện ích"; js "utility"]);
    (invoice, [js "hóa đơn"; js "invoice"; js "bill"; js "thanh toán"; js "payment"]);
    (user, [js "user"; js "người dùng"; js "tài khoản"; js "account"]) ].

Section WithUnicode.
Context (U : Unicode).

(** [text.toLowerCase().normalize('NFD').replace(/[̀-ͯ]/g, '')
        .replace(/đ/g, 'd')] *)
Definition normalize (text : jsstring) : jsstring :=
  map (fun c => if c =? 0x111 then 0x64 else c)
    (List.filter (fun c => negb ((0x300 <=? c) && (c <=? 0x36F)))
       (normalizeNFD U (toLowerCase U text))).

(** The categories one of whose keywords occurs in the message: the set
    [relevantCategories] of [detectRelevantCategories] before its test on
    the size. *)
Definition matchedCategories (userMessage : jsstring) : list Category :=
  let norm := normalize userMessage in
  map fst
    (List.filter
       (fun e => existsb (fun keyword => includes norm (normalize keyword)) e.2)
       TOOL_KEYWORDS).

Definition defaultCategories : list Category := [house; room; tenant; invoice].

Definition detectRelevantCategories (userMessage : jsstring) : list Category :=
  match matchedCategories userMessage with
  | [] => defaultCategories
  | cs => cs
  end.

End WithUnicode.

Definition getToolCategory (toolName : jsstring) : Category :=
  if includes toolName (js "login") || includes toolName (js "register")
     || includes toolName (js "auth") || includes toolName (js "refresh_token")
  then auth
  else if includes toolName (js "house") then house
  else if includes toolName (js "room") && negb (includes toolName (js "room_service"))
  then room
  else if includes toolName (js "tenant") then tenant
  else if includes toolName (js "contract") then contract
  else if includes toolName (js "service") || includes toolName (js "room_service")
  then service
  else if includes toolName (js "invoice") || includes toolName (js "payment")
  then invoice
  else if includes toolName (js "user") || includes toolName (js "password")
  then user
  else other.

Definition relevantTools (cs : list Category) (allTools : list Tool) : list Tool :=
  filter (fun t => getToolCategory (name t) ∈ cs) allTools.

(** [Array.from(new Map(relevantTools.map(t => [t.name, t])).values())] *)
Definition uniqueTools (ts : list Tool) : list Tool :=
  OrdMap.values (OrdMap.of_entries ((fun t => (name t, t)) <$> ts)).

Definition filterRelevantTools (U : Unicode)
  (allTools : list Tool) (userMessage : jsstring) (maxTools : nat) : list Tool :=
  let relevantCategories := detectRelevantCategories U userMessage in
  let relevant := relevantTools relevantCategories allTools in
  take maxTools (uniqueTools relevant).

(** *** Vocabulary of the statements *)

(** The position of the first descriptor called [n] in a catalog (its
    length when there is none). *)
Fixpoint firstIndex (n : jsstring) (ts : list Tool) : nat :=
  match ts with
  | [] => 0
  | t :: ts' => if decide (name t = n) then 0 else S (firstIndex n ts')
  end.

(** The last descriptor called [n] in a catalog. *)
Definition lastNamed (n : jsstring) (ts : list Tool) : option Tool :=
  last (filter (fun t => name t = n) ts).

(** A list of names without its repetitions, every name at the place of
    its first occurrence. *)
Fixpoint nub (l : list jsstring) : list jsstring :=
  match l with
  | [] => []
  | x :: l' => x :: filter (fun y => y ≠ x) (nub l')
  end.

End ToolFilter.

(* ===================================================================== *)
(** * Session context store (src/agent/session-manager.js) *)
(* ===================================================================== *)

Module SessionManager.

(** One entry of [this.sessions]. [expiresAt] and [loginTime] are epoch
    milliseconds; a number is truthy when it is not zero. *)
Record Session := {
  token : jsstring;
  userId : jsstring;
  expiresAt : Z;
  refreshToken : option jsstring;
  loginTime : Z
}.

Abbreviation Sessions := (gmap jsstring Session).

Definition defaultSessionId : jsstring := js "default".

(** [sessionId || this.defaultSessionId], for an optional string *)
Definition sidOf (sessionId : option jsstring) : jsstring :=
  match sessionId with
  | Some s => if nonEmpty s then s else defaultSessionId
  | None => defaultSessionId
  end.

(** [additionalData] of [setToken] *)
Record AdditionalData := {
  expiresIn : option Z;
  newRefreshToken : option jsstring
}.

Definition noAdditionalData : AdditionalData :=
  {| expiresIn := None; newRefreshToken := None |}.

(** [x || null] on an optional string *)
Definition orNull (x : option jsstring) : option jsstring :=
  match x with
  | Some s => if nonEmpty s then Some s else None
  | None => None
  end.

(** [setToken]; [now] is what [Date.now()] returns. *)
Definition setToken (sessions : Sessions) (now : Z)
  (tok uid : jsstring) (sessionId : option jsstring) (additionalData : AdditionalData)
  : Sessions :=
  let sid := sidOf sessionId in
  let expiresIn :=
    match expiresIn additionalData with
    | Some e => if (e =? 0)%Z then 3600%Z else e
    | None => 3600%Z
    end in
  <[ sid := {| token := tok; userId := uid;
               expiresAt := (now + expiresIn * 1000)%Z;
               refreshToken := orNull (newRefreshToken additionalData);
               loginTime := now |} ]> sessions.

Definition clearSession (sessions : Sessions) (sessionId : option jsstring) : Sessions :=
  delete (sidOf sessionId) sessions.

Definition clearAllSessions (sessions : Sessions) : Sessions := ∅.

(** The test [session.expiresAt && Date.now() > session.expiresAt]. *)
Definition expired (s : Session) (now : Z) : bool :=
  negb (expiresAt s =? 0)%Z && (expiresAt s <? now)%Z.

(** [getToken]: the token, or [None] for [null], and the store after the
    call. *)
Definition getToken (sessions : Sessions) (now : Z) (sessionId : option jsstring)
  : option jsstring * Sessions :=
  let sid := sidOf sessionId in
  match sessions !! sid with
  | None => (None, sessions)
  | Some session =>
      if negb (nonEmpty (token session)) then (None, sessions)
      else if expired session now then (None, clearSession sessions (Some sid))
      else (Some (token session), sessions)
  end.

(** The object [getSessionContext] returns. *)
Record SessionContext := {
  ctxSessionId : jsstring;
  isAuthenticated : bool;
  ctxToken : option jsstring;
  ctxUserId : option jsstring;
  ctxExpiresAt : option Z;
  ctxRefreshToken : option jsstring
}.

(** [getSessionContext]. The clock is read twice: by the expression for
    [isAuthenticated] ([now1]) and then inside [getToken] ([now2]). *)
Definition getSessionContext (sessions : Sessions) (now1 now2 : Z)
  (sessionId : option jsstring) : SessionContext * Sessions :=
  let sid := sidOf sessionId in
  match sessions !! sid with
  | None =>
      ({| ctxSessionId := sid; isAuthenticated := false; ctxToken := None;
          ctxUserId := None; ctxExpiresAt := None; ctxRefreshToken := None |},
       sessions)
  | Some session =>
      let auth :=
        nonEmpty (token session)
        && ((expiresAt session =? 0)%Z || (now1 <=? expiresAt session)%Z) in
      let '(tok, sessions') := getToken sessions now2 (Some sid) in
      ({| ctxSessionId := sid; isAuthenticated := auth; ctxToken := tok;
          ctxUserId := Some (userId session);
          ctxExpiresAt := Some (expiresAt session);
          ctxRefreshToken := refreshToken session |},
       sessions')
  end.

(** [setRefreshToken]: the new value is stored as it is given, and only in
    a session that exists. *)
Definition setRefreshToken (sessions : Sessions) (newRefreshToken : option jsstring)
  (sessionId : option jsstring) : Sessions :=
  let sid := sidOf sessionId in
  match sessions !! sid with
  | Some session =>
      <[ sid := {| token := token session; userId := userId session;
                   expiresAt := expiresAt session; refreshToken := newRefreshToken;
                   loginTime := loginTime session |} ]> sessions
  | None => sessions
  end.

End SessionManager.

(* ===================================================================== *)
(** * JSON.parse and JSON.stringify *)
(* ===================================================================== *)

(** The two functions of the runtime the extractor relies on, following the
    JSON grammar of ECMA-262: a lexical grammar (white space, strings,
    numbers, literals, punctuators) and a syntactic grammar over its
    tokens. *)
Module Json.

Inductive token :=
| TLBrace | TRBrace | TLBracket | TRBracket | TColon | TComma
| TString (s : jsstring)
| TNumber (lexeme : jsstring)
| TTrue | TFalse | TNull.

(** ** Lexical grammar *)

Definition isJsonWs (c : N) : bool :=
  (c =? 0x20) || (c =? 0x09) || (c =? 0x0A) || (c =? 0x0D).

Definition isDigit (c : N) : bool := (0x30 <=? c) && (c <=? 0x39).
Definition isDigit19 (c : N) : bool := (0x31 <=? c) && (c <=? 0x39).
Definition isExpMark (c : N) : bool := (c =? 0x65) || (c =? 0x45).
Definition isSign (c : N) : bool := (c =? 0x2B) || (c =? 0x2D).

(** The states of the automaton of [-? int frac? exp?]. *)
Inductive numState :=
| NMinus | NZero | NInt | NDot | NFrac | NE | NESign | NExp.

Definition numStart (c : N) : option numState :=
  if c =? 0x2D then Some NMinus
  else if c =? 0x30 then Some NZero
  else if isDigit19 c then Some NInt
  else None.

Definition numStep (st : numState) (c : N) : option numState :=
  match st with
  | NMinus => if c =? 0x30 then Some NZero
              else if isDigit19 c then Some NInt else None
  | NZero => if c =? 0x2E then Some NDot
             else if isExpMark c then Some NE else None
  | NInt => if isDigit c then Some NInt
            else if c =? 0x2E then Some NDot
            else if isExpMark c then Some NE else None
  | NDot => if isDigit c then Some NFrac else None
  | NFrac => if isDigit c then Some NFrac
             else if isExpMark c then Some NE else None
  | NE => if isSign c then Some NESign
          else if isDigit c then Some NExp else None
  | NESign => if isDigit c then Some NExp else None
  | NExp => if isDigit c then Some NExp else None
  end.

Definition numAccepting (st : numState) : bool :=
  match st with
  | NZero | NInt | NFrac | NExp => true
  | _ => false
  end.

Definition hexVal (c : N) : option N :=
  if isDigit c then Some (c - 0x30)
  else if (0x61 <=? c) && (c <=? 0x66) then Some (c - 0x61 + 10)
  else if (0x41 <=? c) && (c <=? 0x46) then Some (c - 0x41 + 10)
  else None.

(** The character a two-character escape stands for. *)
Definition unescape (c : N) : option N :=
  if c =? 0x22 then Some 0x22          (* quotation mark *)
  else if c =? 0x5C then Some 0x5C     (* reverse solidus *)
  else if c =? 0x2F then Some 0x2F     (* solidus *)
  else if c =? 0x62 then Some 0x08     (* b: backspace *)
  else if c =? 0x66 then Some 0x0C     (* f: form feed *)
  else if c =? 0x6E then Some 0x0A     (* n: line feed *)
  else if c =? 0x72 then Some 0x0D     (* r: carriage return *)
  else if c =? 0x74 then Some 0x09     (* t: tab *)
  else None.

(** Where the lexer is: between tokens, inside a string (after the text
    [acc]), after a backslash, inside the digits of a [\u] escape, inside a
    number, or inside one of [true], [false], [null]. *)
Inductive mode :=
| MTop
| MStr (acc : jsstring)
| MEsc (acc : jsstring)
| MHex (acc : jsstring) (k : nat) (v : N)
| MNum (acc : jsstring) (st : numState)
| MLit (rest : jsstring) (tok : token).

Definition topStep (c : N) : option (list token * mode) :=
  if isJsonWs c then Some ([], MTop)
  else if c =? 0x7B then Some ([TLBrace], MTop)
  else if c =? 0x7D then Some ([TRBrace], MTop)
  else if c =? 0x5B then Some ([TLBracket], MTop)
  else if c =? 0x5D then Some ([TRBracket], MTop)
  else if c =? 0x3A then Some ([TColon], MTop)
  else if c =? 0x2C then Some ([TComma], MTop)
  else if c =? 0x22 then Some ([], MStr [])
  else if c =? 0x74 then Some ([], MLit (js "rue") TTrue)
  else if c =? 0x66 then Some ([], MLit (js "alse") TFalse)
  else if c =? 0x6E then Some ([], MLit (js "ull") TNull)
  else match numStart c with
       | Some st => Some ([], MNum [c] st)
       | None => None
       end.

Definition step (m : mode) (c : N) : option (list token * mode) :=
  match m with
  | MTop => topStep c
  | MStr acc =>
      if c =? 0x22 then Some ([TString acc], MTop)
      else if c =? 0x5C then Some ([], MEsc acc)
      else if c <? 0x20 then None
      else Some ([], MStr (acc ++ [c]))
  | MEsc acc =>
      if c =? 0x75 then Some ([], MHex acc 4 0)
      else match unescape c with
           | Some x => Some ([], MStr (acc ++ [x]))
           | None => None
           end
  | MHex acc k v =>
      match hexVal c with
      | None => None
      | Some d =>
          match k with
          | 0%nat => None
          | 1%nat => Some ([], MStr (acc ++ [v * 16 + d]))
          | S k' => Some ([], MHex acc k' (v * 16 + d))
          end
      end
  | MNum acc st =>
      match numStep st c with
      | Some st' => Some ([], MNum (acc ++ [c]) st')
      | None =>
          if numAccepting st then
            match topStep c with
            | Some (ts, m') => Some (TNumber acc :: ts, m')
            | None => None
            end
          else None
      end
  | MLit rest tok =>
      match rest with
      | [] => None
      | x :: rest' =>
          if c =? x then
            match rest' with
            | [] => Some ([tok], MTop)
            | _ => Some ([], MLit rest' tok)
            end
          else None
      end
  end.

(** What the end of the text means in each mode. *)
Definition finish (m : mode) : option (list token) :=
  match m with
  | MTop => Some []
  | MNum acc st => if numAccepting st then Some [TNumber acc] else None
  | _ => None
  end.

Fixpoint lexFrom (m : mode) (s : jsstring) : option (list token) :=
  match s with
  | [] => finish m
  | c :: r =>
      match step m c with
      | None => None
      | Some (ts, m') => (fun rest => ts ++ rest) <$> lexFrom m' r
      end
  end.

Definition lex (s : jsstring) : option (list token) := lexFrom MTop s.

(** ** Syntactic grammar *)

Fixpoint parseValue (fuel : nat) (ts : list token) : option (json * list token) :=
  match fuel with
  | O => None
  | S f =>
      match ts with
      | TNull :: r => Some (JNull, r)
      | TTrue :: r => Some (JBool true, r)
      | TFalse :: r => Some (JBool false, r)
      | TString s :: r => Some (JStr s, r)
      | TNumber l :: r => Some (JNum l, r)
      | TLBracket :: TRBracket :: r => Some (JArr [], r)
      | TLBracket :: r => parseElements f r []
      | TLBrace :: TRBrace :: r => Some (JObj [], r)
      | TLBrace :: r => parseMembers f r []
      | _ => None
      end
  end
with parseElements (fuel : nat) (ts : list token) (acc : list json)
  : option (json * list token) :=
  match fuel with
  | O => None
  | S f =>
      match parseValue f ts with
      | Some (v, TComma :: r) => parseElements f r (acc ++ [v])
      | Some (v, TRBracket :: r) => Some (JArr (acc ++ [v]), r)
      | _ => None
      end
  end
with parseMembers (fuel : nat) (ts : list token) (acc : list (jsstring * json))
  : option (json * list token) :=
  match fuel with
  | O => None
  | S f =>
      match ts with
      | TString k :: TColon :: r =>
          match parseValue f r with
          | Some (v, TComma :: r') => parseMembers f r' (OrdMap.set acc k v)
          | Some (v, TRBrace :: r') => Some (JObj (OrdMap.set acc k v), r')
          | _ => None
          end
      | _ => None
      end
  end.

(** [JSON.parse(text)]; [None] stands for the [SyntaxError] it throws. The
    fuel is the number of tokens, which no parse exceeds. *)
Definition parse (text : jsstring) : option json :=
  match lex text with
  | None => None
  | Some ts =>
      match parseValue (S (length ts)) ts with
      | Some (v, []) => Some v
      | _ => None
      end
  end.

(** ** JSON.stringify *)

Definition hexDigit (d : N) : N := if d <? 10 then 0x30 + d else 0x61 + (d - 10).

(** [\uXXXX], in lower case as [JSON.stringify] prints it. *)
Definition unicodeEscape (c : N) : jsstring :=
  [0x5C; 0x75; hexDigit (c / 0x1000 mod 16); hexDigit (c / 0x100 mod 16);
   hexDigit (c / 0x10 mod 16); hexDigit (c mod 16)].

Definition isHighSurrogate (c : N) : bool := (0xD800 <=? c) && (c <=? 0xDBFF).
Definition isLowSurrogate (c : N) : bool := (0xDC00 <=? c) && (c <=? 0xDFFF).

(** How [QuoteJSONString] writes one code unit; [paired] tells whether a
    surrogate is half of a pair. *)
Definition quoteUnit (paired : bool) (c : N) : jsstring :=
  if c =? 0x08 then js "\b"
  else if c =? 0x09 then js "\t"
  else if c =? 0x0A then js "\n"
  else if c =? 0x0C then js "\f"
  else if c =? 0x0D then js "\r"
  else if c =? 0x22 then [0x5C; 0x22]
  else if c =? 0x5C then [0x5C; 0x5C]
  else if c <? 0x20 then unicodeEscape c
  else if (isHighSurrogate c || isLowSurrogate c) && negb paired then unicodeEscape c
  else [c].

Fixpoint quoteUnits (prevHigh : bool) (s : jsstring) : jsstring :=
  match s with
  | [] => []
  | c :: s' =>
      let paired :=
        if isLowSurrogate c then prevHigh
        else match s' with
             | l :: _ => isLowSurrogate l
             | [] => false
             end in
      quoteUnit paired c ++ quoteUnits (isHighSurrogate c) s'
  end.

Definition quote (s : jsstring) : jsstring :=
  [0x22] ++ quoteUnits false s ++ [0x22].

(** The elements of an array or object, separated by commas. *)
Fixpoint commaSep (parts : list jsstring) : jsstring :=
  match parts with
  | [] => []
  | [p] => p
  | p :: ps => p ++ [0x2C] ++ commaSep ps
  end.

(** [JSON.stringify(value)], without indentation. *)
Fixpoint stringify (v : json) : jsstring :=
  match v with
  | JNull => js "null"
  | JBool true => js "true"
  | JBool false => js "false"
  | JNum lexeme => lexeme
  | JStr s => quote s
  | JArr items => [0x5B] ++ commaSep (map stringify items) ++ [0x5D]
  | JObj props =>
      [0x7B]
      ++ commaSep (map (fun p => quote p.1 ++ [0x3A] ++ stringify p.2) props)
      ++ [0x7D]
  end.

(** ** Values that come from JavaScript

    A value of the runtime, as [JSON.stringify] can receive it: its strings
    are made of 16-bit units, its numbers are written as JSON numbers, and an
    object has each key once. *)
Fixpoint numRun (st : numState) (l : jsstring) : option numState :=
  match l with
  | [] => Some st
  | d :: l' =>
      match numStep st d with
      | Some st' => numRun st' l'
      | None => None
      end
  end.

Definition validNumber (lexeme : jsstring) : bool :=
  match lexeme with
  | [] => false
  | c :: l =>
      match numStart c with
      | None => false
      | Some st =>
          match numRun st l with
          | Some st' => numAccepting st'
          | None => false
          end
      end
  end.

Definition wfString (s : jsstring) : Prop := Forall (fun c => c < 0x10000) s.

Inductive wf : json -> Prop :=
| wf_null : wf JNull
| wf_bool b : wf (JBool b)
| wf_num l : validNumber l = true -> wf (JNum l)
| wf_str s : wfString s -> wf (JStr s)
| wf_arr items : Forall wf items -> wf (JArr items)
| wf_obj props :
    NoDup (OrdMap.keys props) ->
    Forall (fun p => wfString p.1 /\ wf p.2) props ->
    wf (JObj props).

(** The tokens of the text [stringify] writes for a value. *)
Fixpoint commaTokens (parts : list (list token)) : list token :=
  match parts with
  | [] => []
  | [p] => p
  | p :: ps => p ++ [TComma] ++ commaTokens ps
  end.

Fixpoint tokens (v : json) : list token :=
  match v with
  | JNull => [TNull]
  | JBool true => [TTrue]
  | JBool false => [TFalse]
  | JNum lexeme => [TNumber lexeme]
  | JStr s => [TString s]
  | JArr items => [TLBracket] ++ commaTokens (map tokens items) ++ [TRBracket]
  | JObj props =>
      [TLBrace]
      ++ commaTokens (map (fun p => [TString p.1; TColon] ++ tokens p.2) props)
      ++ [TRBrace]
  end.

(** *** Vocabulary of the statements *)

(** A character that cannot continue a number. *)
Definition numStop (c : N) : bool :=
  negb (isDigit c || (c =? 0x2E) || isExpMark c).

(** The text after a value: empty, or starting with a character that ends a
    number. *)
Definition delimited (rest : jsstring) : Prop :=
  match rest with
  | [] => True
  | c :: _ => numStop c = true
  end.

(** The modes the lexer is in between the characters of a text: a literal
    in progress is one of [true], [false], [null]. *)
Definition regularMode (m : mode) : Prop :=
  match m with
  | MLit _ tok => tok = TTrue \/ tok = TFalse \/ tok = TNull
  | _ => True
  end.

(** The modes the lexer is in when it has read no backslash. *)
Definition plainMode (m : mode) : Prop :=
  match m with
  | MEsc _ | MHex _ _ _ => False
  | _ => True
  end.

(** A token a value can start with. *)
Definition startsValue (t : token) : bool :=
  match t with
  | TRBrace | TRBracket | TColon | TComma => false
  | _ => true
  end.

(** ** Reading a parsed value *)

(** [value.key]: [None] is [undefined]. No array has one of the property
    names the agent reads. *)
Definition getProp (v : json) (key : jsstring) : option json :=
  match v with
  | JObj props => OrdMap.get props key
  | _ => None
  end.

(** A number is falsy when it is zero: when its mantissa has no digit other
    than [0]. *)
Fixpoint zeroMantissa (lexeme : jsstring) : bool :=
  match lexeme with
  | [] => true
  | c :: l =>
      if isExpMark c then true
      else if isDigit19 c then false
      else zeroMantissa l
  end.

Definition truthy (v : json) : bool :=
  match v with
  | JNull => false
  | JBool b => b
  | JNum l => negb (zeroMantissa l)
  | JStr s => nonEmpty s
  | JArr _ | JObj _ => true
  end.

(** [a || b] on values that may be [undefined]. *)
Definition orElse (a b : option json) : option json :=
  match a with
  | Some v => if truthy v then a else b
  | None => b
  end.

End Json.

(* ===================================================================== *)
(** * Tool-call extractor (agent/ollama-client.js) *)
(* ===================================================================== *)

Module OllamaClient.

(** The object [{ name, arguments }] the extractor returns. *)
Record ToolCall := {
  tcName : jsstring;
  tcArguments : json
}.

(** [parsed.tool || parsed.name || parsed.function] *)
Definition toolNameOf (parsed : json) : option json :=
  Json.orElse
    (Json.orElse (Json.getProp parsed (js "tool")) (Json.getProp parsed (js "name")))
    (Json.getProp parsed (js "function")).

(** [parsed.args || parsed['arguments'] || parsed.parameters || {}] *)
Definition argsOf (parsed : json) : json :=
  default (JObj [])
    (Json.orElse
       (Json.orElse
          (Json.orElse (Json.getProp parsed (js "args"))
             (Json.getProp parsed (js "arguments")))
          (Json.getProp parsed (js "parameters")))
       (Some (JObj []))).

(** The body shared by strategies 1 and 2, on a parsed value: the call it
    stands for when it names a known tool. [None] covers both leaving the
    [if] and the exception of the inner [JSON.parse(args)], which the
    enclosing [catch] swallows: either way the next strategy or candidate is
    tried. *)
Definition callOfParsed (knownToolNames : list jsstring) (parsed : json)
  : option ToolCall :=
  match toolNameOf parsed with
  | Some (JStr toolName) =>
      if nonEmpty toolName && bool_decide (toolName ∈ knownToolNames) then
        match argsOf parsed with
        | JStr args =>
            match Json.parse args with
            | Some v => Some {| tcName := toolName; tcArguments := v |}
            | None => None
            end
        | args => Some {| tcName := toolName; tcArguments := args |}
        end
      else None
  | _ => None
  end.

(** [parsed && typeof parsed === 'object'] *)
Definition isObject (v : json) : bool :=
  match v with
  | JArr _ | JObj _ => true
  | _ => false
  end.

(** Strategy 1: the whole text is one JSON object. *)
Definition strategy1 (knownToolNames : list jsstring) (cleaned : jsstring)
  : option ToolCall :=
  match Json.parse cleaned with
  | Some parsed => if isObject parsed then callOfParsed knownToolNames parsed else None
  | None => None
  end.

(** The loop of [extractBalancedJsonObjects]; [i] is the index of the first
    of [chars] in [text], [start] is [None] for [-1]. *)
Fixpoint scanBraces (text chars : jsstring) (i : nat) (depth : Z) (start : option nat)
  : list jsstring :=
  match chars with
  | [] => []
  | c :: r =>
      if c =? 0x7B then
        scanBraces text r (S i) (depth + 1)
          (if (depth =? 0)%Z then Some i else start)
      else if c =? 0x7D then
        let depth := (depth - 1)%Z in
        match start with
        | Some st =>
            if (depth =? 0)%Z
            then substring text st (i + 1) :: scanBraces text r (S i) depth None
            else scanBraces text r (S i) depth start
        | None => scanBraces text r (S i) depth start
        end
      else scanBraces text r (S i) depth start
  end.

Definition extractBalancedJsonObjects (text : jsstring) : list jsstring :=
  scanBraces text text 0 0 None.

(** Strategy 2: the first balanced candidate that names a known tool. *)
Fixpoint firstCall (knownToolNames : list jsstring) (jsonObjects : list jsstring)
  : option ToolCall :=
  match jsonObjects with
  | [] => None
  | jsonStr :: rest =>
      match Json.parse jsonStr ≫= callOfParsed knownToolNames with
      | Some call => Some call
      | None => firstCall knownToolNames rest
      end
  end.

Definition strategy2 (knownToolNames : list jsstring) (cleaned : jsstring)
  : option ToolCall :=
  firstCall knownToolNames (extractBalancedJsonObjects cleaned).

(** [after.match(/\{[\s\S]*\}/)]: from the first opening brace to the last
    closing brace after it. *)
Definition greedyBraces (after : jsstring) : option jsstring :=
  match fromFirst 0x7B after with
  | [] => None
  | open :: r =>
      match toLast 0x7D r with
      | [] => None
      | body => Some (open :: body)
      end
  end.

(** [args.tool === toolName], and the same for the other keys *)
Definition propIs (v : json) (key toolName : jsstring) : bool :=
  match Json.getProp v key with
  | Some (JStr s) => bool_decide (s = toolName)
  | _ => false
  end.

(** [cleaned.substring(cleaned.indexOf(toolName))]: the text from the name
    on. *)
Definition textFrom (cleaned toolName : jsstring) : jsstring :=
  let idx := default 0%nat (indexOf cleaned toolName) in
  substring_from cleaned idx.

(** What strategy 3 returns once [toolName] is found in the text. *)
Definition callNear (cleaned toolName : jsstring) : ToolCall :=
  let after := textFrom cleaned toolName in
  let empty := {| tcName := toolName; tcArguments := JObj [] |} in
  match greedyBraces after with
  | Some jsonMatch =>
      match Json.parse jsonMatch with
      | Some args =>
          if propIs args (js "tool") toolName || propIs args (js "name") toolName
          then {| tcName := toolName;
                  tcArguments :=
                    default (JObj [])
                      (Json.orElse
                         (Json.orElse (Json.getProp args (js "args"))
                            (Json.getProp args (js "arguments")))
                         (Some (JObj []))) |}
          else {| tcName := toolName; tcArguments := args |}
      | None => empty
      end
  | None => empty
  end.

(** Strategy 3: the first known name, in the order of the list, that occurs
    in the text. *)
Fixpoint strategy3 (knownToolNames : list jsstring) (cleaned : jsstring)
  : option ToolCall :=
  match knownToolNames with
  | [] => None
  | toolName :: rest =>
      if includes cleaned toolName then Some (callNear cleaned toolName)
      else strategy3 rest cleaned
  end.

(** [t] stands in [s] between two texts without braces. *)
Definition embeds (t s : jsstring) : Prop :=
  exists a b, s = a ++ t ++ b /\ braceFree a /\ braceFree b.

(** Two characters that the regular expression [/json/i] takes for the
    same: its letters are ASCII, and no character beyond ASCII folds to an
    ASCII letter. *)
Definition sameLetter (a b : N) : bool := asciiUpper a =? asciiUpper b.

Fixpoint startsWithCI (s p : jsstring) {struct p} : bool :=
  match p, s with
  | [], _ => true
  | _ :: _, [] => false
  | a :: p', b :: s' => sameLetter a b && startsWithCI s' p'
  end.

(** [.replace(/^```(?:json)?\s*/i, '')] *)
Definition stripLeadingFence (s : jsstring) : jsstring :=
  if startsWith s (js "```") then
    let r := drop 3 s in
    let r := if startsWithCI r (js "json") then drop 4 r else r in
    trimStart r
  else s.

(** [.replace(/\s*```\s*$/i, '')]: the match, if any, is the last three
    characters that are not white space, being backticks, with the white
    space around them. *)
Definition stripTrailingFence (s : jsstring) : jsstring :=
  let t := trimEnd s in
  if endsWith t (js "```") then trimEnd (take (length t - 3) t) else s.

(** The text the strategies work on. *)
Definition clean (content : jsstring) : jsstring :=
  trim (stripTrailingFence (stripLeadingFence (trim content))).

(** [parseToolCallFromContent]; [None] is [null]. *)
Definition parseToolCallFromContent (content : jsstring) (knownToolNames : list jsstring)
  : option ToolCall :=
  if negb (nonEmpty content) || bool_decide (knownToolNames = []) then None
  else
    let cleaned := clean content in
    match strategy1 knownToolNames cleaned with
    | Some call => Some call
    | None =>
        match strategy2 knownToolNames cleaned with
        | Some call => Some call
        | None => strategy3 knownToolNames cleaned
        end
    end.

End OllamaClient.

(** [JSON.stringify(value, null, 2)]: one element or property on each line,
    indented by two spaces for each level. *)
Module JsonIndent.

Definition newline (level : nat) : jsstring :=
  0x0A :: concat (replicate level [0x20; 0x20]).

Fixpoint lines (level : nat) (parts : list jsstring) : jsstring :=
  match parts with
  | [] => []
  | [p] => newline level ++ p
  | p :: ps => newline level ++ p ++ [0x2C] ++ lines level ps
  end.

Fixpoint stringify (level : nat) (v : json) : jsstring :=
  match v with
  | JArr [] => js "[]"
  | JArr items =>
      [0x5B] ++ lines (S level) (map (stringify (S level)) items)
      ++ newline level ++ [0x5D]
  | JObj [] => js "{}"
  | JObj props =>
      [0x7B]
      ++ lines (S level)
           (map (fun p => Json.quote p.1 ++ [0x3A; 0x20] ++ stringify (S level) p.2) props)
      ++ newline level ++ [0x7D]
  | v => Json.stringify v
  end.

End JsonIndent.

(* ===================================================================== *)
(** * The world outside the agent *)
(* ===================================================================== *)

(** What the agent reads of a thrown error: its message. *)
Record Error := { message : jsstring }.

(** An error of the HTTP client: its message and, when the backend answered
    with an error payload, [error.response.data.error]. *)
Record HttpError := {
  httpMessage : jsstring;
  responseError : option json
}.

Inductive Role := system | user | assistant.

Record ChatMessage := {
  role : Role;
  content : jsstring
}.

(** A tool call as the model backend reports it in [message.tool_calls]:
    [id], [function.name] and [function.arguments], each possibly absent. *)
Record NativeToolCall := {
  ncId : option jsstring;
  ncName : option jsstring;
  ncArguments : option json
}.

(** [response.data.message] of the chat endpoint, taken to be of the shape
    the client expects: a [content] string (an absent one is the empty
    string, which the agent does not tell apart) and an array of
    [tool_calls]. *)
Record LlmMessage := {
  msgContent : jsstring;
  tool_calls : list NativeToolCall
}.

(** The body of a request to the chat endpoint: its messages and its
    temperature (the model and [stream: false] are constants). *)
Record ChatRequest := {
  reqMessages : list ChatMessage;
  reqTemperature : jsstring
}.

(** What leaves the process. *)
Inductive Event :=
| EvChat (req : ChatRequest)
| EvGenerate (prompt : jsstring)
| EvListTools
| EvInvoke (toolName : jsstring) (args : json) (auth : option (jsstring * jsstring)).

(** The backends and the clock. Their answers may depend on everything that
    happened before: they are functions of the number of interactions so
    far. With them comes the one text function of the model client that is
    not spelled out here: [buildToolCallingPrompt], the prompt it makes of
    the tools it is given, or the exception it throws on a schema it cannot
    read; it is a function of the tools alone. *)
Record Env := {
  clock : nat -> Z;
  buildToolCallingPrompt : list Tool -> Error + jsstring;
  ollamaChat : nat -> ChatRequest -> HttpError + option LlmMessage;
  ollamaGenerate : nat -> jsstring -> HttpError + jsstring;
  mcpListTools : nat -> HttpError + option (list Tool);
  mcpInvoke : nat -> jsstring -> json -> option (jsstring * jsstring) -> HttpError + json
}.

(** One entry of [conversationHistory]. *)
Record Turn := {
  turnRole : Role;
  turnContent : jsstring;
  turnUserId : option jsstring;
  turnToolsCalled : option (list jsstring);
  turnSessionId : jsstring;
  turnTimestamp : Z
}.

(** The state of the process: the session store, the history of the agent
    instance, and what has been sent out so far. *)
Record World := {
  tick : nat;
  sessions : SessionManager.Sessions;
  conversationHistory : list Turn;
  trace : list Event
}.

(** The tool invocations among some events. *)
Definition isInvoke (ev : Event) : bool :=
  match ev with
  | EvInvoke _ _ _ => true
  | _ => false
  end.

Definition invocations (evs : list Event) : nat := length (List.filter isInvoke evs).

(** Computations that read and write the world and may throw. *)
Definition M (A : Type) : Type := World -> (Error + A) * World.

#[global] Instance M_ret : MRet M := fun A (a : A) w => (inr a, w).

#[global] Instance M_bind : MBind M := fun A B (k : A -> M B) (m : M A) w =>
  match m w with
  | (inr a, w') => k a w'
  | (inl e, w') => (inl e, w')
  end.

Definition throw {A} (e : Error) : M A := fun w => (inl e, w).

(** [try { m } catch (error) { handler(error) }] *)
Definition tryCatch {A} (m : M A) (handler : Error -> M A) : M A := fun w =>
  match m w with
  | (inr a, w') => (inr a, w')
  | (inl e, w') => handler e w'
  end.

Definition emit (ev : Event) : M unit := fun w =>
  (inr tt, {| tick := S (tick w); sessions := sessions w;
              conversationHistory := conversationHistory w;
              trace := trace w ++ [ev] |}).

Definition getTick : M nat := fun w => (inr (tick w), w).

(** *** Vocabulary of the statements about runs *)

(** A computation that leaves the history as it is. *)
Definition keepsHistory {A} (m : M A) : Prop :=
  forall w, conversationHistory (m w).2 = conversationHistory w.

(** A computation that only adds events, at most [n] tool invocations among
    them. *)
Definition invokesAtMost {A} (n : nat) (m : M A) : Prop :=
  forall w, exists evs, trace (m w).2 = trace w ++ evs /\ (invocations evs <= n)%nat.

(** A computation that does not throw. *)
Definition neverThrows {A} (m : M A) : Prop :=
  forall w, exists a, (m w).1 = inr a.

(** A computation that, when it throws, has left the history as it was. *)
Definition failsKeepingHistory {A} (m : M A) : Prop :=
  forall w e w', m w = (inl e, w') -> conversationHistory w' = conversationHistory w.

(** A computation every run of which takes the world to one related to it
    by [R]. *)
Definition always {A} (R : relation World) (m : M A) : Prop :=
  forall w, R w (m w).2.

(** The later world has the trace of the earlier one and, after it, events
    of one kind only. *)
Definition addsOnly (P : Event -> Prop) : relation World := fun w w' =>
  exists evs, trace w' = trace w ++ evs /\ Forall P evs.

(** The later world has the session store of the earlier one. *)
Definition sameSessions : relation World := fun w w' => sessions w' = sessions w.

(** A computation that adds to the trace events of one kind only. *)
Definition emitsOnly {A} (P : Event -> Prop) (m : M A) : Prop := always (addsOnly P) m.

(** A computation that leaves the session store as it is. *)
Definition keepsSessions {A} (m : M A) : Prop := always sameSessions m.

(** A computation whose results, when it returns, are all of one kind. *)
Definition returnsOnly {A} (Q : A -> Prop) (m : M A) : Prop :=
  forall w a w', m w = (inr a, w') -> Q a.

(** A computation that adds to the trace at most [n] events of a kind. *)
Definition sendsAtMost {A} (p : Event -> bool) (n : nat) (m : M A) : Prop :=
  forall w, exists evs, trace (m w).2 = trace w ++ evs
                        /\ (length (List.filter p evs) <= n)%nat.

Definition isChat (ev : Event) : bool :=
  match ev with
  | EvChat _ => true
  | _ => false
  end.

Definition isListTools (ev : Event) : bool :=
  match ev with
  | EvListTools => true
  | _ => false
  end.

(** An event that, when it is a tool invocation, carries the headers
    [auth]. *)
Definition invokesWith (auth : option (jsstring * jsstring)) (ev : Event) : Prop :=
  match ev with
  | EvInvoke _ _ a => a = auth
  | _ => True
  end.

Definition getHistory : M (list Turn) := fun w => (inr (conversationHistory w), w).

Definition pushHistory (t : Turn) : M unit := fun w =>
  (inr tt, {| tick := tick w; sessions := sessions w;
              conversationHistory := conversationHistory w ++ [t];
              trace := trace w |}).

(** [clearHistory] *)
Definition clearHistory : M unit := fun w =>
  (inr tt, {| tick := tick w; sessions := sessions w; conversationHistory := [];
              trace := trace w |}).

(** An operation of the session manager on its store. *)
Definition onSessions {A}
  (f : SessionManager.Sessions -> A * SessionManager.Sessions) : M A := fun w =>
  let '(a, sessions') := f (sessions w) in
  (inr a, {| tick := tick w; sessions := sessions';
             conversationHistory := conversationHistory w; trace := trace w |}).

Section WithEnv.
Context (env : Env).

(** [Date.now()] *)
Definition now : M Z := fun w =>
  (inr (clock env (tick w)),
   {| tick := S (tick w); sessions := sessions w;
      conversationHistory := conversationHistory w; trace := trace w |}).

(** [sessionManager.getSessionContext(sessionId)] *)
Definition getSessionContext (sessionId : option jsstring)
  : M SessionManager.SessionContext :=
  now1 ← now;
  now2 ← now;
  onSessions (fun sessions =>
                SessionManager.getSessionContext sessions now1 now2 sessionId).

End WithEnv.

(* ===================================================================== *)
(** * Tool invocation gateway (src/agent/tool-executor.js) *)
(* ===================================================================== *)

Module ToolExecutor.

Section WithEnv.
Context (env : Env).

(** [getAvailableTools]: the listing, or [[]] when it fails or has no
    [tools]. *)
Definition getAvailableTools : M (list Tool) :=
  t ← getTick;
  _ ← emit EvListTools;
  mret (match mcpListTools env t with
        | inr (Some tools) => tools
        | _ => []
        end).

(** The headers [executeMcpTool] adds when the session has a token:
    the bearer token and [sessionContext.userId || 'anonymous']. *)
Definition authHeaders (sessionContext : SessionManager.SessionContext)
  : option (jsstring * jsstring) :=
  match SessionManager.ctxToken sessionContext with
  | Some tok =>
      if nonEmpty tok then
        Some (tok,
              match SessionManager.ctxUserId sessionContext with
              | Some u => if nonEmpty u then u else js "anonymous"
              | None => js "anonymous"
              end)
      else None
  | None => None
  end.

(** [executeMcpTool]: the payload of the backend, or
    [{ success: false, error }]; it does not throw. *)
Definition executeMcpTool (toolName : jsstring) (args : json)
  (sessionContext : SessionManager.SessionContext) : M json :=
  t ← getTick;
  _ ← emit (EvInvoke toolName args (authHeaders sessionContext));
  mret (match mcpInvoke env t toolName args (authHeaders sessionContext) with
        | inr data => data
        | inl e =>
            JObj [(js "success", JBool false);
                  (js "error",
                   match responseError e with
                   | Some err => if Json.truthy err then err else JStr (httpMessage e)
                   | None => JStr (httpMessage e)
                   end)]
        end).

End WithEnv.

End ToolExecutor.

(* ===================================================================== *)
(** * Model client ([callOllamaWithTools] of agent/ollama-client.js) *)
(* ===================================================================== *)

Module OllamaChat.

(** A tool call as [callOllamaWithTools] returns it. *)
Record ToolCallRequest := {
  id : option jsstring;
  fnName : jsstring;
  fnArguments : option json
}.

Section WithEnv.
Context (env : Env).

(** [message.tool_calls.filter(tc => tc.function?.name)] *)
Definition nativeCalls (m : LlmMessage) : list ToolCallRequest :=
  omap (fun tc =>
          match ncName tc with
          | Some n =>
              if nonEmpty n
              then Some {| id := ncId tc; fnName := n; fnArguments := ncArguments tc |}
              else None
          | None => None
          end)
       (tool_calls m).

(** [messagesWithTools]: the tool prompt is appended to a leading system
    message, or put in front as one. *)
Definition withToolPrompt (messages : list ChatMessage) (toolPrompt : jsstring)
  : list ChatMessage :=
  match messages with
  | first :: rest =>
      match role first with
      | system =>
          {| role := system; content := content first ++ [0x0A; 0x0A] ++ toolPrompt |}
          :: rest
      | _ => {| role := system; content := toolPrompt |} :: messages
      end
  | [] => [ {| role := system; content := toolPrompt |} ]
  end.

(** [callOllamaWithTools]: the message, with its content cleared when a
    call was read from it, and the calls. Whatever is thrown on the way is
    thrown again as [LLM Error: ...]. *)
Definition callOllamaWithTools (messages : list ChatMessage) (availableTools : list Tool)
  (temperature : jsstring) : M (option LlmMessage * list ToolCallRequest) :=
  tryCatch
    (let knownToolNames := name <$> availableTools in
     messagesWithTools ←
       match availableTools with
       | [] => mret messages
       | _ =>
           match buildToolCallingPrompt env availableTools with
           | inl e => throw e
           | inr toolPrompt => mret (withToolPrompt messages toolPrompt)
           end
       end;
     let requestBody := {| reqMessages := messagesWithTools;
                           reqTemperature := temperature |} in
     t ← getTick;
     _ ← emit (EvChat requestBody);
     match ollamaChat env t requestBody with
     | inl e => throw {| message := httpMessage e |}
     | inr None => mret (None, [])
     | inr (Some message) =>
         match OllamaClient.parseToolCallFromContent (msgContent message)
                 knownToolNames with
         | Some parsed =>
             stamp ← now env;
             mret (Some {| msgContent := []; tool_calls := tool_calls message |},
                   [ {| id := Some (js "call_" ++ intToString stamp);
                        fnName := OllamaClient.tcName parsed;
                        fnArguments := Some (OllamaClient.tcArguments parsed) |} ])
         | None => mret (Some message, nativeCalls message)
         end
     end)
    (fun error => throw {| message := js "LLM Error: " ++ message error |}).

End WithEnv.

End OllamaChat.

(* ===================================================================== *)
(** * Agent orchestrator (src/agent/agent.js) *)
(* ===================================================================== *)

Module Agent.

Import OllamaChat.

(** An entry of [toolResults]: [{ id, name, args, result }] of a call that
    went through, [{ id, name, error }] of one that threw. *)
Record ToolResult := {
  trId : jsstring;
  trName : jsstring;
  trArgs : option json;
  trResult : option json;
  trError : option jsstring
}.

(** The object [_buildResponse] returns. *)
Record Response := {
  success : bool;
  response : jsstring;
  toolsCalled : list jsstring;
  toolResults : list ToolResult;
  respUserId : option jsstring;
  respSessionId : jsstring;
  respIsAuthenticated : bool;
  respTimestamp : Z
}.

(** The fields of a [HostelAIAgent] that its constructor fixes. *)
Record AgentConfig := {
  systemPrompt : jsstring;
  maxToolCalls : Z
}.

(** [config.maxToolCalls || 5], where [config.maxToolCalls] is the result
    of a [parseInt]: an integer, or [NaN] ([None]). *)
Definition maxToolCallsOf (configured : option Z) : Z :=
  match configured with
  | None | Some 0%Z => 5%Z
  | Some n => n
  end.

Definition newAgent (prompt : jsstring) (configured : option Z) : AgentConfig :=
  {| systemPrompt := prompt; maxToolCalls := maxToolCallsOf configured |}.

(** The letters of the character class of [isNonEnglish]. *)
Definition vietnameseLetters : jsstring :=
  js "àáạảãâầấậẩẫăằắặẳẵèéẹẻẽêềếệểễìíịỉĩòóọỏõôồốộổỗơờớợởỡùúụủũưừứựửữỳýỵỷỹđ".

Definition conversational : list jsstring :=
  [js "xin chào"; js "chào bạn"; js "hello"; js "hi "; js "hey";
   js "bạn là ai"; js "who are you"; js "bạn tên gì";
   js "cảm ơn"; js "thank"; js "thanks";
   js "tạm biệt"; js "goodbye"; js "bye"].

Definition friendlyPrompt : jsstring :=
  js "You are a friendly hostel management assistant. Respond in the same language as the user.".

Definition greeting : jsstring := js "Xin chào! Tôi là trợ lý quản lý nhà trọ.".

Definition summaryPromptVi : jsstring :=
  js "Tóm tắt kết quả dưới đây bằng tiếng Việt, ngắn gọn và rõ ràng.".

Definition summaryPromptEn : jsstring :=
  js "Summarize the following results clearly and concisely.".

Definition doneText : jsstring := js "Đã xử lý xong.".

Definition sorryVi : jsstring := js "Xin lỗi, tôi không thể xử lý yêu cầu này.".

Definition sorryEn : jsstring := js "Sorry, I could not process this request.".

(** The message of the [TypeError] thrown when [message] is undefined and
    its [content] is read. *)
Definition undefinedContent : Error :=
  {| message := js "Cannot read properties of undefined (reading 'content')" |}.

(** The message of the [SyntaxError] of [JSON.parse]. *)
Definition syntaxError : Error := {| message := js "Unexpected token in JSON" |}.

(** [x || y] on optional strings *)
Definition orString (x y : option jsstring) : option jsstring :=
  match x with
  | Some s => if nonEmpty s then x else y
  | None => y
  end.

Section WithRuntime.
Context (U : Unicode) (env : Env).

(** [isNonEnglish]: some character of the text is, up to case, one of the
    letters of the class. *)
Definition isNonEnglish (text : jsstring) : bool :=
  existsb (fun c => existsb (fun l => canonicalize U c =? canonicalize U l) vietnameseLetters)
    text.

Definition isConversationalMessage (text : jsstring) : bool :=
  let lower := trim (toLowerCase U text) in
  (length lower <? 40)%nat && existsb (fun kw => includes lower kw) conversational.

(** [_addHistory(role, content, sessionId, userId, toolsCalled)] *)
Definition addHistory (r : Role) (text : jsstring) (sessionId userId : option jsstring)
  (called : list jsstring) : M unit :=
  stamp ← now env;
  pushHistory {| turnRole := r; turnContent := text;
                 turnUserId := orString userId None;
                 turnToolsCalled := match called with [] => None | _ => Some called end;
                 turnSessionId := SessionManager.sidOf sessionId;
                 turnTimestamp := stamp |}.

(** [_buildResponse(...)]; [authenticated] is
    [sessionContext.isAuthenticated || false]. *)
Definition buildResponse (ok : bool) (text : jsstring) (called : list jsstring)
  (results : list ToolResult) (userId sessionId : option jsstring) (authenticated : bool)
  : M Response :=
  stamp ← now env;
  mret {| success := ok; response := text; toolsCalled := called;
          toolResults := results; respUserId := userId;
          respSessionId := SessionManager.sidOf sessionId;
          respIsAuthenticated := authenticated; respTimestamp := stamp |}.

(** [resp.message.content], which throws when there is no message *)
Definition contentOf (message : option LlmMessage) : M jsstring :=
  match message with
  | Some m => mret (msgContent m)
  | None => throw undefinedContent
  end.

(** Stage 1: the conversational path. *)
Definition converse (userMessage : jsstring) (userId sessionId : option jsstring)
  (sessionContext : SessionManager.SessionContext) : M Response :=
  resp ← callOllamaWithTools env
            [ {| role := system; content := friendlyPrompt |};
              {| role := user; content := userMessage |} ]
            [] (js "0.5");
  content ← contentOf resp.1;
  let text := if nonEmpty content then content else greeting in
  _ ← addHistory user userMessage sessionId None [];
  _ ← addHistory assistant text sessionId None [];
  buildResponse true text [] [] userId sessionId
    (SessionManager.isAuthenticated sessionContext).

(** Stages 2 to 4: the catalog, the filter, the call of the model and the
    one retry. It returns the tools offered, the message and the calls the
    model proposes. *)
Definition decide (agent : AgentConfig) (userMessage : jsstring)
  : M (option LlmMessage * list ToolCallRequest) :=
  allTools ← ToolExecutor.getAvailableTools env;
  let availableTools := ToolFilter.filterRelevantTools U allTools userMessage 15 in
  history ← getHistory;
  let recent := drop (length history - 6) history in
  let messages :=
    [ {| role := system; content := systemPrompt agent |} ]
    ++ ((fun t => {| role := turnRole t; content := turnContent t |}) <$> recent)
    ++ [ {| role := user; content := userMessage |} ] in
  llmResponse ← callOllamaWithTools env messages availableTools (js "0");
  match llmResponse.2, availableTools with
  | [], _ :: _ =>
      let toolList := commaSpaceJoin (name <$> availableTools) in
      let retryMessages :=
        [ {| role := system;
             content := js "You MUST call one of these tools: [" ++ toolList
                        ++ js "]. Do NOT respond with text. Call the tool now." |};
          {| role := user; content := userMessage |} ] in
      retryResponse ← callOllamaWithTools env retryMessages availableTools (js "0");
      match retryResponse.2 with
      | [] => mret llmResponse
      | _ => mret retryResponse
      end
  | _, _ => mret llmResponse
  end.

(** The arguments of a call, in the [try] of stage 5:
    [typeof a === 'string' ? JSON.parse(a || '{}') : a || {}]. *)
Definition toolArgsOf (arguments : option json) : M json :=
  match arguments with
  | Some (JStr s) =>
      match Json.parse (if nonEmpty s then s else js "{}") with
      | Some v => mret v
      | None => throw syntaxError
      end
  | Some v => mret (if Json.truthy v then v else JObj [])
  | None => mret (JObj [])
  end.

(** [toolCall.id || `call_${toolCallsExecuted}`] *)
Definition resultId (toolCall : ToolCallRequest) (toolCallsExecuted : nat) : jsstring :=
  default (js "call_" ++ natToString toolCallsExecuted)
    (orString (id toolCall) None).

(** The body of the [try] of stage 5, and its [catch]. *)
Definition runToolCall (sessionContext : SessionManager.SessionContext)
  (toolCall : ToolCallRequest) (toolCallsExecuted : nat) : M ToolResult :=
  tryCatch
    (toolArgs ← toolArgsOf (fnArguments toolCall);
     result ← ToolExecutor.executeMcpTool env (fnName toolCall) toolArgs sessionContext;
     mret {| trId := resultId toolCall toolCallsExecuted; trName := fnName toolCall;
             trArgs := Some toolArgs; trResult := Some result; trError := None |})
    (fun error =>
       mret {| trId := resultId toolCall toolCallsExecuted;
               trName := if nonEmpty (fnName toolCall) then fnName toolCall
                         else js "unknown";
               trArgs := None; trResult := None; trError := Some (message error) |}).

(** What an entry of [toolResults] owes to the call it answers: its name,
    or ["unknown"] when a call without name threw. *)
Definition answers (r : ToolResult) (toolCall : ToolCallRequest) : Prop :=
  trName r = fnName toolCall
  \/ (trName r = js "unknown" /\ fnName toolCall = [] /\ is_Some (trError r)).

(** Stage 5: the loop over the proposed calls, with its counter. *)
Fixpoint executeTools (cap : Z) (sessionContext : SessionManager.SessionContext)
  (toolCalls : list ToolCallRequest) (toolCallsExecuted : nat) (results : list ToolResult)
  : M (list ToolResult) :=
  match toolCalls with
  | [] => mret results
  | toolCall :: rest =>
      if (cap <=? Z.of_nat toolCallsExecuted)%Z then mret results
      else
        r ← runToolCall sessionContext toolCall toolCallsExecuted;
        executeTools cap sessionContext rest (S toolCallsExecuted) (results ++ [r])
  end.

(** The user message of the summary request. *)
Definition summaryRequest (userMessage : jsstring) (results : list ToolResult) : jsstring :=
  js "User asked: " ++ [0x22] ++ userMessage ++ [0x22; 0x0A; 0x0A]
  ++ js "Tool results:" ++ [0x0A]
  ++ JsonIndent.stringify 0
       (JArr ((fun r =>
                 JObj ([(js "tool", JStr (trName r))]
                       ++ match trResult r with
                          | Some v => [(js "result", v)]
                          | None => []
                          end)) <$> results)).

(** Stage 6: the text of the answer. *)
Definition summarize (userMessage : jsstring) (isVietnamese : bool)
  (message : option LlmMessage) (results : list ToolResult) : M jsstring :=
  match results with
  | _ :: _ =>
      finalResp ← callOllamaWithTools env
                     [ {| role := system;
                          content := if isVietnamese then summaryPromptVi
                                     else summaryPromptEn |};
                       {| role := user; content := summaryRequest userMessage results |} ]
                     [] (js "0.3");
      content ← contentOf finalResp.1;
      mret (if nonEmpty content then content else doneText)
  | [] =>
      content ← contentOf message;
      mret (if nonEmpty content then content
            else if isVietnamese then sorryVi else sorryEn)
  end.

(** Stages 2 to 6. *)
Definition answer (agent : AgentConfig) (userMessage : jsstring)
  (sessionContext : SessionManager.SessionContext)
  : M (jsstring * list ToolResult) :=
  decision ← decide agent userMessage;
  results ← executeTools (maxToolCalls agent) sessionContext decision.2 0 [];
  text ← summarize userMessage (isNonEnglish userMessage) decision.1 results;
  mret (text, results).

(** Stage 7 and the response. *)
Definition record (userMessage : jsstring) (userId sessionId : option jsstring)
  (sessionContext : SessionManager.SessionContext)
  (final : jsstring * list ToolResult) : M Response :=
  let uid := orString userId (SessionManager.ctxUserId sessionContext) in
  let called := trName <$> final.2 in
  _ ← addHistory user userMessage sessionId uid [];
  _ ← addHistory assistant final.1 sessionId None called;
  buildResponse true final.1 called final.2 uid sessionId
    (SessionManager.isAuthenticated sessionContext).

(** The body of the [try] of [processMessage]. *)
Definition processMessageBody (agent : AgentConfig) (userMessage : jsstring)
  (userId sessionId : option jsstring) : M Response :=
  sessionContext ← getSessionContext env sessionId;
  if isConversationalMessage userMessage
  then converse userMessage userId sessionId sessionContext
  else
    final ← answer agent userMessage sessionContext;
    record userMessage userId sessionId sessionContext final.

(** [processMessage]: the body, and the [catch] that turns an exception
    into a response. *)
Definition processMessage (agent : AgentConfig) (userMessage : jsstring)
  (userId sessionId : option jsstring) : M Response :=
  tryCatch (processMessageBody agent userMessage userId sessionId)
    (fun error =>
       buildResponse false (js "Error: " ++ message error) [] [] userId sessionId false).

End WithRuntime.

End Agent.

(* ===================================================================== *)
(** * The earlier orchestrator (the agent.js that parses [TOOL_CALL] tags) *)
(* ===================================================================== *)

Module LegacyAgent.

(** A call as [parseToolCalls] returns it. *)
Record Call := {
  callName : jsstring;
  callArgs : json
}.

(** An entry of [toolResults]: [{ name, args, result }] or
    [{ name, error }]. *)
Record Result := {
  resName : jsstring;
  resArgs : option json;
  resResult : option json;
  resError : option jsstring
}.

(** The two objects [processMessage] returns; the one of the [catch] has no
    [toolsCalled], [toolResults] and [isAuthenticated]. *)
Record Response := {
  success : bool;
  error : option jsstring;
  response : jsstring;
  toolsCalled : option (list jsstring);
  toolResults : option (list Result);
  respUserId : option jsstring;
  respSessionId : jsstring;
  respIsAuthenticated : option bool;
  respTimestamp : Z
}.

Definition apology : jsstring :=
  js "Xin lỗi, tôi gặp lỗi khi xử lý yêu cầu của bạn. Vui lòng thử lại sau.".

(** [buildConversationContext] *)
Definition buildConversationContext (history : list Turn) : jsstring :=
  match history with
  | [] => []
  | _ =>
      foldl (fun context msg =>
               context
               ++ (match turnRole msg with user => js "User" | _ => js "Assistant" end)
               ++ js ": " ++ turnContent msg ++ [0x0A])
            (js "Conversation History:" ++ [0x0A])
            (drop (length history - 10) history)
  end.

Definition fullPrompt (systemPrompt toolContext conversationContext userMessage : jsstring)
  : jsstring :=
  systemPrompt ++ [0x0A; 0x0A] ++ toolContext ++ [0x0A; 0x0A] ++ conversationContext
  ++ [0x0A; 0x0A] ++ js "User: " ++ userMessage ++ [0x0A; 0x0A]
  ++ js "Please analyze the user's request and respond. If you need to call tools, format them as:"
  ++ [0x0A]
  ++ jsq "[TOOL_CALL]: tool_name({'param1': 'value1', 'param2': 'value2'}) [/TOOL_CALL]"
  ++ [0x0A; 0x0A]
  ++ js "You can call multiple tools if needed. After calling tools, provide your final response.".

(** An entry of [toolResults] as [JSON.stringify] sees it. *)
Definition resultJson (r : Result) : json :=
  JObj ([(js "name", JStr (resName r))]
        ++ match resArgs r with Some v => [(js "args", v)] | None => [] end
        ++ match resResult r with Some v => [(js "result", v)] | None => [] end
        ++ match resError r with Some e => [(js "error", JStr e)] | None => [] end).

Definition finalPrompt (systemPrompt userMessage : jsstring) (results : list Result)
  : jsstring :=
  systemPrompt ++ [0x0A; 0x0A]
  ++ js "Based on the user's request and the tool execution results, provide a helpful response."
  ++ [0x0A; 0x0A] ++ js "User request: " ++ userMessage ++ [0x0A; 0x0A]
  ++ js "Tool results:" ++ [0x0A]
  ++ JsonIndent.stringify 0 (JArr (resultJson <$> results)) ++ [0x0A; 0x0A]
  ++ js "Please provide a clear, concise response to the user in their language (Vietnamese preferred if applicable).".

Section WithBackends.

(** The text [createToolContext] makes of the catalog and the calls
    [parseToolCalls] reads in a reply are functions of their argument; the
    statements about this orchestrator hold whatever they are. *)
Context (env : Env) (toolContextOf : list Tool -> jsstring)
  (parseToolCalls : jsstring -> list Call).

(** [callOllama]: the reply of the [generate] endpoint, a failure being
    thrown again as [LLM Error: ...]. *)
Definition callOllama (prompt : jsstring) : M jsstring :=
  t ← getTick;
  _ ← emit (EvGenerate prompt);
  match ollamaGenerate env t prompt with
  | inl e => throw {| message := js "LLM Error: " ++ httpMessage e |}
  | inr reply => mret reply
  end.

Definition createToolContext : M jsstring :=
  tools ← ToolExecutor.getAvailableTools env;
  mret (toolContextOf tools).

(** The body of the [try] of the loop, and its [catch], which does not
    count the call. The result tells whether the counter moves. *)
Definition runToolCall (sessionContext : SessionManager.SessionContext) (toolCall : Call)
  : M (Result * bool) :=
  tryCatch
    (result ← ToolExecutor.executeMcpTool env (callName toolCall) (callArgs toolCall)
                sessionContext;
     mret ({| resName := callName toolCall; resArgs := Some (callArgs toolCall);
              resResult := Some result; resError := None |}, true))
    (fun error =>
       mret ({| resName := callName toolCall; resArgs := None; resResult := None;
                resError := Some (message error) |}, false)).

(** The loop over the parsed calls. [cap] is [config.maxToolCalls], [None]
    when it is [NaN]: the comparison with it is then false. *)
Fixpoint executeTools (cap : option Z) (sessionContext : SessionManager.SessionContext)
  (toolCalls : list Call) (toolCallsExecuted : nat) (results : list Result)
  : M (list Result) :=
  match toolCalls with
  | [] => mret results
  | toolCall :: rest =>
      if match cap with
         | Some c => (c <=? Z.of_nat toolCallsExecuted)%Z
         | None => false
         end
      then mret results
      else
        '(entry, counted) ← runToolCall sessionContext toolCall;
        executeTools cap sessionContext rest
          (if counted : bool then S toolCallsExecuted else toolCallsExecuted)
          (results ++ [entry])
  end.

(** The body of the [try] of [processMessage]. *)
Definition processMessageBody (systemPrompt : jsstring) (cap : option Z)
  (userMessage : jsstring) (userId sessionId : option jsstring) : M Response :=
  sessionContext ← getSessionContext env sessionId;
  let uid := Agent.orString userId (SessionManager.ctxUserId sessionContext) in
  stamp ← now env;
  _ ← pushHistory {| turnRole := user; turnContent := userMessage; turnUserId := uid;
                     turnToolsCalled := None;
                     turnSessionId := SessionManager.sidOf sessionId;
                     turnTimestamp := stamp |};
  toolContext ← createToolContext;
  history ← getHistory;
  llmResponse ← callOllama (fullPrompt systemPrompt toolContext
                              (buildConversationContext history) userMessage);
  let toolCalls := parseToolCalls llmResponse in
  results ← executeTools cap sessionContext toolCalls 0 [];
  finalResponse ← match results with
                  | [] => mret llmResponse
                  | _ => callOllama (finalPrompt systemPrompt userMessage results)
                  end;
  stamp2 ← now env;
  _ ← pushHistory {| turnRole := assistant; turnContent := finalResponse;
                     turnUserId := None;
                     turnToolsCalled := Some (callName <$> toolCalls);
                     turnSessionId := SessionManager.sidOf sessionId;
                     turnTimestamp := stamp2 |};
  stamp3 ← now env;
  mret {| success := true; error := None; response := finalResponse;
          toolsCalled := Some (callName <$> toolCalls); toolResults := Some results;
          respUserId := uid; respSessionId := SessionManager.sidOf sessionId;
          respIsAuthenticated := Some (SessionManager.isAuthenticated sessionContext);
          respTimestamp := stamp3 |}.

Definition processMessage (systemPrompt : jsstring) (cap : option Z)
  (userMessage : jsstring) (userId sessionId : option jsstring) : M Response :=
  tryCatch (processMessageBody systemPrompt cap userMessage userId sessionId)
    (fun e =>
       stamp ← now env;
       mret {| success := false; error := Some (message e); response := apology;
               toolsCalled := None; toolResults := None; respUserId := userId;
               respSessionId := SessionManager.sidOf sessionId;
               respIsAuthenticated := None; respTimestamp := stamp |}).

End WithBackends.

End LegacyAgent.

(* ===================================================================== *)
(** * The routes of the chat API (routes/chat.js) *)
(* ===================================================================== *)

Module ChatRoutes.

(** What a handler reads of a request: the fields of its body (of its query
    for [GET /session]), each a string or absent. *)
Record ChatBody := {
  bodyMessage : option jsstring;
  bodyUserId : option jsstring;
  bodySessionId : option jsstring;
  authToken : option jsstring
}.

(** The objects the handlers send: [{ success: false, error }], the
    response of the agent, [{ success: true, session }],
    [{ success: true, message }] and [{ success: true, history, count }]. *)
Inductive Payload :=
| Failure (error : jsstring)
| AgentResult (result : Agent.Response)
| SessionInfo (session : SessionManager.SessionContext)
| Done (text : jsstring)
| History (history : list Turn) (count : nat).

(** [res.status(n).json(payload)]; [res.json] alone answers 200. *)
Record Reply := {
  status : nat;
  payload : Payload
}.

Section WithRuntime.
Context (U : Unicode) (env : Env) (agent : Agent.AgentConfig).

(** [sessionManager.setToken] on the store of the process: the clock is
    read for [expiresAt] and again for [loginTime]. *)
Definition setToken (tok uid : jsstring) (sessionId : option jsstring)
  (additionalData : SessionManager.AdditionalData) : M unit :=
  now1 ← now env;
  now2 ← now env;
  onSessions (fun sessions =>
    (tt,
     alter (fun s => {| SessionManager.token := SessionManager.token s;
                        SessionManager.userId := SessionManager.userId s;
                        SessionManager.expiresAt := SessionManager.expiresAt s;
                        SessionManager.refreshToken := SessionManager.refreshToken s;
                        SessionManager.loginTime := now2 |})
       (SessionManager.sidOf sessionId)
       (SessionManager.setToken sessions now1 tok uid sessionId additionalData))).

(** [POST /api/chat] *)
Definition postChat (body : ChatBody) : M Reply :=
  tryCatch
    (match SessionManager.orNull (bodyMessage body) with
     | None => mret {| status := 400; payload := Failure (js "Message is required") |}
     | Some userMessage =>
         _ ← match SessionManager.orNull (authToken body) with
             | Some tok =>
                 setToken tok
                   (default (js "anonymous") (SessionManager.orNull (bodyUserId body)))
                   (bodySessionId body) SessionManager.noAdditionalData
             | None => mret tt
             end;
         result ← Agent.processMessage U env agent userMessage (bodyUserId body)
                     (bodySessionId body);
         mret {| status := 200; payload := AgentResult result |}
     end)
    (fun error => mret {| status := 500; payload := Failure (message error) |}).

(** [GET /api/session] *)
Definition getSession (query : ChatBody) : M Reply :=
  tryCatch
    (sessionContext ← getSessionContext env
                        (Some (SessionManager.sidOf (bodySessionId query)));
     mret {| status := 200; payload := SessionInfo sessionContext |})
    (fun error => mret {| status := 500; payload := Failure (message error) |}).

(** [POST /api/session/logout] *)
Definition postLogout (body : ChatBody) : M Reply :=
  tryCatch
    (_ ← onSessions (fun sessions =>
                       (tt, SessionManager.clearSession sessions (bodySessionId body)));
     mret {| status := 200; payload := Done (js "Session cleared") |})
    (fun error => mret {| status := 500; payload := Failure (message error) |}).

(** [POST /api/chat/clear-history] *)
Definition postClearHistory : M Reply :=
  tryCatch
    (_ ← clearHistory;
     mret {| status := 200; payload := Done (js "Conversation history cleared") |})
    (fun error => mret {| status := 500; payload := Failure (message error) |}).

(** [GET /api/chat/history] *)
Definition getChatHistory : M Reply :=
  tryCatch
    (history ← getHistory;
     mret {| status := 200; payload := History history (length history) |})
    (fun error => mret {| status := 500; payload := Failure (message error) |}).

End WithRuntime.

End ChatRoutes.

(* ===================================================================== *)
(** * Sample data *)
(* ===================================================================== *)

Module Samples.

Definition noSchema : json := JObj [].

Definition getRoomA : Tool :=
  {| name := js "get_room"; description := js "Get a room by id";
     inputSchema := noSchema |}.

Definition getRoomB : Tool :=
  {| name := js "get_room"; description := js "Get a room (second registration)";
     inputSchema := noSchema |}.

Definition getHouse : Tool :=
  {| name := js "get_house"; description := js "Get a house by id";
     inputSchema := noSchema |}.

Definition createContract : Tool :=
  {| name := js "create_rental_contract"; description := js "Create a contract";
     inputSchema := noSchema |}.

(** A store with one session, opened at [t = 1000] ms for the default
    hour. *)
Definition oneSession : SessionManager.Sessions :=
  SessionManager.setToken ∅ 1000 (js "jwt-abc") (js "u1") None
    SessionManager.noAdditionalData.

Definition theSession : SessionManager.Session :=
  {| SessionManager.token := js "jwt-abc"; SessionManager.userId := js "u1";
     SessionManager.expiresAt := 3601000; SessionManager.refreshToken := None;
     SessionManager.loginTime := 1000 |}.

(** Replies of the model and the names offered to it. *)
Definition knownTools : list jsstring := [js "get_house"; js "get_room"].

Definition callText : jsstring := jsq "{'tool':'get_room','args':{'id':1}}".

Definition roomCall : OllamaClient.ToolCall :=
  {| OllamaClient.tcName := js "get_room";
     OllamaClient.tcArguments := JObj [(js "id", JNum (js "1"))] |}.

Definition roomCallNoArgs : OllamaClient.ToolCall :=
  {| OllamaClient.tcName := js "get_room"; OllamaClient.tcArguments := JObj [] |}.

(** The call, with the tool name written with an escape for its
    underscore. *)
Definition escapedCallText : jsstring := jsq "{'tool':'get\u005froom','args':{'id':1}}".

Definition mentionText : jsstring := js "call get_room then get_house please".

(** The process at its start. *)
Definition freshWorld : World :=
  {| tick := 0; sessions := ∅; conversationHistory := []; trace := [] |}.

Definition catalog : list Tool := [getRoomA; getHouse; createContract].

Definition roomById (n : jsstring) : NativeToolCall :=
  {| ncId := None; ncName := Some (js "get_room");
     ncArguments := Some (JObj [(js "id", JNum n)]) |}.

(** Eight calls: the third carries arguments that do not parse, the fifth
    names a tool whose invocation the backend refuses. *)
Definition eightCalls : list NativeToolCall :=
  [ roomById (js "1"); roomById (js "2");
    {| ncId := Some (js "c3"); ncName := Some (js "get_room");
       ncArguments := Some (JStr (js "{id:")) |};
    roomById (js "4");
    {| ncId := None; ncName := Some (js "get_house");
       ncArguments := Some (JObj [(js "id", JNum (js "5"))]) |};
    roomById (js "6"); roomById (js "7"); roomById (js "8") ].

(** A model that proposes the eight calls when it is asked at temperature
    0 and answers with a sentence otherwise; a backend that refuses
    [get_house]; the names of the tools for a tool prompt. *)
Definition busyEnv : Env :=
  {| clock := fun t => (1000 + Z.of_nat t)%Z;
     buildToolCallingPrompt := fun tools => inr (commaSpaceJoin (name <$> tools));
     ollamaChat := fun _ req =>
       if bool_decide (reqTemperature req = js "0")
       then inr (Some {| msgContent := []; tool_calls := eightCalls |})
       else inr (Some {| msgContent := js "Here are the rooms."; tool_calls := [] |});
     ollamaGenerate := fun _ _ => inr (js "Here are the rooms.");
     mcpListTools := fun _ => inr (Some catalog);
     mcpInvoke := fun _ toolName _ _ =>
       if bool_decide (toolName = js "get_house")
       then inl {| httpMessage := js "Request failed with status code 500";
                   responseError := None |}
       else inr (JObj [(js "success", JBool true)]) |}.

(** The same, with a model backend that is down. *)
Definition downEnv : Env :=
  {| clock := clock busyEnv;
     buildToolCallingPrompt := buildToolCallingPrompt busyEnv;
     ollamaChat := fun _ _ =>
       inl {| httpMessage := js "connect ECONNREFUSED 127.0.0.1:11434";
              responseError := None |};
     ollamaGenerate := fun _ _ =>
       inl {| httpMessage := js "connect ECONNREFUSED 127.0.0.1:11434";
              responseError := None |};
     mcpListTools := mcpListTools busyEnv;
     mcpInvoke := mcpInvoke busyEnv |}.

(** An agent built from the configuration that has no cap of its own. *)
Definition theAgent : Agent.AgentConfig :=
  Agent.newAgent (js "You are a hostel management assistant.") None.

Definition roomsQuestion : jsstring := js "list the rooms of house 3".

Definition hello : jsstring := js "Hello!".

(** The same backends, with a model that returns the greeting. *)
Definition friendlyEnv : Env :=
  {| clock := clock busyEnv;
     buildToolCallingPrompt := buildToolCallingPrompt busyEnv;
     ollamaChat := fun _ _ =>
       inr (Some {| msgContent := js "Hello! How can I help you today?";
                    tool_calls := [] |});
     ollamaGenerate := ollamaGenerate busyEnv;
     mcpListTools := mcpListTools busyEnv;
     mcpInvoke := mcpInvoke busyEnv |}.

Definition helloRequest : ChatRequest :=
  {| reqMessages := [ {| role := system; content := Agent.friendlyPrompt |};
                      {| role := user; content := hello |} ];
     reqTemperature := js "0.5" |}.

(** Eight calls as the earlier orchestrator holds them, and stand-ins for
    its two text functions: no tool context, and the eight calls read in
    every reply. *)
Definition eightLegacyCalls : list LegacyAgent.Call :=
  (fun n => {| LegacyAgent.callName := js "get_room";
               LegacyAgent.callArgs := JObj [(js "id", JNum (natToString n))] |})
  <$> seq 1 8.

Definition noToolContext (tools : list Tool) : jsstring := [].

Definition alwaysEightCalls (reply : jsstring) : list LegacyAgent.Call := eightLegacyCalls.

(** The reply of [friendlyEnv], and the same model behind a tool server that
    cannot be reached. *)
Definition friendlyReply : LlmMessage :=
  {| msgContent := js "Hello! How can I help you today?"; tool_calls := [] |}.

Definition offlineEnv : Env :=
  {| clock := clock busyEnv;
     buildToolCallingPrompt := buildToolCallingPrompt busyEnv;
     ollamaChat := fun _ _ => inr (Some friendlyReply);
     ollamaGenerate := ollamaGenerate busyEnv;
     mcpListTools := fun _ =>
       inl {| httpMessage := js "connect ECONNREFUSED 127.0.0.1:3001";
              responseError := None |};
     mcpInvoke := mcpInvoke busyEnv |}.

(** The body of a chat request that brings a token. *)
Definition tokenBody : ChatRoutes.ChatBody :=
  {| ChatRoutes.bodyMessage := Some roomsQuestion; ChatRoutes.bodyUserId := None;
     ChatRoutes.bodySessionId := None; ChatRoutes.authToken := Some (js "jwt-abc") |}.

(** The process with the one session of [oneSession]. *)
Definition loggedInWorld : World :=
  {| tick := 0; sessions := oneSession; conversationHistory := []; trace := [] |}.

End Samples.

(* ===================================================================== *)
(** * Properties *)
(* ===================================================================== *)

Local Open Scope nat_scope.

(** ** Strings *)

Lemma startsWith_spec (s p : jsstring) :
  startsWith s p = true <-> exists r, s = p ++ r.
Proof.
  revert s. induction p as [|a p IH]; intros s; simpl.
  - split; [intros _; by exists s | done].
  - destruct s as [|b s]; simpl.
    + split; [done | intros [r Hr]; discriminate].
    + rewrite andb_true_iff, N.eqb_eq, IH. split.
      * intros [-> [r ->]]. by exists r.
      * intros [r Hr]. injection Hr as -> ->. eauto.
Qed.

(** [s.includes(p)] holds exactly when [p] occurs in [s]. *)
Lemma includes_spec (s p : jsstring) :
  includes s p = true <-> exists l r, s = l ++ p ++ r.
Proof.
  induction s as [|c s IH]; simpl.
  - rewrite orb_false_r, startsWith_spec. split.
    + intros [r Hr]. by exists [], r.
    + intros [l [r Hr]]. symmetry in Hr.
      apply app_eq_nil in Hr as [-> Hr]. apply app_eq_nil in Hr as [-> ->].
      by exists [].
  - rewrite orb_true_iff, IH, startsWith_spec. split.
    + intros [[r Hr] | [l [r Hr]]].
      * by exists [], r.
      * exists (c :: l), r. by rewrite Hr.
    + intros [l [r Hr]]. destruct l as [|c' l].
      * left. by exists r.
      * right. injection Hr as -> ->. eauto.
Qed.

Lemma includes_false (s p : jsstring) :
  includes s p = false <-> ~ exists l r, s = l ++ p ++ r.
Proof. rewrite <- includes_spec. by destruct (includes s p). Qed.

(** ** Insertion-ordered maps *)

Section OrdMapFacts.
Context {V : Type}.
Implicit Types (m : list (jsstring * V)) (k : jsstring) (v : V).

Lemma ordmap_keys_set m k v :
  OrdMap.keys (OrdMap.set m k v)
  = if decide (k ∈ OrdMap.keys m) then OrdMap.keys m else OrdMap.keys m ++ [k].
Proof.
  unfold OrdMap.keys.
  induction m as [|[k' v'] m IH];
    cbn [OrdMap.set OrdMap.get fmap list_fmap fst snd foldl].
  - rewrite decide_False; [done | apply not_elem_of_nil].
  - destruct (decide (k' = k)) as [->|Hne];
    cbn [OrdMap.set OrdMap.get fmap list_fmap fst snd foldl].
    + rewrite decide_True; [done | left].
    + rewrite IH. destruct (decide (k ∈ fst <$> m)) as [Hin|Hnin].
      * rewrite decide_True; [done | by right].
      * rewrite decide_False; [done |].
        intros Hin. apply elem_of_cons in Hin as [->|Hin]; done.
Qed.

Lemma ordmap_get_set m k v k' :
  OrdMap.get (OrdMap.set m k v) k' = if decide (k = k') then Some v else OrdMap.get m k'.
Proof.
  induction m as [|[k0 v0] m IH];
    cbn [OrdMap.set OrdMap.get fmap list_fmap fst snd foldl].
  - by destruct (decide (k = k')).
  - destruct (decide (k0 = k)) as [->|Hne];
    cbn [OrdMap.set OrdMap.get fmap list_fmap fst snd foldl].
    + by destruct (decide (k = k')).
    + rewrite IH. destruct (decide (k0 = k')) as [->|]; [|done].
      by rewrite decide_False.
Qed.

Lemma ordmap_get_elem_of m k v :
  NoDup (OrdMap.keys m) -> (k, v) ∈ m -> OrdMap.get m k = Some v.
Proof.
  unfold OrdMap.keys.
  induction m as [|[k0 v0] m IH]; cbn [OrdMap.set OrdMap.get fmap list_fmap fst snd foldl]; intros Hnd Hin.
  - by apply elem_of_nil in Hin.
  - apply NoDup_cons in Hnd as [Hk0 Hnd].
    apply elem_of_cons in Hin as [Heq|Hin].
    + injection Heq as -> ->. by rewrite decide_True.
    + rewrite decide_False; [by apply IH|].
      intros ->. apply Hk0. change k with (k, v).1.
      by apply list_elem_of_fmap_2.
Qed.

(** The keys of a map built from entries: those already there, then the new
    ones in the order of their first occurrence. *)
Lemma ordmap_keys_foldl (es : list (jsstring * V)) m :
  OrdMap.keys (foldl (fun m e => OrdMap.set m e.1 e.2) m es)
  = OrdMap.keys m
    ++ filter (fun y => y ∉ OrdMap.keys m) (ToolFilter.nub (fst <$> es)).
Proof.
  revert m. induction es as [|[k v] es IH]; intros m;
    cbn [OrdMap.set OrdMap.get fmap list_fmap fst snd foldl].
  - by rewrite app_nil_r.
  - rewrite IH, ordmap_keys_set.
    destruct (decide (k ∈ OrdMap.keys m)) as [Hin|Hnin].
    + cbn [ToolFilter.nub]. rewrite filter_cons_False by tauto. f_equal.
      rewrite list_filter_filter. apply list_filter_iff.
      intros y. split; [|tauto]. intros Hy. split; [done|]. by intros ->.
    + cbn [ToolFilter.nub]. rewrite filter_cons_True by done.
      rewrite <- app_assoc. simpl. do 2 f_equal.
      rewrite list_filter_filter. apply list_filter_iff.
      intros y. rewrite elem_of_app, list_elem_of_singleton. tauto.
Qed.

Lemma ordmap_keys_of_entries (es : list (jsstring * V)) :
  OrdMap.keys (OrdMap.of_entries es) = ToolFilter.nub (fst <$> es).
Proof.
  unfold OrdMap.of_entries. rewrite ordmap_keys_foldl. simpl.
  induction (ToolFilter.nub (fst <$> es)) as [|y l IH]; [done|].
  rewrite filter_cons_True by apply not_elem_of_nil. by f_equal.
Qed.

(** The value under a key is the one of the last entry with that key. *)
Lemma ordmap_get_foldl (es : list (jsstring * V)) m k :
  OrdMap.get (foldl (fun m e => OrdMap.set m e.1 e.2) m es) k
  = match last (filter (fun e => e.1 = k) es) with
    | Some e => Some e.2
    | None => OrdMap.get m k
    end.
Proof.
  revert m. induction es as [|[k0 v0] es IH]; intros m; cbn [OrdMap.set OrdMap.get fmap list_fmap fst snd foldl]; [done|].
  rewrite IH, ordmap_get_set. simpl.
  destruct (decide (k0 = k)) as [->|Hne].
  - rewrite filter_cons_True by done.
    destruct (filter (fun e => e.1 = k) es) as [|e l] eqn:E; [done|].
    rewrite last_cons_cons. destruct (last (e :: l)) eqn:E2; [done|].
    by apply last_None in E2.
  - by rewrite filter_cons_False by done.
Qed.

End OrdMapFacts.

(** ** Tool catalog filter *)

Section ToolFilterFacts.
Import ToolFilter.

Lemma StronglySorted_sublist {A} (R : relation A) (l1 l2 : list A) :
  l1 `sublist_of` l2 -> StronglySorted R l2 -> StronglySorted R l1.
Proof.
  induction 1 as [|x l1 l2 Hsub IH|x l1 l2 Hsub IH]; intros Hs; [done| |].
  - apply StronglySorted_inv in Hs as [Hs Hx]. constructor; [by apply IH|].
    rewrite Forall_forall in Hx |- *. intros y Hy. apply Hx.
    by eapply elem_of_sublist.
  - apply StronglySorted_inv in Hs as [Hs _]. by apply IH.
Qed.

Lemma nub_elem_of (l : list jsstring) x : x ∈ nub l <-> x ∈ l.
Proof.
  induction l as [|y l IH]; simpl; [done|].
  rewrite !elem_of_cons, list_elem_of_filter, IH.
  destruct (decide (x = y)); tauto.
Qed.

Lemma nub_NoDup (l : list jsstring) : NoDup (nub l).
Proof.
  induction l as [|y l IH]; simpl; [constructor|].
  apply NoDup_cons. split; [|by apply NoDup_filter].
  rewrite list_elem_of_filter. tauto.
Qed.

(** Dropping names by a test before or after removing repetitions is the
    same. *)
Lemma nub_filter (P : jsstring -> Prop) `{!forall x, Decision (P x)} (l : list jsstring) :
  nub (filter P l) = filter P (nub l).
Proof.
  induction l as [|y l IH]; simpl; [done|].
  destruct (decide (P y)) as [Hy|Hy].
  - rewrite !filter_cons_True by done. simpl. f_equal.
    rewrite IH, !list_filter_filter. apply list_filter_iff. tauto.
  - rewrite !filter_cons_False by done. rewrite IH, list_filter_filter.
    apply list_filter_iff. intros x. split; [|tauto].
    intros Hx. split; [done|]. by intros ->.
Qed.

Lemma firstIndex_cons_ne n t ts :
  name t ≠ n -> firstIndex n (t :: ts) = S (firstIndex n ts).
Proof. intros Hne. simpl. by rewrite decide_False. Qed.

(** The names of a catalog, without repetitions, come in the order of their
    first occurrence. *)
Lemma nub_sorted (ts : list Tool) :
  StronglySorted lt ((fun n => firstIndex n ts) <$> nub (name <$> ts)).
Proof.
  induction ts as [|t ts IH]; [constructor|].
  cbn [fmap list_fmap nub]. change (list_fmap _ _ ?f) with (fmap f).
  replace (firstIndex (name t) (t :: ts)) with 0%nat
    by (simpl; by rewrite decide_True).
  assert (Heq : (fun n => firstIndex n (t :: ts))
                  <$> filter (fun y => y ≠ name t) (nub (name <$> ts))
                = S <$> ((fun n => firstIndex n ts)
                           <$> filter (fun y => y ≠ name t) (nub (name <$> ts)))).
  { rewrite <- list_fmap_compose. apply list_fmap_ext.
    intros i y Hy. apply list_elem_of_lookup_2, list_elem_of_filter in Hy as [Hy _].
    simpl. by rewrite decide_False. }
  rewrite Heq. constructor.
  - eapply StronglySorted_sublist with (l2 := S <$> ((fun n => firstIndex n ts) <$> nub (name <$> ts))).
    + do 2 apply fmap_sublist. apply sublist_filter.
    + clear Heq. induction IH as [|a l Hs IHs Ha]; [constructor|].
      cbn [fmap list_fmap]. constructor; [done|].
      change (list_fmap _ _ ?f) with (fmap f).
      apply Forall_fmap. eapply Forall_impl; [done|]. simpl. lia.
  - apply Forall_fmap, Forall_true. simpl. lia.
Qed.

Lemma set_named (m : list (jsstring * Tool)) (t : Tool) :
  Forall (fun e => name e.2 = e.1) m ->
  Forall (fun e => name e.2 = e.1) (OrdMap.set m (name t) t).
Proof.
  induction 1 as [|[k v] m Hk Hm IH]; cbn [OrdMap.set].
  - by repeat constructor.
  - destruct (decide (k = name t)) as [->|Hne]; by constructor.
Qed.

Lemma entries_named (ts : list Tool) :
  Forall (fun e => name e.2 = e.1) (OrdMap.of_entries ((fun t => (name t, t)) <$> ts)).
Proof.
  unfold OrdMap.of_entries.
  assert (H : Forall (fun e : jsstring * Tool => name e.2 = e.1) []) by constructor.
  revert H. generalize (@nil (jsstring * Tool)).
  induction ts as [|t ts IH]; intros m Hm; [done|].
  cbn [fmap list_fmap foldl fst snd]. apply IH. by apply set_named.
Qed.

(** The names kept by the de-duplication: those of the input, each at the
    place of its first occurrence. *)
Lemma uniqueTools_names (ts : list Tool) :
  name <$> uniqueTools ts = nub (name <$> ts).
Proof.
  unfold uniqueTools, OrdMap.values.
  transitivity (OrdMap.keys (OrdMap.of_entries ((fun t => (name t, t)) <$> ts))).
  - unfold OrdMap.keys. rewrite <- list_fmap_compose.
    apply list_fmap_ext. intros i e He. simpl.
    pose proof (entries_named ts) as Hn. rewrite Forall_forall in Hn.
    apply Hn. by eapply list_elem_of_lookup_2.
  - rewrite ordmap_keys_of_entries. f_equal. by rewrite <- list_fmap_compose.
Qed.

(** The descriptor kept for a name is the last one of that name. *)
Lemma uniqueTools_last (ts : list Tool) (t : Tool) :
  t ∈ uniqueTools ts -> lastNamed (name t) ts = Some t.
Proof.
  unfold uniqueTools, OrdMap.values, lastNamed. intros Hin.
  apply list_elem_of_fmap in Hin as [[k t'] [-> Hin]]. simpl.
  pose proof (entries_named ts) as Hn. rewrite Forall_forall in Hn.
  pose proof (Hn _ Hin) as Hk. simpl in Hk. subst k.
  apply ordmap_get_elem_of in Hin.
  2:{ rewrite ordmap_keys_of_entries. apply nub_NoDup. }
  unfold OrdMap.of_entries in Hin. rewrite ordmap_get_foldl in Hin. simpl in Hin.
  revert Hin. generalize (name t'). clear Hn. intros n.
  induction ts as [|t ts IH] using rev_ind; [done|].
  rewrite fmap_app, !filter_app. cbn [fmap list_fmap].
  rewrite !filter_cons, !filter_nil. simpl.
  destruct (decide (name t = n)) as [Ht|Ht].
  - rewrite !last_snoc. simpl. congruence.
  - by rewrite !app_nil_r.
Qed.

Lemma uniqueTools_subseteq (ts : list Tool) (t : Tool) :
  t ∈ uniqueTools ts -> t ∈ ts.
Proof.
  intros Hin. apply uniqueTools_last in Hin. unfold lastNamed in Hin.
  apply last_Some_elem_of, list_elem_of_filter in Hin. tauto.
Qed.

Lemma relevantTools_names (cs : list Category) (ts : list Tool) :
  name <$> relevantTools cs ts
  = filter (fun n => getToolCategory n ∈ cs) (name <$> ts).
Proof.
  unfold relevantTools. induction ts as [|t ts IH]; [done|].
  cbn [fmap list_fmap]. rewrite !filter_cons.
  destruct (decide (getToolCategory (name t) ∈ cs)); cbn [fmap list_fmap]; by rewrite <- IH.
Qed.

Lemma relevantTools_lastNamed (cs : list Category) (ts : list Tool) (t : Tool) :
  getToolCategory (name t) ∈ cs ->
  lastNamed (name t) (relevantTools cs ts) = lastNamed (name t) ts.
Proof.
  intros Hc. unfold lastNamed, relevantTools. f_equal.
  rewrite list_filter_filter. apply list_filter_iff.
  intros x. split; [tauto|]. intros Hx. split; [done|]. by rewrite Hx.
Qed.

(** The output of the filter for a given set of categories. *)
Lemma filter_names (cs : list Category) (ts : list Tool) (cap : nat) :
  name <$> take cap (uniqueTools (relevantTools cs ts))
  = take cap (filter (fun n => getToolCategory n ∈ cs) (nub (name <$> ts))).
Proof.
  by rewrite fmap_take, uniqueTools_names, relevantTools_names, nub_filter.
Qed.

Lemma filter_sorted (cs : list Category) (ts : list Tool) (cap : nat) :
  StronglySorted lt
    ((fun t => firstIndex (name t) ts) <$> take cap (uniqueTools (relevantTools cs ts))).
Proof.
  change (fun t => firstIndex (name t) ts) with ((fun n => firstIndex n ts) ∘ name).
  rewrite list_fmap_compose, filter_names.
  eapply StronglySorted_sublist; [|apply nub_sorted].
  apply fmap_sublist. etrans; [apply sublist_take | apply sublist_filter].
Qed.

Lemma filter_elem_of (cs : list Category) (ts : list Tool) (cap : nat) (t : Tool) :
  t ∈ take cap (uniqueTools (relevantTools cs ts)) ->
  t ∈ ts /\ getToolCategory (name t) ∈ cs /\ lastNamed (name t) ts = Some t.
Proof.
  intros Hin. assert (Hu : t ∈ uniqueTools (relevantTools cs ts))
    by (eapply elem_of_sublist; [done | apply sublist_take]).
  clear Hin. pose proof (uniqueTools_subseteq _ _ Hu) as Hr.
  unfold relevantTools in Hr. apply list_elem_of_filter in Hr as [Hc Ht].
  repeat split; [done..|].
  rewrite <- (relevantTools_lastNamed cs) by done. by apply uniqueTools_last.
Qed.

End ToolFilterFacts.

Section ToolFilterClaims.
Import ToolFilter.

(** C4. For every catalog, message and cap, the filter returns at most
    [maxTools] descriptors, each of them a descriptor of the catalog, ranked
    by the first appearance of their names in the catalog; and when no
    keyword of any category occurs in the message, the candidates are the
    tools of the default categories (house, room, tenant, invoice), and only
    those: the output is the truncated de-duplication of exactly these tools,
    so every returned tool is of a default category and every catalog tool
    of a default category has its name among the candidates. *)
Theorem filterRelevantTools_guarantees
  (U : Unicode) (allTools : list Tool) (userMessage : jsstring) (maxTools : nat) :
  let out := filterRelevantTools U allTools userMessage maxTools in
  length out <= maxTools
  /\ (forall t, t ∈ out -> t ∈ allTools)
  /\ StronglySorted lt ((fun t => firstIndex (name t) allTools) <$> out)
  /\ (matchedCategories U userMessage = [] ->
      let candidates := uniqueTools (relevantTools defaultCategories allTools) in
      out = take maxTools candidates
      /\ (forall t, t ∈ out -> getToolCategory (name t) ∈ [house; room; tenant; invoice])
      /\ (forall t, t ∈ allTools ->
            getToolCategory (name t) ∈ [house; room; tenant; invoice] ->
            exists t', t' ∈ candidates /\ name t' = name t)).
Proof.
  unfold filterRelevantTools. cbv zeta. repeat split.
  - rewrite length_take. lia.
  - intros t Ht. by apply filter_elem_of in Ht as [? _].
  - apply filter_sorted.
  - unfold detectRelevantCategories. by rewrite H.
  - intros t Ht. apply filter_elem_of in Ht as (_ & Hc & _).
    unfold detectRelevantCategories in Hc. by rewrite H in Hc.
  - intros t Ht Hc.
    assert (Hn : name t ∈ name <$> uniqueTools (relevantTools defaultCategories allTools)).
    { rewrite uniqueTools_names, nub_elem_of, relevantTools_names.
      apply list_elem_of_filter. split; [done|]. by apply list_elem_of_fmap_2. }
    apply list_elem_of_fmap in Hn as (t' & Hn & Ht'). by exists t'.
Qed.

(** C5, as the code has it: the classifier tries its tests in a fixed order
    and the first that holds decides. A name in which ["room_service"]
    occurs, and none of the words tested before ["service"] other than
    ["room"] (login, register, auth, refresh_token, house, tenant,
    contract), is of the service category. *)
Theorem getToolCategory_room_service (toolName : jsstring) :
  includes toolName (js "room_service") = true ->
  includes toolName (js "login") = false ->
  includes toolName (js "register") = false ->
  includes toolName (js "auth") = false ->
  includes toolName (js "refresh_token") = false ->
  includes toolName (js "house") = false ->
  includes toolName (js "tenant") = false ->
  includes toolName (js "contract") = false ->
  getToolCategory toolName = service.
Proof.
  intros Hrs Hl Hr Ha Ht Hh Hte Hc. unfold getToolCategory.
  rewrite Hl, Hr, Ha, Ht, Hh, Hrs, Hte, Hc. cbn [orb andb negb].
  by rewrite andb_false_r, orb_true_r.
Qed.

Lemma getToolCategory_room_service_witness :
  getToolCategory (js "add_room_service") = service.
Proof.
  apply getToolCategory_room_service; by vm_compute.
Defined.

(** C5 fails as stated: ["get_services_by_room"] contains both ["room"] and
    ["service"], and the classifier puts it in the room category. *)
Lemma getToolCategory_room_and_service_is_room :
  includes (js "get_services_by_room") (js "room") = true
  /\ includes (js "get_services_by_room") (js "service") = true
  /\ getToolCategory (js "get_services_by_room") = room
  /\ getToolCategory (js "get_services_by_room") ≠ service.
Proof. by vm_compute. Qed.

(** Other names with both words that an earlier test decides. *)
Lemma getToolCategory_earlier_tests :
  getToolCategory (js "get_house_room_services") = house
  /\ getToolCategory (js "add_room_service_to_tenant") = tenant
  /\ getToolCategory (js "add_room_service_to_contract") = contract.
Proof. by vm_compute. Qed.



End ToolFilterClaims.

(** ** Session context store *)

Section SessionManagerClaims.
Import SessionManager.

Lemma sidOf_nonEmpty (sessionId : option jsstring) : nonEmpty (sidOf sessionId) = true.
Proof. unfold sidOf. destruct sessionId as [[|c s]|]; done. Qed.

Lemma sidOf_idemp (sessionId : option jsstring) :
  sidOf (Some (sidOf sessionId)) = sidOf sessionId.
Proof.
  pose proof (sidOf_nonEmpty sessionId) as H.
  unfold sidOf at 1. by rewrite H.
Qed.

(** A token is returned only when the entry holds it and is not expired. *)
Lemma getToken_Some (sessions : Sessions) (now : Z) (sessionId : option jsstring) tok :
  (getToken sessions now sessionId).1 = Some tok ->
  exists s, sessions !! sidOf sessionId = Some s /\ token s = tok
            /\ (expiresAt s ≠ 0 -> now <= expiresAt s)%Z
            /\ (getToken sessions now sessionId).2 = sessions.
Proof.
  unfold getToken, expired.
  destruct (sessions !! sidOf sessionId) as [s|] eqn:E; [|done].
  destruct (nonEmpty (token s)); [|done]. cbn [negb].
  destruct (expiresAt s =? 0)%Z eqn:E0; cbn [negb andb].
  - intros [= <-]. exists s. split; [done|]. split; [done|]. split; [lia|done].
  - destruct (expiresAt s <? now)%Z eqn:E1; [done|].
    intros [= <-]. exists s. split; [done|]. split; [done|]. split; [lia|done].
Qed.

(** An absent session is reported as unauthenticated, without a token. *)
Lemma getSessionContext_absent (sessions : Sessions) (now1 now2 : Z) sessionId :
  sessions !! sidOf sessionId = None ->
  getSessionContext sessions now1 now2 sessionId
  = ({| ctxSessionId := sidOf sessionId; isAuthenticated := false; ctxToken := None;
        ctxUserId := None; ctxExpiresAt := None; ctxRefreshToken := None |}, sessions).
Proof. intros H. unfold getSessionContext. by rewrite H. Qed.

(** C2. For a session that holds a token and an expiry: [getToken] returns
    the token, and leaves the store as it is, while the clock is at most
    [expiresAt]; once the clock is past it the call returns [null], the entry
    is removed from the store, and [getSessionContext] on that session, at
    any later reading of the clock, reports [isAuthenticated: false] and no
    token. *)
Theorem getToken_expiry
  (sessions : Sessions) (sessionId : option jsstring) (s : Session) (now : Z) :
  sessions !! sidOf sessionId = Some s ->
  token s ≠ [] ->
  expiresAt s ≠ 0%Z ->
  ((now <= expiresAt s)%Z ->
     getToken sessions now sessionId = (Some (token s), sessions))
  /\ ((expiresAt s < now)%Z ->
        let after := (getToken sessions now sessionId).2 in
        (getToken sessions now sessionId).1 = None
        /\ after = delete (sidOf sessionId) sessions
        /\ after !! sidOf sessionId = None
        /\ forall now1 now2,
             isAuthenticated (getSessionContext after now1 now2 sessionId).1 = false
             /\ ctxToken (getSessionContext after now1 now2 sessionId).1 = None).
Proof.
  intros Hs Htok Hexp. unfold getToken, expired, clearSession.
  rewrite Hs, sidOf_idemp.
  destruct (token s) as [|c tk] eqn:Et; [done|]. cbn [nonEmpty negb].
  destruct (expiresAt s =? 0)%Z eqn:E0; [lia|]. cbn [negb andb].
  split; intros Hnow.
  - destruct (expiresAt s <? now)%Z eqn:E1; [lia|done].
  - destruct (expiresAt s <? now)%Z eqn:E1; [|lia]. cbv zeta. cbn [fst snd].
    repeat split; [apply lookup_delete_eq|..];
      by rewrite getSessionContext_absent by apply lookup_delete_eq.
Qed.

Lemma getToken_expiry_witness :
  getToken Samples.oneSession 3601000 None = (Some (js "jwt-abc"), Samples.oneSession)
  /\ (getToken Samples.oneSession 3601001 None).1 = None
  /\ (getToken Samples.oneSession 3601001 None).2 !! js "default" = None.
Proof.
  assert (Hs : Samples.oneSession !! sidOf None = Some Samples.theSession)
    by apply lookup_insert_eq.
  assert (Htok : token Samples.theSession ≠ []) by done.
  assert (Hexp : expiresAt Samples.theSession ≠ 0%Z) by done.
  split.
  - apply (proj1 (getToken_expiry _ None _ 3601000 Hs Htok Hexp)). by vm_compute.
  - assert (Hnow : (expiresAt Samples.theSession < 3601001)%Z) by done.
    destruct (proj2 (getToken_expiry _ None _ 3601001 Hs Htok Hexp) Hnow)
      as (H1 & _ & H3 & _).
    split; [exact H1 | exact H3].
Defined.

(** A session opened by [setToken] at a positive clock, for a positive time
    to live, holds an expiry: the token is served until it and not after. *)
Lemma setToken_then_getToken
  (sessions : Sessions) (t0 ttl now : Z) (tok uid : jsstring) sessionId :
  tok ≠ [] -> (0 <= t0)%Z -> (0 < ttl)%Z ->
  let data := {| expiresIn := Some ttl; newRefreshToken := None |} in
  (getToken (setToken sessions t0 tok uid sessionId data) now sessionId).1
  = if (now <=? t0 + ttl * 1000)%Z then Some tok else None.
Proof.
  intros Htok Ht0 Httl data. unfold setToken, data, getToken, expired.
  cbn [expiresIn newRefreshToken orNull].
  destruct (ttl =? 0)%Z eqn:E; [lia|]. rewrite lookup_insert_eq.
  cbn [token expiresAt]. destruct tok as [|c tk]; [done|]. cbn [nonEmpty negb].
  destruct (t0 + ttl * 1000 =? 0)%Z eqn:E0; [lia|]. cbn [negb andb].
  destruct (now <=? t0 + ttl * 1000)%Z eqn:E1;
    destruct (t0 + ttl * 1000 <? now)%Z eqn:E2; (done || lia).
Qed.

End SessionManagerClaims.

(** ** JSON: the lexer on the text of [stringify] *)

Section JsonLexer.
Import Json.

(** Induction on a value with the hypothesis for every element and every
    property value. *)
Lemma json_nested_ind (P : json -> Prop) :
  P JNull -> (forall b, P (JBool b)) -> (forall l, P (JNum l)) -> (forall s, P (JStr s)) ->
  (forall items, Forall P items -> P (JArr items)) ->
  (forall props, Forall (fun p => P p.2) props -> P (JObj props)) ->
  forall v, P v.
Proof.
  intros Hnull Hbool Hnum Hstr Harr Hobj.
  fix IH 1. intros [| b | l | s | items | props].
  - exact Hnull.
  - apply Hbool.
  - apply Hnum.
  - apply Hstr.
  - apply Harr. induction items as [|v items IHitems]; constructor; [apply IH | exact IHitems].
  - apply Hobj. induction props as [|[k v] props IHprops]; constructor;
      [apply IH | exact IHprops].
Qed.

Lemma prepend_nil {A} (o : option (list A)) : (fun rest => [] ++ rest) <$> o = o.
Proof. by destruct o. Qed.

Lemma prepend_prepend {A} (ts1 ts2 : list A) (o : option (list A)) :
  (fun rest => ts1 ++ rest) <$> ((fun rest => ts2 ++ rest) <$> o)
  = (fun rest => (ts1 ++ ts2) ++ rest) <$> o.
Proof. destruct o; simpl; [|done]. by rewrite app_assoc. Qed.

Lemma lexFrom_cons (m : mode) (c : N) (r : jsstring) :
  lexFrom m (c :: r)
  = match step m c with
    | None => None
    | Some (ts, m') => (fun rest => ts ++ rest) <$> lexFrom m' r
    end.
Proof. done. Qed.

(** *** Strings *)

Lemma hexVal_hexDigit (d : N) : (d < 16)%N -> hexVal (hexDigit d) = Some d.
Proof.
  intros H. assert (Hd : d ∈ N.of_nat <$> seq 0 16).
  { apply list_elem_of_fmap. exists (N.to_nat d). split; [lia|].
    apply elem_of_seq. lia. }
  vm_compute in Hd. repeat (apply elem_of_cons in Hd as [->|Hd]; [by vm_compute|]).
  by apply elem_of_nil in Hd.
Qed.

Lemma lex_unicodeEscape (acc : jsstring) (c : N) (tail : jsstring) :
  (c < 0x10000)%N ->
  lexFrom (MStr acc) (unicodeEscape c ++ tail) = lexFrom (MStr (acc ++ [c])) tail.
Proof.
  intros Hc. unfold unicodeEscape. cbn [app].
  rewrite lexFrom_cons. cbn [step]. change (0x5C =? 0x22)%N with false.
  change (0x5C =? 0x5C)%N with true. cbn iota. rewrite prepend_nil.
  rewrite lexFrom_cons. cbn [step]. change (0x75 =? 0x75)%N with true. cbn iota.
  rewrite prepend_nil.
  rewrite lexFrom_cons. cbn [step]. rewrite hexVal_hexDigit by (apply N.mod_lt; lia).
  rewrite prepend_nil.
  rewrite lexFrom_cons. cbn [step]. rewrite hexVal_hexDigit by (apply N.mod_lt; lia).
  rewrite prepend_nil.
  rewrite lexFrom_cons. cbn [step]. rewrite hexVal_hexDigit by (apply N.mod_lt; lia).
  rewrite prepend_nil.
  rewrite lexFrom_cons. cbn [step]. rewrite hexVal_hexDigit by (apply N.mod_lt; lia).
  rewrite prepend_nil. do 4 f_equal.
  assert (H3 : (c / 4096 < 16)%N) by (apply N.Div0.div_lt_upper_bound; lia).
  rewrite (N.mod_small (c / 4096)) by done.
  assert (H0 : (c = 16 * (c / 16) + c mod 16)%N) by (apply N.div_mod; lia).
  assert (H1 : (c / 16 = 16 * (c / 256) + (c / 16) mod 16)%N).
  { replace (c / 256)%N with (c / 16 / 16)%N by (by rewrite N.Div0.div_div).
    apply N.div_mod. lia. }
  assert (H2 : (c / 256 = 16 * (c / 4096) + (c / 256) mod 16)%N).
  { replace (c / 4096)%N with (c / 256 / 16)%N by (by rewrite N.Div0.div_div).
    apply N.div_mod. lia. }
  lia.
Qed.

Lemma lex_two_char_escape (acc : jsstring) (e x : N) (tail : jsstring) :
  (e =? 0x75)%N = false -> unescape e = Some x ->
  lexFrom (MStr acc) (0x5C%N :: e :: tail) = lexFrom (MStr (acc ++ [x])) tail.
Proof.
  intros He Hx. rewrite lexFrom_cons. cbn [step]. change (0x5C =? 0x22)%N with false.
  change (0x5C =? 0x5C)%N with true. cbn iota. rewrite prepend_nil.
  rewrite lexFrom_cons. cbn [step]. rewrite He, Hx. by rewrite prepend_nil.
Qed.

Lemma lex_quoteUnit (paired : bool) (acc : jsstring) (c : N) (tail : jsstring) :
  (c < 0x10000)%N ->
  lexFrom (MStr acc) (quoteUnit paired c ++ tail) = lexFrom (MStr (acc ++ [c])) tail.
Proof.
  intros Hc. unfold quoteUnit.
  destruct (c =? 0x08)%N eqn:E1; [apply N.eqb_eq in E1 as ->; by apply lex_two_char_escape|].
  destruct (c =? 0x09)%N eqn:E2; [apply N.eqb_eq in E2 as ->; by apply lex_two_char_escape|].
  destruct (c =? 0x0A)%N eqn:E3; [apply N.eqb_eq in E3 as ->; by apply lex_two_char_escape|].
  destruct (c =? 0x0C)%N eqn:E4; [apply N.eqb_eq in E4 as ->; by apply lex_two_char_escape|].
  destruct (c =? 0x0D)%N eqn:E5; [apply N.eqb_eq in E5 as ->; by apply lex_two_char_escape|].
  destruct (c =? 0x22)%N eqn:E6; [apply N.eqb_eq in E6 as ->; by apply lex_two_char_escape|].
  destruct (c =? 0x5C)%N eqn:E7; [apply N.eqb_eq in E7 as ->; by apply lex_two_char_escape|].
  destruct (c <? 0x20)%N eqn:E8; [by apply lex_unicodeEscape|].
  destruct ((isHighSurrogate c || isLowSurrogate c) && negb paired);
    [by apply lex_unicodeEscape|].
  cbn [app]. rewrite lexFrom_cons. cbn [step]. rewrite E6, E7, E8. by rewrite prepend_nil.
Qed.

(** The lexer reads back a string as [quote] writes it. *)
Lemma lex_quoteUnits (s : jsstring) (b : bool) (acc rest : jsstring) :
  wfString s ->
  lexFrom (MStr acc) (quoteUnits b s ++ 0x22%N :: rest)
  = (fun ts => [TString (acc ++ s)] ++ ts) <$> lexFrom MTop rest.
Proof.
  intros Hs. revert b acc. induction Hs as [|c s Hc Hs IH]; intros b acc.
  - cbn [quoteUnits app]. rewrite lexFrom_cons. cbn [step].
    change (0x22 =? 0x22)%N with true. cbn iota. by rewrite app_nil_r.
  - cbn [quoteUnits]. rewrite <- app_assoc, lex_quoteUnit by done.
    rewrite IH. by rewrite <- app_assoc.
Qed.

Lemma lex_quote (s rest : jsstring) :
  wfString s ->
  lexFrom MTop (quote s ++ rest) = (fun ts => [TString s] ++ ts) <$> lexFrom MTop rest.
Proof.
  intros Hs. unfold quote. cbn [app]. rewrite lexFrom_cons.
  cbn [step]. change (topStep 0x22) with (Some (@nil token, MStr [])). cbn iota.
  rewrite prepend_nil, <- app_assoc. cbn [app]. by rewrite lex_quoteUnits.
Qed.

(** *** Numbers *)

Lemma numStep_stop (st : numState) (c : N) :
  numAccepting st = true -> numStop c = true -> numStep st c = None.
Proof.
  unfold numStop. rewrite negb_true_iff, !orb_false_iff. intros Hst [[Hd He] Hx].
  destruct st; try done; cbn [numStep]; by rewrite ?Hd, ?He, ?Hx.
Qed.

Lemma lex_numRun (l : jsstring) (acc : jsstring) (st st' : numState) (rest : jsstring) :
  numRun st l = Some st' ->
  lexFrom (MNum acc st) (l ++ rest) = lexFrom (MNum (acc ++ l) st') rest.
Proof.
  revert acc st. induction l as [|d l IH]; intros acc st; cbn [numRun app].
  - intros [= ->]. by rewrite app_nil_r.
  - destruct (numStep st d) as [st1|] eqn:E; [|done]. intros Hrun.
    rewrite lexFrom_cons. cbn [step]. rewrite E, prepend_nil, (IH _ _ Hrun).
    by rewrite <- app_assoc.
Qed.

Lemma lex_number_end (acc : jsstring) (st : numState) (rest : jsstring) :
  numAccepting st = true -> delimited rest ->
  lexFrom (MNum acc st) rest = (fun ts => [TNumber acc] ++ ts) <$> lexFrom MTop rest.
Proof.
  intros Hst Hrest. destruct rest as [|c r].
  - cbn [lexFrom finish]. by rewrite Hst.
  - rewrite !lexFrom_cons. cbn [step]. rewrite (numStep_stop _ _ Hst Hrest), Hst.
    destruct (topStep c) as [[ts m']|]; [|done]. by rewrite prepend_prepend.
Qed.

Lemma topStep_numStart (c : N) (st : numState) :
  numStart c = Some st -> topStep c = Some ([], MNum [c] st).
Proof.
  intros H.
  assert (Hc : c ∈ [0x2D; 0x30; 0x31; 0x32; 0x33; 0x34; 0x35; 0x36; 0x37; 0x38; 0x39]%N).
  { unfold numStart, isDigit19 in H.
    destruct (c =? 0x2D)%N eqn:E1; [apply N.eqb_eq in E1 as ->; apply list_elem_of_here|].
    destruct (c =? 0x30)%N eqn:E2;
      [apply N.eqb_eq in E2 as ->; apply list_elem_of_further, list_elem_of_here|].
    destruct ((0x31 <=? c)%N && (c <=? 0x39)%N) eqn:E3; [|done].
    apply andb_true_iff in E3 as [Ha Hb]. apply N.leb_le in Ha, Hb.
    assert (Hn : c ∈ N.of_nat <$> seq 49 9).
    { apply list_elem_of_fmap. exists (N.to_nat c). split; [lia|]. apply elem_of_seq. lia. }
    by do 2 apply list_elem_of_further. }
  repeat (apply elem_of_cons in Hc as [->|Hc]; [revert H; vm_compute; congruence|]).
  by apply elem_of_nil in Hc.
Qed.

(** The lexer reads back a number, when what follows cannot continue it. *)
Lemma lex_number (l rest : jsstring) :
  validNumber l = true -> delimited rest ->
  lexFrom MTop (l ++ rest) = (fun ts => [TNumber l] ++ ts) <$> lexFrom MTop rest.
Proof.
  unfold validNumber. destruct l as [|c l]; [done|].
  destruct (numStart c) as [st|] eqn:Ec; [|done].
  destruct (numRun st l) as [st'|] eqn:Er; [|done]. intros Hacc Hrest.
  cbn [app]. rewrite lexFrom_cons. cbn [step]. rewrite (topStep_numStart _ _ Ec).
  rewrite prepend_nil, (lex_numRun _ _ _ _ _ Er). by apply lex_number_end.
Qed.

(** *** Punctuators and literals *)

Lemma lex_punctuator (c : N) (t : token) (rest : jsstring) :
  topStep c = Some ([t], MTop) ->
  lexFrom MTop (c :: rest) = (fun ts => [t] ++ ts) <$> lexFrom MTop rest.
Proof. intros H. rewrite lexFrom_cons. cbn [step]. by rewrite H. Qed.

Lemma lex_null (rest : jsstring) :
  lexFrom MTop (js "null" ++ rest) = (fun ts => [TNull] ++ ts) <$> lexFrom MTop rest.
Proof.
  vm_compute js. cbn [app]. rewrite !lexFrom_cons. simpl.
  by destruct (lexFrom MTop rest).
Qed.

Lemma lex_true (rest : jsstring) :
  lexFrom MTop (js "true" ++ rest) = (fun ts => [TTrue] ++ ts) <$> lexFrom MTop rest.
Proof.
  vm_compute js. cbn [app]. rewrite !lexFrom_cons. simpl.
  by destruct (lexFrom MTop rest).
Qed.

Lemma lex_false (rest : jsstring) :
  lexFrom MTop (js "false" ++ rest) = (fun ts => [TFalse] ++ ts) <$> lexFrom MTop rest.
Proof.
  vm_compute js. cbn [app]. rewrite !lexFrom_cons. simpl.
  by destruct (lexFrom MTop rest).
Qed.

(** *** Values *)

Lemma lex_commaSep {A} (f : A -> jsstring) (g : A -> list token) (parts : list A)
  (closer : N) (closeTok : token) (rest : jsstring) :
  Forall (fun p => forall rest', delimited rest' ->
            lexFrom MTop (f p ++ rest') = (fun ts => g p ++ ts) <$> lexFrom MTop rest') parts ->
  topStep closer = Some ([closeTok], MTop) -> numStop closer = true ->
  lexFrom MTop (commaSep (map f parts) ++ closer :: rest)
  = (fun ts => (commaTokens (map g parts) ++ [closeTok]) ++ ts) <$> lexFrom MTop rest.
Proof.
  intros Hparts Hclose Hstop. induction Hparts as [|p parts Hp Hparts IH].
  - cbn [map commaSep commaTokens app]. by apply lex_punctuator.
  - destruct parts as [|p' parts].
    + cbn [map commaSep commaTokens]. rewrite Hp by done.
      rewrite (lex_punctuator _ _ _ Hclose). by rewrite prepend_prepend.
    + change (commaSep (map f (p :: p' :: parts)))
        with (f p ++ [0x2C%N] ++ commaSep (map f (p' :: parts))).
      change (commaTokens (map g (p :: p' :: parts)))
        with (g p ++ [TComma] ++ commaTokens (map g (p' :: parts))).
      rewrite <- !app_assoc. rewrite Hp by done. cbn [app].
      rewrite (lex_punctuator 0x2C TComma) by done.
      rewrite IH, !prepend_prepend. destruct (lexFrom MTop rest); [|done].
      cbn [fmap option_fmap option_map]. f_equal.
      rewrite <- !app_assoc. cbn [app]. by rewrite <- ?app_assoc.
Qed.

(** The lexer reads the text of [stringify] back as the tokens of the
    value. *)
Lemma lex_stringify (v : json) :
  wf v -> forall rest, delimited rest ->
  lexFrom MTop (stringify v ++ rest) = (fun ts => tokens v ++ ts) <$> lexFrom MTop rest.
Proof.
  induction v as [| b | l | s | items IH | props IH] using json_nested_ind;
    intros Hwf rest Hrest; inversion Hwf; subst.
  - apply lex_null.
  - destruct b; [apply lex_true | apply lex_false].
  - by apply lex_number.
  - by apply lex_quote.
  - cbn [stringify tokens]. rewrite <- !app_assoc. cbn [app].
    rewrite (lex_punctuator 0x5B TLBracket) by done.
    rewrite (lex_commaSep stringify tokens items 0x5D TRBracket rest); [| |done..].
    + rewrite prepend_prepend. destruct (lexFrom MTop rest); [|done].
      done.
    + rewrite Forall_forall in IH, H0 |- *. intros x Hx. by apply IH, H0.
  - cbn [stringify tokens]. rewrite <- !app_assoc. cbn [app].
    rewrite (lex_punctuator 0x7B TLBrace) by done.
    rewrite (lex_commaSep (fun p => quote p.1 ++ 0x3A%N :: stringify p.2)
               (fun p => TString p.1 :: TColon :: tokens p.2) props 0x7D TRBrace rest);
      [| |done..].
    + rewrite prepend_prepend. destruct (lexFrom MTop rest); [|done].
      done.
    + rewrite Forall_forall in IH, H1 |- *. intros [k x] Hx rest' Hrest'.
      destruct (H1 _ Hx) as [Hk Hwx]. cbn [fst snd] in *.
      rewrite <- !app_assoc. rewrite lex_quote by done. cbn [app].
      rewrite (lex_punctuator 0x3A TColon) by done.
      rewrite (IH _ Hx Hwx) by done. by destruct (lexFrom MTop rest').
Qed.

End JsonLexer.

(** ** JSON: the parser on the tokens of a value *)

Section JsonParser.
Import Json.

Lemma tokens_head (v : json) :
  exists t ts, tokens v = t :: ts /\ startsValue t = true.
Proof. destruct v as [| [] | | | |]; cbn [tokens app]; eauto. Qed.

Lemma commaTokens_head {A} (g : A -> list token) (p : A) (ps : list A) t ts :
  g p = t :: ts ->
  exists ts', commaTokens (map g (p :: ps)) = t :: ts'.
Proof.
  intros H. destruct ps as [|p' ps]; cbn [map commaTokens]; rewrite H; cbn [app]; eauto.
Qed.

Lemma commaTokens_cons2 {A} (g : A -> list token) (p p' : A) (ps : list A) :
  commaTokens (map g (p :: p' :: ps)) = g p ++ TComma :: commaTokens (map g (p' :: ps)).
Proof. done. Qed.

Lemma ordmap_set_fresh {V} (m : list (jsstring * V)) k v :
  k ∉ OrdMap.keys m -> OrdMap.set m k v = m ++ [(k, v)].
Proof.
  unfold OrdMap.keys. induction m as [|[k' v'] m IH]; cbn [OrdMap.set fmap list_fmap fst app];
    intros Hk; [done|].
  apply not_elem_of_cons in Hk as [Hne Hk]. rewrite decide_False by done.
  by rewrite IH.
Qed.

Lemma parseElements_tokens (items : list json) :
  Forall (fun v => forall fuel rest, length (tokens v) <= fuel ->
                   parseValue fuel (tokens v ++ rest) = Some (v, rest)) items ->
  items ≠ [] ->
  forall fuel acc rest,
    length (commaTokens (map tokens items)) + 1 <= fuel ->
    parseElements fuel (commaTokens (map tokens items) ++ TRBracket :: rest) acc
    = Some (JArr (acc ++ items), rest).
Proof.
  induction 1 as [|v items Hv Hitems IH]; [done|]. intros _ fuel acc rest Hfuel.
  destruct fuel as [|fuel]; [lia|]. destruct items as [|v' items].
  - cbn [map commaTokens] in *. cbn [parseElements]. rewrite Hv by lia. done.
  - rewrite commaTokens_cons2 in *. rewrite length_app in Hfuel. cbn [length] in Hfuel.
    cbn [parseElements]. rewrite <- app_assoc. cbn [app]. rewrite Hv by lia.
    rewrite IH by (done || lia). by rewrite <- app_assoc.
Qed.

Lemma parseMembers_tokens (props : list (jsstring * json)) :
  Forall (fun p => forall fuel rest, length (tokens p.2) <= fuel ->
                   parseValue fuel (tokens p.2 ++ rest) = Some (p.2, rest)) props ->
  props ≠ [] ->
  forall fuel acc rest,
    NoDup (OrdMap.keys (acc ++ props)) ->
    length (commaTokens (map (fun p => TString p.1 :: TColon :: tokens p.2) props)) + 1
      <= fuel ->
    parseMembers fuel
      (commaTokens (map (fun p => TString p.1 :: TColon :: tokens p.2) props)
         ++ TRBrace :: rest) acc
    = Some (JObj (acc ++ props), rest).
Proof.
  induction 1 as [|[k v] props Hv Hprops IH]; [done|]. intros _ fuel acc rest Hnd Hfuel.
  assert (Hk : k ∉ OrdMap.keys acc).
  { unfold OrdMap.keys in *. rewrite fmap_app in Hnd. apply NoDup_app in Hnd as (_ & Hd & _).
    intros Hin. apply (Hd _ Hin). cbn. left. }
  cbn [fst snd] in Hv.
  destruct fuel as [|fuel]; [lia|]. destruct props as [|p' props].
  - cbn [map commaTokens fst snd] in *. cbn [parseMembers app]. cbn [length] in Hfuel.
    rewrite Hv by lia. by rewrite ordmap_set_fresh.
  - rewrite commaTokens_cons2 in *. cbn [fst snd app length] in *.
    rewrite length_app in Hfuel. cbn [length] in Hfuel.
    cbn [parseMembers]. rewrite <- app_assoc. cbn [app]. rewrite Hv by lia.
    rewrite ordmap_set_fresh by done. rewrite IH; [by rewrite <- app_assoc|done| |lia].
    by rewrite <- app_assoc.
Qed.

(** The parser reads the tokens of a value back as the value. *)
Lemma parseValue_tokens (v : json) :
  wf v -> forall fuel rest, length (tokens v) <= fuel ->
  parseValue fuel (tokens v ++ rest) = Some (v, rest).
Proof.
  induction v as [| b | l | s | items IH | props IH] using json_nested_ind;
    intros Hwf fuel rest Hfuel; inversion Hwf; subst;
    (destruct fuel as [|fuel];
     [try destruct b; cbn [tokens app length] in Hfuel; lia|]).
  - done.
  - by destruct b.
  - done.
  - done.
  - cbn [tokens app] in *. destruct items as [|v items]; [done|].
    destruct (tokens_head v) as (t & ts & Ht & Hst).
    destruct (commaTokens_head tokens v items t ts Ht) as [ts' Hts'].
    assert (Hel : parseElements fuel
                    (commaTokens (map tokens (v :: items)) ++ TRBracket :: rest) []
                  = Some (JArr ([] ++ v :: items), rest)).
    { apply parseElements_tokens; [|done|].
      - rewrite Forall_forall in IH, H0 |- *. intros x Hx. by apply IH, H0.
      - cbn [length] in Hfuel. rewrite length_app in Hfuel. cbn [length] in Hfuel. lia. }
    rewrite <- app_assoc. cbn [app]. rewrite Hts' in *. cbn [app parseValue] in *.
    by destruct t.
  - cbn [tokens app] in *. destruct props as [|[k v] props]; [done|].
    assert (Hel : parseMembers fuel
                    (commaTokens (map (fun p => TString p.1 :: TColon :: tokens p.2)
                                    ((k, v) :: props)) ++ TRBrace :: rest) []
                  = Some (JObj ([] ++ (k, v) :: props), rest)).
    { apply parseMembers_tokens; [|done|done|].
      - rewrite Forall_forall in IH, H1 |- *. intros x Hx. by apply IH, H1.
      - cbn [length] in Hfuel. rewrite length_app in Hfuel. cbn [length] in Hfuel. lia. }
    rewrite <- app_assoc. cbn [app].
    destruct (commaTokens_head (fun p : jsstring * json => TString p.1 :: TColon :: tokens p.2)
                (k, v) props (TString k) (TColon :: tokens v) eq_refl) as [ts' Hts'].
    rewrite Hts' in *. cbn [app parseValue] in *. done.
Qed.

(** Round trip: [JSON.parse(JSON.stringify(v))] is [v]. *)
Lemma parse_stringify (v : json) : wf v -> parse (stringify v) = Some v.
Proof.
  intros Hwf. unfold parse, lex.
  pose proof (lex_stringify v Hwf [] I) as Hl. rewrite app_nil_r in Hl. rewrite Hl.
  cbn [lexFrom finish fmap option_fmap option_map]. rewrite app_nil_r.
  pose proof (parseValue_tokens v Hwf (S (length (tokens v))) []) as Hp.
  rewrite app_nil_r in Hp. rewrite Hp by lia. done.
Qed.

End JsonParser.

(** ** Tool-call extractor *)

Section ExtractorFacts.
Import Json OllamaClient.

(** *** Cleaning leaves a braced text as it is *)

Lemma trimStart_id (c : N) (s : jsstring) :
  isWhiteSpace c = false -> trimStart (c :: s) = c :: s.
Proof. intros H. cbn [trimStart]. by rewrite H. Qed.

Lemma trimEnd_id (s : jsstring) (c : N) :
  isWhiteSpace c = false -> trimEnd (s ++ [c]) = s ++ [c].
Proof.
  intros H. unfold trimEnd. rewrite rev_app_distr. cbn [rev app].
  rewrite trimStart_id by done.
  change (c :: rev s) with ([c] ++ rev s). by rewrite rev_app_distr, rev_involutive.
Qed.

Lemma endsWith_snoc (s : jsstring) (c d : N) (p : jsstring) :
  c ≠ d -> endsWith (s ++ [c]) (p ++ [d]) = false.
Proof.
  intros H. unfold endsWith. rewrite !rev_app_distr. cbn [rev app startsWith].
  apply andb_false_iff. left. apply N.eqb_neq. congruence.
Qed.

(** A text that starts with an opening brace and ends with a closing brace
    has no space to trim and no fence to strip. *)
Lemma clean_braced (body : jsstring) :
  clean (0x7B%N :: body ++ [0x7D%N]) = 0x7B%N :: body ++ [0x7D%N].
Proof.
  unfold clean, trim.
  assert (Ht : trimEnd (0x7B%N :: body ++ [0x7D%N]) = 0x7B%N :: body ++ [0x7D%N])
    by (rewrite app_comm_cons; by apply trimEnd_id).
  rewrite trimStart_id by done. rewrite Ht.
  assert (Hl : stripLeadingFence (0x7B%N :: body ++ [0x7D%N]) = 0x7B%N :: body ++ [0x7D%N])
    by done.
  rewrite Hl. unfold stripTrailingFence. rewrite Ht.
  assert (He : endsWith (0x7B%N :: body ++ [0x7D%N]) (js "```") = false).
  { rewrite app_comm_cons. change (js "```") with ([0x60; 0x60]%N ++ [0x60%N]).
    by apply endsWith_snoc. }
  rewrite He. rewrite trimStart_id by done. exact Ht.
Qed.

Lemma stringify_object_braced (props : list (jsstring * json)) :
  exists body, stringify (JObj props) = 0x7B%N :: body ++ [0x7D%N].
Proof. cbn [stringify app]. eauto. Qed.

(** *** Strategy 1 on a serialized call *)

Lemma toolNameOf_tool (props : list (jsstring * json)) (n : jsstring) :
  n ≠ [] -> OrdMap.get props (js "tool") = Some (JStr n) ->
  toolNameOf (JObj props) = Some (JStr n).
Proof.
  intros Hn Hg. unfold toolNameOf. cbn [getProp]. rewrite Hg.
  destruct n; [done|]. done.
Qed.

End ExtractorFacts.

Section ExtractorRoundTrip.
Import Json OllamaClient.

(** C7. For every known tool name and every argument object, the text
    [JSON.stringify({tool: name, args: args})] is read back by the extractor
    as the call of that tool with those arguments. *)
Theorem parseToolCallFromContent_round_trip
  (knownToolNames : list jsstring)
  (toolName : jsstring) (args : list (jsstring * json)) :
  toolName ∈ knownToolNames ->
  toolName ≠ [] ->
  wfString toolName ->
  wf (JObj args) ->
  parseToolCallFromContent
    (stringify (JObj [(js "tool", JStr toolName); (js "args", JObj args)]))
    knownToolNames
  = Some {| tcName := toolName; tcArguments := JObj args |}.
Proof.
  intros Hknown Hne Hwn Hwa.
  set (call := JObj [(js "tool", JStr toolName); (js "args", JObj args)]).
  assert (Hwf : wf call).
  { constructor.
    - apply (bool_decide_unpack _). by vm_compute.
    - constructor; [split; [|by constructor]|constructor; [split; [|done]|constructor]];
        apply (bool_decide_unpack _); by vm_compute. }
  unfold parseToolCallFromContent.
  destruct (stringify_object_braced [(js "tool", JStr toolName); (js "args", JObj args)])
    as [body Hbody].
  fold call in Hbody. rewrite Hbody. cbn [nonEmpty negb orb].
  destruct knownToolNames as [|k0 ks] eqn:Ek; [by apply elem_of_nil in Hknown|].
  rewrite bool_decide_eq_false_2 by done. cbv zeta.
  rewrite clean_braced, <- Hbody. unfold strategy1.
  rewrite (parse_stringify _ Hwf). unfold call at 1. cbn [isObject].
  unfold callOfParsed, call. rewrite (toolNameOf_tool _ toolName) by done.
  destruct toolName as [|c tn]; [done|]. cbn [nonEmpty andb].
  rewrite bool_decide_eq_true_2 by done. done.
Qed.

Lemma parseToolCallFromContent_round_trip_witness :
  parseToolCallFromContent
    (stringify (JObj [(js "tool", JStr (js "get_room"));
                      (js "args", JObj [(js "id", JNum (js "1"))])]))
    Samples.knownTools
  = Some Samples.roomCall.
Proof.
  apply (parseToolCallFromContent_round_trip Samples.knownTools (js "get_room")
           [(js "id", JNum (js "1"))]).
  - apply (bool_decide_unpack _). by vm_compute.
  - done.
  - apply (bool_decide_unpack _). by vm_compute.
  - constructor.
    + apply (bool_decide_unpack _). by vm_compute.
    + constructor; [|constructor]. split.
      * apply (bool_decide_unpack _). by vm_compute.
      * by constructor.
Defined.

End ExtractorRoundTrip.

(** ** JSON: what a successful parse tells about the text *)

Section JsonInversion.
Import Json.

(** Equations between concatenations, up to associativity. *)
Ltac solve_app := repeat (rewrite <- app_assoc || cbn [app]); done.

(** *** The parser *)

(** A parse consumes a prefix of the tokens. *)
Lemma parse_suffix (fuel : nat) :
  (forall ts v r, parseValue fuel ts = Some (v, r) -> exists c, ts = c ++ r)
  /\ (forall ts acc v r, parseElements fuel ts acc = Some (v, r) -> exists c, ts = c ++ r)
  /\ (forall ts acc v r, parseMembers fuel ts acc = Some (v, r) -> exists c, ts = c ++ r).
Proof.
  induction fuel as [|f (IHv & IHe & IHm)]; [done|]. repeat split.
  - intros ts v r H. cbn [parseValue] in H.
    destruct ts as [|t ts]; [done|].
    destruct t; try done; try (injection H as <- <-; by eexists [_]).
    + destruct ts as [|t' ts]; [by apply IHm in H as [c ->]; exists (TLBrace :: c)|].
      destruct t'; try (apply IHm in H as [c Hc]; exists (TLBrace :: c); by rewrite Hc).
      injection H as <- <-. by exists [TLBrace; TRBrace].
    + destruct ts as [|t' ts]; [by apply IHe in H as [c ->]; exists (TLBracket :: c)|].
      destruct t'; try (apply IHe in H as [c Hc]; exists (TLBracket :: c); by rewrite Hc).
      injection H as <- <-. by exists [TLBracket; TRBracket].
  - intros ts acc v r H. cbn [parseElements] in H.
    destruct (parseValue f ts) as [[v1 r1]|] eqn:E; [|done].
    apply IHv in E as [c1 ->]. destruct r1 as [|t r1]; [done|].
    destruct t; try done.
    + injection H as <- <-. exists (c1 ++ [TRBracket]). solve_app.
    + apply IHe in H as [c2 ->]. exists (c1 ++ TComma :: c2). solve_app.
  - intros ts acc v r H. cbn [parseMembers] in H.
    destruct ts as [|[] [|[] ts]]; try done.
    destruct (parseValue f ts) as [[v1 r1]|] eqn:E; [|done].
    apply IHv in E as [c1 ->]. destruct r1 as [|t r1]; [done|].
    destruct t; try done.
    + injection H as <- <-. exists (TString s :: TColon :: c1 ++ [TRBrace]).
      solve_app.
    + apply IHm in H as [c2 ->]. exists (TString s :: TColon :: c1 ++ TComma :: c2).
      solve_app.
Qed.

(** An object is closed by a brace. *)
Lemma parseMembers_shape (fuel : nat) ts acc v r :
  parseMembers fuel ts acc = Some (v, r) ->
  exists props mid, v = JObj props /\ ts = mid ++ TRBrace :: r.
Proof.
  revert ts acc. induction fuel as [|f IH]; [done|]. intros ts acc H.
  cbn [parseMembers] in H. destruct ts as [|[] [|[] ts]]; try done.
  destruct (parseValue f ts) as [[v1 r1]|] eqn:E; [|done].
  apply (proj1 (parse_suffix f)) in E as [c1 ->]. destruct r1 as [|t r1]; [done|].
  destruct t; try done.
  - injection H as <- <-. eexists _, (TString s :: TColon :: c1). split; [done|].
    solve_app.
  - apply IH in H as (props & mid & -> & ->).
    eexists _, (TString s :: TColon :: c1 ++ TComma :: mid). split; [done|].
    solve_app.
Qed.

Lemma parseElements_shape (fuel : nat) ts acc v r :
  parseElements fuel ts acc = Some (v, r) -> exists items, v = JArr items.
Proof.
  revert ts acc. induction fuel as [|f IH]; [done|]. intros ts acc H.
  cbn [parseElements] in H.
  destruct (parseValue f ts) as [[v1 [|[] r1]]|]; try done.
  - injection H as <- <-. eauto.
  - by eapply IH.
Qed.

(** The value and the first token tell each other's kind. *)
Lemma parseValue_object (fuel : nat) ts props r :
  parseValue fuel ts = Some (JObj props, r) ->
  exists mid, ts = TLBrace :: mid ++ TRBrace :: r.
Proof.
  destruct fuel as [|f]; [done|]. cbn [parseValue].
  destruct ts as [|t ts]; [done|]. destruct t; try done.
  - destruct ts as [|t' ts].
    + intros H. by apply parseMembers_shape in H as (? & [|] & _ & ?).
    + destruct t'; try (intros H; apply parseMembers_shape in H as (? & mid & _ & ->); eauto).
      intros [= <- <-]. by exists [].
  - destruct ts as [|t' ts].
    + intros H. by apply parseElements_shape in H as [? ?].
    + destruct t'; try (intros H; by apply parseElements_shape in H as [? ?]). done.
Qed.

Lemma parseValue_brace (fuel : nat) ts v r :
  parseValue fuel (TLBrace :: ts) = Some (v, r) -> exists props, v = JObj props.
Proof.
  destruct fuel as [|f]; [done|]. cbn [parseValue].
  destruct ts as [|t' ts].
  - intros H. apply parseMembers_shape in H as (? & ? & -> & _). eauto.
  - destruct t'; try (intros H; apply parseMembers_shape in H as (? & ? & -> & _); eauto).
    intros [= <- <-]. eauto.
Qed.

Lemma parseValue_string (fuel : nat) ts s r :
  parseValue fuel ts = Some (JStr s, r) -> ts = TString s :: r.
Proof.
  destruct fuel as [|f]; [done|]. cbn [parseValue].
  destruct ts as [|t ts]; [done|]. destruct t; try done.
  - destruct ts as [|t' ts].
    + intros H. by apply parseMembers_shape in H as (? & ? & ? & _).
    + destruct t'; try (intros H; by apply parseMembers_shape in H as (? & ? & ? & _)). done.
  - destruct ts as [|t' ts].
    + intros H. by apply parseElements_shape in H as [? ?].
    + destruct t'; try (intros H; by apply parseElements_shape in H as [? ?]). done.
  - by intros [= -> ->].
Qed.

(** A string held by a property of a parsed object is one of the string
    tokens. *)
Lemma parseMembers_strings (fuel : nat) ts acc v r key s :
  parseMembers fuel ts acc = Some (v, r) ->
  getProp v key = Some (JStr s) ->
  OrdMap.get acc key = Some (JStr s) \/ TString s ∈ ts.
Proof.
  revert ts acc. induction fuel as [|f IH]; [done|]. intros ts acc H Hget.
  cbn [parseMembers] in H. destruct ts as [|[] [|[] ts]]; try done.
  destruct (parseValue f ts) as [[v1 r1]|] eqn:E; [|done].
  destruct r1 as [|t r1]; [done|]. destruct t; try done.
  - injection H as <- <-. cbn [getProp] in Hget. rewrite ordmap_get_set in Hget.
    destruct (decide (s0 = key)) as [->|Hne]; [|by left].
    injection Hget as ->. apply parseValue_string in E as ->. right.
    do 2 apply list_elem_of_further. apply list_elem_of_here.
  - destruct (IH _ _ H Hget) as [Hacc|Hin].
    + rewrite ordmap_get_set in Hacc.
      destruct (decide (s0 = key)) as [->|Hne]; [|by left].
      injection Hacc as ->. apply parseValue_string in E as ->. right.
      do 2 apply list_elem_of_further. apply list_elem_of_here.
    + right. apply (proj1 (parse_suffix f)) in E as [c1 ->].
      do 2 apply list_elem_of_further. apply elem_of_app. right. by right.
Qed.

Lemma parseValue_strings (fuel : nat) ts v r key s :
  parseValue fuel ts = Some (v, r) ->
  getProp v key = Some (JStr s) -> TString s ∈ ts.
Proof.
  destruct fuel as [|f]; [done|]. cbn [parseValue].
  intros H Hget. destruct v; try done.
  destruct ts as [|t ts]; [done|]. destruct t; try done.
  - assert (Hm : parseMembers f ts [] = Some (JObj props, r) -> TString s ∈ TLBrace :: ts).
    { intros Hm. destruct (parseMembers_strings _ _ _ _ _ _ _ Hm Hget) as [?|?]; [done|].
      by right. }
    destruct ts as [|t' ts]; [by apply Hm|].
    destruct t'; try by apply Hm. by injection H as <- <-.
  - destruct ts as [|t' ts].
    + by apply parseElements_shape in H as [? ?].
    + destruct t'; try by apply parseElements_shape in H as [? ?]. done.
Qed.

(** *** The lexer *)

Lemma topStep_inv (c : N) ts m :
  topStep c = Some (ts, m) ->
  (isJsonWs c = true /\ ts = [] /\ m = MTop)
  \/ (c = 0x7B%N /\ ts = [TLBrace] /\ m = MTop)
  \/ (c = 0x7D%N /\ ts = [TRBrace] /\ m = MTop)
  \/ (ts = [TLBracket] \/ ts = [TRBracket] \/ ts = [TColon] \/ ts = [TComma]) /\ m = MTop
  \/ (c = 0x22%N /\ ts = [] /\ m = MStr [])
  \/ (ts = [] /\ exists rest tok, m = MLit rest tok /\ regularMode m)
  \/ (ts = [] /\ exists st, m = MNum [c] st).
Proof.
  unfold topStep.
  destruct (isJsonWs c); [intros [= <- <-]; tauto|].
  destruct (c =? 0x7B)%N eqn:E1; [apply N.eqb_eq in E1; intros [= <- <-]; tauto|].
  destruct (c =? 0x7D)%N eqn:E2; [apply N.eqb_eq in E2; intros [= <- <-]; tauto|].
  destruct (c =? 0x5B)%N; [intros [= <- <-]; tauto|].
  destruct (c =? 0x5D)%N; [intros [= <- <-]; tauto|].
  destruct (c =? 0x3A)%N; [intros [= <- <-]; tauto|].
  destruct (c =? 0x2C)%N; [intros [= <- <-]; tauto|].
  destruct (c =? 0x22)%N eqn:E3; [apply N.eqb_eq in E3; intros [= <- <-]; tauto|].
  destruct (c =? 0x74)%N;
    [intros [= <- <-]; do 5 right; left; split; [done|]; eexists _, _; split; [done|]; cbn; tauto|].
  destruct (c =? 0x66)%N;
    [intros [= <- <-]; do 5 right; left; split; [done|]; eexists _, _; split; [done|]; cbn; tauto|].
  destruct (c =? 0x6E)%N;
    [intros [= <- <-]; do 5 right; left; split; [done|]; eexists _, _; split; [done|]; cbn; tauto|].
  destruct (numStart c); [|done]. intros [= <- <-]. do 6 right. eauto.
Qed.

(** What one step emits, and where it leads, by mode. *)
Lemma step_inv (m : mode) (c : N) ts m' :
  step m c = Some (ts, m') ->
  match m with
  | MTop => topStep c = Some (ts, m')
  | MStr acc =>
      (c = 0x22%N /\ ts = [TString acc] /\ m' = MTop)
      \/ (c = 0x5C%N /\ ts = [] /\ m' = MEsc acc)
      \/ (c ≠ 0x22%N /\ c ≠ 0x5C%N /\ ts = [] /\ m' = MStr (acc ++ [c]))
  | MEsc acc => ts = [] /\ ((exists k v, m' = MHex acc k v) \/ exists x, m' = MStr (acc ++ [x]))
  | MHex acc _ _ =>
      ts = [] /\ ((exists k v, m' = MHex acc k v) \/ exists x, m' = MStr (acc ++ [x]))
  | MNum acc st =>
      (ts = [] /\ exists st', m' = MNum (acc ++ [c]) st')
      \/ (exists ts0, ts = TNumber acc :: ts0 /\ topStep c = Some (ts0, m'))
  | MLit rest tok =>
      (ts = [tok] /\ m' = MTop) \/ (ts = [] /\ exists rest', m' = MLit rest' tok)
  end.
Proof.
  destruct m as [|acc|acc|acc k v|acc st|rest tok]; cbn [step].
  - done.
  - destruct (c =? 0x22)%N eqn:E1; [apply N.eqb_eq in E1; intros [= <- <-]; tauto|].
    destruct (c =? 0x5C)%N eqn:E2; [apply N.eqb_eq in E2; intros [= <- <-]; tauto|].
    apply N.eqb_neq in E1, E2. destruct (c <? 0x20)%N; [done|]. intros [= <- <-]. tauto.
  - destruct (c =? 0x75)%N; [intros [= <- <-]; eauto|].
    destruct (unescape c); [|done]. intros [= <- <-]. eauto.
  - destruct (hexVal c); [|done]. destruct k as [|[|k]]; [done|..]; intros [= <- <-]; eauto.
  - destruct (numStep st c); [intros [= <- <-]; eauto|].
    destruct (numAccepting st); [|done].
    destruct (topStep c) as [[ts0 m0]|]; [|done]. intros [= <- <-]. eauto.
  - destruct rest as [|x rest]; [done|]. destruct (c =? x)%N; [|done].
    destruct rest; intros [= <- <-]; eauto.
Qed.

Lemma step_regular (m : mode) (c : N) ts m' :
  regularMode m -> step m c = Some (ts, m') -> regularMode m'.
Proof.
  intros Hm Hs. apply step_inv in Hs. destruct m; cbn [regularMode] in *.
  - apply topStep_inv in Hs
      as [(_&_&->)|[(_&_&->)|[(_&_&->)|[(_&->)|[(_&_&->)|[(_&?&?&->&?)|(_&?&->)]]]]]]; done.
  - by destruct Hs as [(_&_&->)|[(_&_&->)|(_&_&_&->)]].
  - by destruct Hs as (_&[(?&?&->)|(?&->)]).
  - by destruct Hs as (_&[(?&?&->)|(?&->)]).
  - destruct Hs as [(_&?&->)|(ts0&_&Hs)]; [done|].
    apply topStep_inv in Hs
      as [(_&_&->)|[(_&_&->)|[(_&_&->)|[(_&->)|[(_&_&->)|[(_&?&?&->&?)|(_&?&->)]]]]]]; done.
  - by destruct Hs as [(_&->)|(_&?&->)].
Qed.

(** Inside a token the lexer cannot stop without emitting it. *)
Lemma lexFrom_first_token (s : jsstring) (m : mode) t ts :
  lexFrom m s = Some (t :: ts) ->
  match m with
  | MTop => True
  | MStr _ | MEsc _ | MHex _ _ _ => exists x, t = TString x
  | MNum _ _ => exists x, t = TNumber x
  | MLit _ tok => t = tok
  end.
Proof.
  revert m t ts. induction s as [|c r IH]; intros m t ts.
  - destruct m; cbn [lexFrom finish]; try done.
    destruct (numAccepting st); [|done]. intros [= <- <-]. eauto.
  - rewrite lexFrom_cons. destruct (step m c) as [[toks m']|] eqn:Es; [|done].
    destruct (lexFrom m' r) as [rest|] eqn:Er; [|done].
    cbn [fmap option_fmap option_map]. intros [= Heq].
    apply step_inv in Es. destruct m; [done|..].
    + destruct Es as [(_&->&->)|[(_&->&->)|(_&_&->&->)]];
        cbn [app] in Heq; [injection Heq as <- _; eauto|..]; subst rest; by apply IH in Er.
    + destruct Es as (->&[(?&?&->)|(?&->)]); cbn [app] in Heq; subst rest; by apply IH in Er.
    + destruct Es as (->&[(?&?&->)|(?&->)]); cbn [app] in Heq; subst rest; by apply IH in Er.
    + destruct Es as [(->&?&->)|(ts0&->&_)]; cbn [app] in Heq.
      * subst rest. by apply IH in Er.
      * injection Heq as <- _. eauto.
    + destruct Es as [(->&->)|(->&?&->)]; cbn [app] in Heq.
      * by injection Heq as <- _.
      * subst rest. by apply IH in Er.
Qed.

Lemma lexFrom_nonempty (s : jsstring) (m : mode) :
  m ≠ MTop -> lexFrom m s ≠ Some [].
Proof.
  revert m. induction s as [|c r IH]; intros m Hm.
  - destruct m; cbn [lexFrom finish]; try done. by destruct (numAccepting st).
  - rewrite lexFrom_cons. destruct (step m c) as [[toks m']|] eqn:Es; [|done].
    destruct (lexFrom m' r) as [rest|] eqn:Er; [|done].
    cbn [fmap option_fmap option_map]. intros [= Heq].
    apply app_eq_nil in Heq as [-> ->]. apply step_inv in Es.
    assert (m' ≠ MTop); [|by apply (IH m')].
    destruct m; [done|..].
    + by destruct Es as [(_&?&->)|[(_&_&->)|(_&_&_&->)]].
    + by destruct Es as (_&[(?&?&->)|(?&->)]).
    + by destruct Es as (_&[(?&?&->)|(?&->)]).
    + by destruct Es as [(_&?&->)|(ts0&?&_)].
    + by destruct Es as [(?&->)|(_&?&->)].
Qed.

(** A text without tokens is white space. *)
Lemma lex_nil_space (s : jsstring) :
  lexFrom MTop s = Some [] -> Forall (fun c => isJsonWs c = true) s.
Proof.
  induction s as [|c r IH]; [by constructor|].
  rewrite lexFrom_cons. destruct (step MTop c) as [[toks m']|] eqn:Es; [|done].
  destruct (lexFrom m' r) as [rest|] eqn:Er; [|done].
  cbn [fmap option_fmap option_map]. intros [= Heq].
  apply app_eq_nil in Heq as [-> ->]. cbn [step] in Es.
  assert (m' = MTop) as ->
    by (destruct m'; [done|exfalso; (eapply lexFrom_nonempty; [|exact Er]; done)..]).
  apply topStep_inv in Es
    as [(?&_&_)|[(_&?&_)|[(_&?&_)|[([?|[?|[?|?]]]&_)|[(_&_&?)|[(_&?&?&?&_)|(_&?&?)]]]]]];
    try done.
  constructor; [done|by apply IH].
Qed.

(** A text whose first token is an opening brace starts with it, after
    white space. *)
Lemma lex_first_brace (s : jsstring) ts :
  lexFrom MTop s = Some (TLBrace :: ts) ->
  exists w s', s = w ++ 0x7B%N :: s' /\ Forall (fun c => isJsonWs c = true) w.
Proof.
  induction s as [|c r IH]; [done|].
  rewrite lexFrom_cons. destruct (step MTop c) as [[toks m']|] eqn:Es; [|done].
  destruct (lexFrom m' r) as [rest|] eqn:Er; [|done].
  cbn [fmap option_fmap option_map]. intros [= Heq]. cbn [step] in Es.
  apply topStep_inv in Es
    as [(Hw&->&->)|[(->&_&_)|[(_&->&_)|[([-> | [-> | [-> | ->]]]&_)|[(_&->&->)|[(->&?&?&->&Hr)|(->&?&->)]]]]]];
    try done; cbn [app] in Heq; subst.
  - destruct (IH Er) as (w & s' & -> & Hws). exists (c :: w), s'. split; [done|].
    by constructor.
  - by exists [], r.
  - by apply lexFrom_first_token in Er as [? ?].
  - apply lexFrom_first_token in Er. cbn [regularMode] in Hr. subst. by destruct Hr as [?|[?|?]].
  - by apply lexFrom_first_token in Er as [? ?].
Qed.

(** A text whose last token is a closing brace ends with it, before white
    space. *)
Lemma lex_last_brace (s : jsstring) (m : mode) ts :
  regularMode m ->
  lexFrom m s = Some (ts ++ [TRBrace]) ->
  exists s' w, s = s' ++ 0x7D%N :: w /\ Forall (fun c => isJsonWs c = true) w.
Proof.
  revert m ts. induction s as [|c r IH]; intros m ts Hm.
  - destruct m; cbn [lexFrom finish]; try done.
    + intros [= Heq]. by destruct ts.
    + destruct (numAccepting st); [|done]. intros [= Heq]. by destruct ts as [|? [|? ?]].
  - rewrite lexFrom_cons. destruct (step m c) as [[toks m']|] eqn:Es; [|done].
    destruct (lexFrom m' r) as [rest|] eqn:Er; [|done].
    cbn [fmap option_fmap option_map]. intros [= Heq].
    pose proof (step_regular _ _ _ _ Hm Es) as Hm'.
    destruct rest as [|t rest _] using rev_ind.
    + rewrite app_nil_r in Heq. subst toks.
      assert (Hc : c = 0x7D%N /\ m' = MTop).
      { apply step_inv in Es. destruct m.
        - apply topStep_inv in Es
            as [(_&?&_)|[(_&?&_)|[(->&_&->)|[([?|[?|[?|?]]]&_)|[(_&?&_)|[(?&_)|(?&_)]]]]]];
            try done; by destruct ts as [|? [|? ?]].
        - destruct Es as [(_&?&_)|[(_&?&_)|(_&_&?&_)]]; by destruct ts as [|? [|? ?]].
        - destruct Es as (?&_). by destruct ts.
        - destruct Es as (?&_). by destruct ts.
        - destruct Es as [(?&_)|(ts0&Heq&Es)]; [by destruct ts|].
          destruct ts as [|t0 ts]; [done|]. injection Heq as _ Heq.
          apply topStep_inv in Es
            as [(_&?&_)|[(_&?&_)|[(->&_&->)|[([?|[?|[?|?]]]&_)|[(_&?&_)|[(?&_)|(?&_)]]]]]];
            subst; try done; by destruct ts as [|? [|? ?]].
        - destruct Es as [(Heq&_)|(?&_)]; [|by destruct ts].
          cbn [regularMode] in Hm. destruct ts as [|? [|? ?]]; try done.
          injection Heq as <-. by destruct Hm as [?|[?|?]]. }
      destruct Hc as [-> ->]. exists [], r. split; [done|]. by apply lex_nil_space.
    + rewrite app_assoc in Heq. apply app_inj_tail in Heq as [_ ->].
      destruct (IH _ _ Hm' Er) as (s' & w & -> & Hw). by exists (c :: s'), w.
Qed.

(** In a text without backslash, every string token is written out in the
    text. *)
Lemma lex_strings_plain (s : jsstring) (m : mode) ts str :
  0x5C%N ∉ s -> plainMode m -> regularMode m ->
  lexFrom m s = Some ts -> TString str ∈ ts ->
  match m with
  | MStr acc => (exists p r, s = p ++ 0x22%N :: r /\ str = acc ++ p) \/ includes s str = true
  | _ => includes s str = true
  end.
Proof.
  revert m ts. induction s as [|c r IH]; intros m ts Hbs Hp Hreg.
  - destruct m; cbn [lexFrom finish]; try done.
    + intros [= <-] Hin. by apply elem_of_nil in Hin.
    + destruct (numAccepting st); [|done]. intros [= <-] Hin.
      apply elem_of_cons in Hin as [?|Hin]; [done|]. by apply elem_of_nil in Hin.
  - apply not_elem_of_cons in Hbs as [Hc Hbs].
    rewrite lexFrom_cons. destruct (step m c) as [[toks m']|] eqn:Es; [|done].
    destruct (lexFrom m' r) as [rest|] eqn:Er; [|done].
    cbn [fmap option_fmap option_map]. intros [= <-] Hin.
    pose proof (step_regular _ _ _ _ Hreg Es) as Hreg'.
    assert (Hfurther : includes r str = true -> includes (c :: r) str = true).
    { intros H. cbn [includes]. rewrite H. apply orb_true_r. }
    (* what the rest of the text tells, once the next mode is known to be plain *)
    assert (Hrest : plainMode m' -> TString str ∈ rest ->
                    match m' with
                    | MStr acc => (exists p r', r = p ++ 0x22%N :: r' /\ str = acc ++ p)
                                  \/ includes r str = true
                    | _ => includes r str = true
                    end)
      by (intros Hp' Hin'; exact (IH m' rest Hbs Hp' Hreg' Er Hin')).
    assert (Htop : forall ts0, topStep c = Some (ts0, m') ->
                   TString str ∈ ts0 ++ rest -> includes (c :: r) str = true).
    { intros ts0 Ht Hin0. apply Hfurther.
      apply topStep_inv in Ht
        as [(_&->&->)|[(_&->&->)|[(_&->&->)|[([-> | [-> | [-> | ->]]]&->)|[(_&->&->)|[(->&?&?&->&_)|(->&?&->)]]]]]];
        cbn [app] in Hin0;
        try (apply elem_of_cons in Hin0 as [?|Hin0]; [done|]);
        try (by apply Hrest).
      destruct (Hrest I Hin0) as [(p & r' & -> & ->)|?]; [|done].
      apply includes_spec. by exists [], (0x22%N :: r'). }
    apply step_inv in Es. destruct m; try done.
    + by eapply Htop.
    + destruct Es as [(->&->&->)|[(?&_)|(_&_&->&->)]]; [| done |].
      * apply elem_of_cons in Hin as [[= ->]|Hin].
        -- left. exists [], r. by rewrite app_nil_r.
        -- right. by apply Hfurther, Hrest.
      * cbn [app] in Hin.
        destruct (Hrest I Hin) as [(p & r' & -> & ->)|?]; [|by right; apply Hfurther].
        left. exists (c :: p), r'. split; [done|]. by rewrite <- app_assoc.
    + destruct Es as [(->&?&->)|(ts0&->&Ht)].
      * by apply Hfurther, Hrest.
      * apply elem_of_cons in Hin as [?|Hin]; [done|]. by eapply Htop.
    + destruct Es as [(->&->)|(->&?&->)].
      * apply elem_of_cons in Hin as [Heq|Hin]; [|by apply Hfurther, Hrest].
        cbn [regularMode] in Hreg. subst tok. by destruct Hreg as [?|[?|?]].
      * by apply Hfurther, Hrest.
Qed.

(** *** [JSON.parse] *)

Lemma parse_inv (s : jsstring) (v : json) :
  parse s = Some v ->
  exists ts, lexFrom MTop s = Some ts /\ parseValue (S (length ts)) ts = Some (v, []).
Proof.
  unfold parse, lex. destruct (lexFrom MTop s) as [ts|]; [|done].
  destruct (parseValue (S (length ts)) ts) as [[v' [|? ?]]|] eqn:E; [|done..].
  intros [= <-]. eauto.
Qed.

(** The text of an object starts with an opening brace and ends with a
    closing brace, white space apart. *)
Lemma parse_object_braces (s : jsstring) (props : list (jsstring * json)) :
  parse s = Some (JObj props) ->
  (exists w s', s = w ++ 0x7B%N :: s' /\ Forall (fun c => isJsonWs c = true) w)
  /\ (exists s' w, s = s' ++ 0x7D%N :: w /\ Forall (fun c => isJsonWs c = true) w).
Proof.
  intros (ts & Hl & Hp)%parse_inv. apply parseValue_object in Hp as [mid ->]. split.
  - by eapply lex_first_brace.
  - eapply (lex_last_brace s MTop (TLBrace :: mid)); [done|]. by rewrite Hl.
Qed.

(** A text that starts with an opening brace parses, if at all, as an
    object. *)
Lemma parse_brace_object (s : jsstring) (v : json) :
  parse (0x7B%N :: s) = Some v -> exists props, v = JObj props.
Proof.
  intros (ts & Hl & Hp)%parse_inv. rewrite lexFrom_cons in Hl. cbn [step] in Hl.
  change (topStep 0x7B) with (Some ([TLBrace], MTop)) in Hl. cbn iota in Hl.
  destruct (lexFrom MTop s) as [rest|]; [|done]. injection Hl as <-.
  by eapply parseValue_brace.
Qed.

(** In a text without backslash, a string held by a property of the parsed
    value is written out in the text. *)
Lemma parse_string_prop (s : jsstring) (v : json) (key n : jsstring) :
  parse s = Some v -> 0x5C%N ∉ s -> getProp v key = Some (JStr n) ->
  includes s n = true.
Proof.
  intros (ts & Hl & Hp)%parse_inv Hbs Hget.
  pose proof (parseValue_strings _ _ _ _ _ _ Hp Hget) as Hin.
  exact (lex_strings_plain s MTop ts n Hbs I I Hl Hin).
Qed.

End JsonInversion.

(** ** Strings: occurrences, trimming *)

Section StringFacts.

Lemma includes_occursIn (s p : jsstring) : includes s p = true <-> occursIn p s.
Proof. apply includes_spec. Qed.

Lemma occursIn_refl (s : jsstring) : occursIn s s.
Proof. exists [], []. by rewrite app_nil_r. Qed.

Lemma occursIn_trans (a b c : jsstring) : occursIn a b -> occursIn b c -> occursIn a c.
Proof.
  intros (l1 & r1 & ->) (l2 & r2 & ->). exists (l2 ++ l1), (r1 ++ r2).
  by rewrite <- !app_assoc.
Qed.

Lemma occursIn_app_l (a l s : jsstring) : occursIn a s -> occursIn a (l ++ s).
Proof. intros (l1 & r1 & ->). exists (l ++ l1), r1. by rewrite <- app_assoc. Qed.

Lemma occursIn_app_r (a r s : jsstring) : occursIn a s -> occursIn a (s ++ r).
Proof. intros (l1 & r1 & ->). exists l1, (r1 ++ r). by rewrite <- !app_assoc. Qed.

Lemma occursIn_drop (n : nat) (s : jsstring) : occursIn (drop n s) s.
Proof. exists (take n s), []. by rewrite app_nil_r, take_drop. Qed.

Lemma occursIn_take (n : nat) (s : jsstring) : occursIn (take n s) s.
Proof. exists [], (drop n s). by rewrite take_drop. Qed.

Lemma occursIn_rev (a s : jsstring) : occursIn a s -> occursIn (rev a) (rev s).
Proof.
  intros (l & r & ->). exists (rev r), (rev l). by rewrite !rev_app_distr, <- app_assoc.
Qed.

Lemma occursIn_elem (c : N) (a s : jsstring) : occursIn a s -> c ∈ a -> c ∈ s.
Proof. intros (l & r & ->) H. rewrite !elem_of_app. tauto. Qed.

Lemma trimStart_suffix (s : jsstring) : exists w, s = w ++ trimStart s.
Proof.
  induction s as [|c s [w IH]]; [by exists []|]. cbn [trimStart].
  destruct (isWhiteSpace c); [|by exists []]. exists (c :: w). by rewrite IH at 1.
Qed.

Lemma trimEnd_prefix (s : jsstring) : exists w, s = trimEnd s ++ w.
Proof.
  unfold trimEnd. destruct (trimStart_suffix (rev s)) as [w Hw].
  exists (rev w). rewrite <- rev_app_distr, <- Hw. by rewrite rev_involutive.
Qed.

Lemma occursIn_trimStart (s : jsstring) : occursIn (trimStart s) s.
Proof.
  destruct (trimStart_suffix s) as [w Hw]. exists w, []. by rewrite app_nil_r.
Qed.

Lemma occursIn_trimEnd (s : jsstring) : occursIn (trimEnd s) s.
Proof. destruct (trimEnd_prefix s) as [w Hw]. by exists [], w. Qed.

Lemma occursIn_trim (s : jsstring) : occursIn (trim s) s.
Proof.
  unfold trim. eapply occursIn_trans; [apply occursIn_trimEnd | apply occursIn_trimStart].
Qed.

Lemma trimStart_head (s : jsstring) c r : trimStart s = c :: r -> isWhiteSpace c = false.
Proof.
  induction s as [|x s IH]; [done|]. cbn [trimStart].
  destruct (isWhiteSpace x) eqn:E; [done|]. by intros [= <- _].
Qed.

Lemma trimEnd_last (s : jsstring) r c : trimEnd s = r ++ [c] -> isWhiteSpace c = false.
Proof.
  unfold trimEnd. intros H. apply (f_equal (@rev N)) in H.
  rewrite rev_involutive, rev_app_distr in H. by apply trimStart_head in H.
Qed.

Lemma trimEnd_head (s : jsstring) c r c' r' :
  s = c :: r -> trimEnd s = c' :: r' -> c' = c.
Proof.
  intros -> H. destruct (trimEnd_prefix (c :: r)) as [w Hw]. rewrite H in Hw.
  by injection Hw as ->.
Qed.

(** A trimmed text neither starts nor ends with white space. *)
Lemma trim_head (s : jsstring) c r : trim s = c :: r -> isWhiteSpace c = false.
Proof.
  unfold trim. intros H. destruct (trimStart s) as [|c0 r0] eqn:E; [done|].
  rewrite (trimEnd_head _ _ _ _ _ eq_refl H). by eapply trimStart_head.
Qed.

Lemma trim_last (s : jsstring) r c : trim s = r ++ [c] -> isWhiteSpace c = false.
Proof. unfold trim. apply trimEnd_last. Qed.

Lemma isJsonWs_isWhiteSpace (c : N) : Json.isJsonWs c = true -> isWhiteSpace c = true.
Proof.
  unfold Json.isJsonWs. rewrite !orb_true_iff, !N.eqb_eq.
  intros [[[->| ->]| ->]| ->]; done.
Qed.

End StringFacts.

(** ** Tool-call extractor: cleaning *)

Section CleanFacts.
Import Json OllamaClient.

Lemma braceFree_nil : braceFree [].
Proof. split; apply not_elem_of_nil. Qed.

Lemma braceFree_suffix (w a : jsstring) : braceFree (w ++ a) -> braceFree a.
Proof. intros [H1 H2]. split; intros H; [apply H1|apply H2]; apply elem_of_app; tauto. Qed.

Lemma braceFree_prefix (a w : jsstring) : braceFree (a ++ w) -> braceFree a.
Proof. intros [H1 H2]. split; intros H; [apply H1|apply H2]; apply elem_of_app; tauto. Qed.

Lemma braceFree_rev (a : jsstring) : braceFree a -> braceFree (rev a).
Proof.
  intros [H1 H2]. split; intros H; [apply H1|apply H2];
    by apply list_elem_of_In, in_rev, list_elem_of_In.
Qed.

Lemma occursIn_stripLeadingFence (s : jsstring) : occursIn (stripLeadingFence s) s.
Proof.
  unfold stripLeadingFence. destruct (startsWith s (js "```")); [|apply occursIn_refl].
  eapply occursIn_trans; [apply occursIn_trimStart|].
  destruct (startsWithCI (drop 3 s) (js "json")); [|apply occursIn_drop].
  eapply occursIn_trans; apply occursIn_drop.
Qed.

Lemma occursIn_stripTrailingFence (s : jsstring) : occursIn (stripTrailingFence s) s.
Proof.
  unfold stripTrailingFence. destruct (endsWith (trimEnd s) (js "```")); [|apply occursIn_refl].
  eapply occursIn_trans; [apply occursIn_trimEnd|].
  eapply occursIn_trans; [apply occursIn_take | apply occursIn_trimEnd].
Qed.

(** The cleaned text is a part of the reply. *)
Lemma occursIn_clean (content : jsstring) : occursIn (clean content) content.
Proof.
  unfold clean.
  eapply occursIn_trans; [apply occursIn_trim|].
  eapply occursIn_trans; [apply occursIn_stripTrailingFence|].
  eapply occursIn_trans; [apply occursIn_stripLeadingFence | apply occursIn_trim].
Qed.

(** *** A braced text between two texts without braces *)

Lemma trimStart_around (c : N) (t' a b : jsstring) :
  isWhiteSpace c = false ->
  exists w a', a = w ++ a' /\ trimStart (a ++ (c :: t') ++ b) = a' ++ (c :: t') ++ b.
Proof.
  intros Hc. induction a as [|x a (w & a' & Ha & IH)].
  - exists [], []. split; [done|]. cbn [app]. by apply trimStart_id.
  - cbn [app trimStart]. destruct (isWhiteSpace x).
    + exists (x :: w), a'. split; [by rewrite Ha|done].
    + by exists [], (x :: a).
Qed.

Lemma trimEnd_around (t' : jsstring) (c : N) (a b : jsstring) :
  isWhiteSpace c = false ->
  exists b' w, b = b' ++ w /\ trimEnd (a ++ (t' ++ [c]) ++ b) = a ++ (t' ++ [c]) ++ b'.
Proof.
  intros Hc. unfold trimEnd. rewrite !rev_app_distr. cbn [rev app].
  destruct (trimStart_around c (rev t') (rev b) (rev a) Hc) as (w & b' & Hb & Ht).
  rewrite <- !app_assoc. cbn [app] in *.
  rewrite Ht. exists (rev b'), (rev w). split.
  - apply (f_equal (@rev N)) in Hb. by rewrite rev_involutive, rev_app_distr in Hb.
  - rewrite !rev_app_distr. cbn [rev app]. rewrite !rev_app_distr, !rev_involutive.
    cbn [rev app]. by rewrite <- !app_assoc.
Qed.

Lemma startsWith_around (a : jsstring) (c : N) (x p : jsstring) :
  startsWith (a ++ c :: x) p = true -> c ∉ p -> length p <= length a.
Proof.
  revert a. induction p as [|d p IH]; intros a H Hc; [cbn; lia|].
  apply not_elem_of_cons in Hc as [Hne Hc]. destruct a as [|y a]; cbn [app startsWith] in H.
  - apply andb_true_iff in H as [H%N.eqb_eq _]. congruence.
  - apply andb_true_iff in H as [_ H]. cbn [length]. apply IH in H; [lia|done].
Qed.

Lemma startsWithCI_around (a : jsstring) (c : N) (x p : jsstring) :
  startsWithCI (a ++ c :: x) p = true ->
  Forall (fun d => sameLetter d c = false) p -> length p <= length a.
Proof.
  revert a. induction p as [|d p IH]; intros a H Hc; [cbn; lia|].
  apply Forall_cons in Hc as [Hne Hc]. destruct a as [|y a]; cbn [app startsWithCI] in H.
  - apply andb_true_iff in H as [H _]. congruence.
  - apply andb_true_iff in H as [_ H]. cbn [length]. apply IH in H; [lia|done].
Qed.

Lemma embeds_trimStart (body s : jsstring) :
  embeds (0x7B%N :: body ++ [0x7D%N]) s -> embeds (0x7B%N :: body ++ [0x7D%N]) (trimStart s).
Proof.
  intros (a & b & -> & Ha & Hb).
  destruct (trimStart_around 0x7B (body ++ [0x7D%N]) a b eq_refl) as (w & a' & -> & ->).
  exists a', b. split; [done|]. split; [by eapply braceFree_suffix|done].
Qed.

Lemma embeds_trimEnd (body s : jsstring) :
  embeds (0x7B%N :: body ++ [0x7D%N]) s -> embeds (0x7B%N :: body ++ [0x7D%N]) (trimEnd s).
Proof.
  intros (a & b & -> & Ha & Hb).
  destruct (trimEnd_around (0x7B%N :: body) 0x7D a b eq_refl) as (b' & w & -> & Ht).
  cbn [app] in Ht |- *. rewrite Ht.
  exists a, b'. split; [done|]. split; [done|by eapply braceFree_prefix].
Qed.

Lemma embeds_drop (body s : jsstring) (k : nat) (a b : jsstring) :
  s = a ++ (0x7B%N :: body ++ [0x7D%N]) ++ b -> braceFree a -> braceFree b ->
  k <= length a ->
  embeds (0x7B%N :: body ++ [0x7D%N]) (drop k s).
Proof.
  intros -> Ha Hb Hk. exists (drop k a), b. split.
  - rewrite drop_app_le by done. done.
  - split; [|done]. rewrite <- (take_drop k a) in Ha. by eapply braceFree_suffix.
Qed.

Lemma embeds_stripLeadingFence (body s : jsstring) :
  embeds (0x7B%N :: body ++ [0x7D%N]) s ->
  embeds (0x7B%N :: body ++ [0x7D%N]) (stripLeadingFence s).
Proof.
  intros Hs. unfold stripLeadingFence.
  destruct (startsWith s (js "```")) eqn:E; [|done].
  apply embeds_trimStart. destruct Hs as (a & b & -> & Ha & Hb).
  cbn [app] in E. apply startsWith_around in E.
  2:{ apply (bool_decide_unpack _). by vm_compute. }
  change (length (js "```")) with 3 in E.
  pose proof (embeds_drop body _ 3 a b eq_refl Ha Hb E) as (a1 & b1 & Hd & Ha1 & Hb1).
  rewrite Hd. destruct (startsWithCI _ (js "json")) eqn:E2; [|by exists a1, b1].
  cbn [app] in E2. apply startsWithCI_around in E2.
  2:{ apply (bool_decide_unpack _). by vm_compute. }
  change (length (js "json")) with 4 in E2.
  by eapply embeds_drop.
Qed.

Lemma take_rev_drop {A} (l : list A) (n : nat) :
  take (length l - n) l = rev (drop n (rev l)).
Proof. by rewrite skipn_rev, rev_involutive. Qed.

Lemma embeds_stripTrailingFence (body s : jsstring) :
  embeds (0x7B%N :: body ++ [0x7D%N]) s ->
  embeds (0x7B%N :: body ++ [0x7D%N]) (stripTrailingFence s).
Proof.
  intros Hs. unfold stripTrailingFence.
  destruct (endsWith (trimEnd s) (js "```")) eqn:E; [|done].
  apply embeds_trimEnd. apply embeds_trimEnd in Hs.
  destruct Hs as (a & b & Hs & Ha & Hb). rewrite Hs in *. clear Hs.
  unfold endsWith in E. rewrite !rev_app_distr in E. cbn [rev app] in E.
  rewrite !rev_app_distr in E. cbn [rev app] in E. rewrite <- !app_assoc in E.
  cbn [app] in E. apply startsWith_around in E.
  2:{ apply (bool_decide_unpack _). by vm_compute. }
  change (length (rev (js "```"))) with 3 in E. rewrite length_rev in E.
  exists a, (take (length b - 3) b). split.
  - rewrite !length_app. rewrite !take_app.
    replace (length a + (length (0x7B%N :: body ++ [0x7D%N]) + length b) - 3 - length a)
      with (length (0x7B%N :: body ++ [0x7D%N]) + (length b - 3)) by lia.
    rewrite (take_ge a) by lia.
    replace (length (0x7B%N :: body ++ [0x7D%N]) + (length b - 3)
             - length (0x7B%N :: body ++ [0x7D%N])) with (length b - 3) by lia.
    rewrite (take_ge (0x7B%N :: body ++ [0x7D%N])) by lia. done.
  - split; [done|]. rewrite <- (take_drop (length b - 3) b) in Hb. by eapply braceFree_prefix.
Qed.

(** Cleaning a reply in which a braced text stands in prose without braces
    leaves that text, in prose without braces. *)
Lemma embeds_clean (body content : jsstring) :
  embeds (0x7B%N :: body ++ [0x7D%N]) content ->
  embeds (0x7B%N :: body ++ [0x7D%N]) (clean content).
Proof.
  intros H. unfold clean, trim.
  by apply embeds_trimEnd, embeds_trimStart, embeds_stripTrailingFence,
    embeds_stripLeadingFence, embeds_trimEnd, embeds_trimStart.
Qed.

End CleanFacts.

(** ** Tool-call extractor: the three strategies *)

Section StrategyFacts.
Import Json OllamaClient.

(** *** Strategy 2: the balanced candidates *)

Lemma scanBraces_braceFree (text chars : jsstring) i depth start :
  braceFree chars -> scanBraces text chars i depth start = [].
Proof.
  revert i. induction chars as [|c r IH]; intros i [H1 H2]; [done|].
  apply not_elem_of_cons in H1 as [Ho H1], H2 as [Hc H2]. cbn [scanBraces].
  rewrite (proj2 (N.eqb_neq c 0x7B)), (proj2 (N.eqb_neq c 0x7D)) by congruence.
  by apply IH.
Qed.

Lemma substring_around (a t b : jsstring) (st j : nat) :
  st <= j -> j <= length t ->
  substring (a ++ t ++ b) (length a + st) (length a + j) = substring t st j.
Proof.
  intros H1 H2. unfold substring.
  rewrite drop_app_add'  by done. replace (length a + j - (length a + st)) with (j - st) by lia.
  rewrite drop_app_le by lia. rewrite take_app_le; [done|]. rewrite length_drop. lia.
Qed.

(** Scanning a text inside prose finds what scanning it alone finds, as
    long as the prose has no braces. *)
Lemma scanBraces_around (a t b chars : jsstring) (i : nat) depth start :
  braceFree b ->
  i + length chars = length t ->
  (forall st, start = Some st -> st <= i) ->
  scanBraces (a ++ t ++ b) (chars ++ b) (length a + i) depth ((fun st => length a + st) <$> start)
  = scanBraces t chars i depth start.
Proof.
  intros Hb. revert i depth start. induction chars as [|c r IH]; intros i depth start Hi Hst.
  - cbn [app scanBraces]. by apply scanBraces_braceFree.
  - cbn [app scanBraces length] in *.
    replace (S (length a + i)) with (length a + S i) by lia.
    destruct (c =? 0x7B)%N.
    + rewrite <- (IH (S i)); [|lia|].
      * by destruct (depth =? 0)%Z.
      * intros st. destruct (depth =? 0)%Z; [intros [= <-]; lia|]. intros H%Hst. lia.
    + destruct (c =? 0x7D)%N.
      * destruct start as [st|]; cbn [fmap option_fmap option_map].
        -- specialize (Hst st eq_refl). destruct (depth - 1 =? 0)%Z.
           ++ replace (length a + i + 1) with (length a + (i + 1)) by lia.
              rewrite substring_around by lia. f_equal.
              by rewrite <- (IH (S i) _ None) by (lia || done).
           ++ rewrite <- (IH (S i) _ (Some st)); [done|lia|]. intros ? [= <-]. lia.
        -- by rewrite <- (IH (S i) _ None) by (lia || done).
      * rewrite <- (IH (S i)); [done|lia|]. intros st H%Hst. lia.
Qed.

Lemma extractBalanced_around (a t b : jsstring) :
  braceFree a -> braceFree b ->
  extractBalancedJsonObjects (a ++ t ++ b) = extractBalancedJsonObjects t.
Proof.
  intros Ha Hb. unfold extractBalancedJsonObjects.
  assert (Hpre : forall chars i, braceFree chars ->
            scanBraces (a ++ t ++ b) (chars ++ t ++ b) i 0 None
            = scanBraces (a ++ t ++ b) (t ++ b) (i + length chars) 0 None).
  { induction chars as [|c r IH]; intros i [H1 H2].
    - cbn [app length]. by rewrite Nat.add_0_r.
    - apply not_elem_of_cons in H1 as [Ho H1], H2 as [Hc H2]. cbn [app scanBraces length].
      rewrite (proj2 (N.eqb_neq c 0x7B)), (proj2 (N.eqb_neq c 0x7D)) by congruence.
      rewrite IH by done. f_equal. lia. }
  rewrite Hpre by done. cbn [Nat.add].
  pose proof (scanBraces_around a t b t 0 0 None Hb) as H.
  rewrite Nat.add_0_r in H. cbn [fmap option_fmap option_map] in H. by apply H.
Qed.

(** Every candidate is a part of the text. *)
Lemma scanBraces_occursIn (text chars : jsstring) i depth start :
  Forall (fun c => occursIn c text) (scanBraces text chars i depth start).
Proof.
  revert i depth start. induction chars as [|c r IH]; intros i depth start; [constructor|].
  cbn [scanBraces]. destruct (c =? 0x7B)%N; [apply IH|].
  destruct (c =? 0x7D)%N; [|apply IH]. destruct start as [st|]; [|apply IH].
  destruct (depth - 1 =? 0)%Z; [|apply IH]. constructor; [|apply IH].
  unfold substring. eapply occursIn_trans; [apply occursIn_take | apply occursIn_drop].
Qed.

(** *** Strategies 1 and 2: a call comes from a parsed property *)

Lemma orElse_Some_str (a b : option json) (n : jsstring) :
  orElse a b = Some (JStr n) -> a = Some (JStr n) \/ b = Some (JStr n).
Proof. unfold orElse. destruct a as [v|]; [destruct (truthy v)|]; tauto. Qed.

Lemma callOfParsed_inv (known : list jsstring) (parsed : json) (call : ToolCall) :
  callOfParsed known parsed = Some call ->
  tcName call ∈ known /\ tcName call ≠ []
  /\ exists key, getProp parsed key = Some (JStr (tcName call)).
Proof.
  unfold callOfParsed. destruct (toolNameOf parsed) as [[| | |n| |]|] eqn:E; try done.
  destruct (nonEmpty n) eqn:En; [|done]. cbn [andb].
  destruct (bool_decide (n ∈ known)) eqn:Ek; [|done]. apply bool_decide_eq_true in Ek.
  assert (Hkey : exists key, getProp parsed key = Some (JStr n)).
  { unfold toolNameOf in E. apply orElse_Some_str in E as [E|E]; [|eauto].
    apply orElse_Some_str in E as [E|E]; eauto. }
  assert (Hn : n ≠ []) by (by destruct n).
  intros H. assert (tcName call = n) as ->; [|done].
  destruct (argsOf parsed); try (by injection H as <-).
  destruct (parse s); [by injection H as <-|done].
Qed.

Lemma callOfParsed_object (known : list jsstring) (parsed : json) (call : ToolCall) :
  callOfParsed known parsed = Some call -> exists props, parsed = JObj props.
Proof.
  intros (_ & _ & key & H)%callOfParsed_inv. destruct parsed; try done. eauto.
Qed.

(** A call found by parsing names a tool whose name is written in the
    text, when the text has no backslash. *)
Lemma parsed_call_name_occurs (known : list jsstring) (text : jsstring) (call : ToolCall) :
  0x5C%N ∉ text ->
  parse text ≫= callOfParsed known = Some call ->
  tcName call ∈ known /\ includes text (tcName call) = true.
Proof.
  intros Hbs H. destruct (parse text) as [parsed|] eqn:Ep; [|done]. cbn in H.
  apply callOfParsed_inv in H as (Hk & _ & key & Hget). split; [done|].
  by eapply parse_string_prop.
Qed.

(** *** Strategy 3 *)

Lemma strategy3_first (before : list jsstring) (n : jsstring) (after : list jsstring)
  (cleaned : jsstring) :
  Forall (fun k => includes cleaned k = false) before ->
  includes cleaned n = true ->
  strategy3 (before ++ n :: after) cleaned = Some (callNear cleaned n).
Proof.
  intros Hb Hn. induction Hb as [|k before Hk Hb IH]; cbn [app strategy3].
  - by rewrite Hn.
  - by rewrite Hk.
Qed.

Lemma strategy3_none (known : list jsstring) (cleaned : jsstring) :
  Forall (fun k => includes cleaned k = false) known -> strategy3 known cleaned = None.
Proof. induction 1 as [|k known Hk Hb IH]; cbn [strategy3]; [done|]. by rewrite Hk. Qed.

Lemma fromFirst_suffix (c : N) (s : jsstring) : exists w, s = w ++ fromFirst c s.
Proof.
  induction s as [|x s [w IH]]; [by exists []|]. cbn [fromFirst].
  destruct (x =? c)%N; [by exists []|]. exists (x :: w). by rewrite IH at 1.
Qed.

Lemma fromFirst_head (c : N) (s : jsstring) x r : fromFirst c s = x :: r -> x = c.
Proof.
  induction s as [|y s IH]; [done|]. cbn [fromFirst].
  destruct (y =? c)%N eqn:E; [|done]. apply N.eqb_eq in E. by intros [= <- _].
Qed.

Lemma toLast_prefix (c : N) (s : jsstring) : exists w, s = toLast c s ++ w.
Proof.
  unfold toLast. destruct (fromFirst_suffix c (rev s)) as [w Hw].
  exists (rev w). rewrite <- rev_app_distr, <- Hw. by rewrite rev_involutive.
Qed.

(** The match of the greedy pattern is a part of the text and starts with
    an opening brace. *)
Lemma greedyBraces_inv (after m : jsstring) :
  greedyBraces after = Some m -> occursIn m after /\ exists r, m = 0x7B%N :: r.
Proof.
  unfold greedyBraces. destruct (fromFirst 0x7B after) as [|x r] eqn:E; [done|].
  pose proof (fromFirst_head _ _ _ _ E) as ->.
  destruct (toLast 0x7D r) as [|y body] eqn:E2; [done|]. intros [= <-].
  split; [|eauto]. destruct (fromFirst_suffix 0x7B after) as [w Hw]. rewrite E in Hw.
  destruct (toLast_prefix 0x7D r) as [w' Hw']. rewrite E2 in Hw'.
  exists w, w'. rewrite Hw at 1. f_equal. cbn [app]. f_equal. exact Hw'.
Qed.

End StrategyFacts.

Section ExtractorClaims.
Import Json OllamaClient.

Lemma firstCall_inv (known : list jsstring) (cands : list jsstring) (call : ToolCall) :
  firstCall known cands = Some call ->
  exists c, c ∈ cands /\ parse c ≫= callOfParsed known = Some call.
Proof.
  induction cands as [|c cands IH]; [done|]. cbn [firstCall].
  destruct (parse c ≫= callOfParsed known) as [call'|] eqn:E.
  - intros [= <-]. exists c. split; [left|done].
  - intros (c' & Hin & Hc')%IH. exists c'. split; [by right|done].
Qed.

Lemma includes_false_occursIn (cleaned content n : jsstring) :
  occursIn cleaned content -> includes content n = false -> includes cleaned n = false.
Proof.
  intros Hc Hn. destruct (includes cleaned n) eqn:E; [|done].
  apply includes_occursIn in E.
  assert (includes content n = true); [|congruence].
  apply includes_occursIn. by eapply occursIn_trans.
Qed.

(** Strategy 1 on a braced text in prose without braces: when it finds a
    call, the prose is empty. *)
Lemma strategy1_embedded (known : list jsstring) (body content : jsstring) (call : ToolCall) :
  embeds (0x7B%N :: body ++ [0x7D%N]) content ->
  strategy1 known (clean content) = Some call ->
  clean content = 0x7B%N :: body ++ [0x7D%N].
Proof.
  intros Hemb H. apply embeds_clean in Hemb as (a & b & Hc & Ha & Hb).
  unfold strategy1 in H. destruct (parse (clean content)) as [parsed|] eqn:Ep; [|done].
  destruct (isObject parsed); [|done].
  apply callOfParsed_object in H as [props ->].
  apply parse_object_braces in Ep as [(w & s' & Hw & Hws) (s'' & w' & Hw' & Hws')].
  assert (a = []) as ->.
  { destruct a as [|x a]; [done|]. exfalso. destruct w as [|y w].
    - rewrite Hc in Hw. injection Hw as -> _. apply (proj1 Ha). left.
    - apply Forall_cons in Hws as [Hy _]. apply isJsonWs_isWhiteSpace in Hy.
      unfold clean in Hw. apply trim_head in Hw. congruence. }
  assert (b = []) as ->.
  { destruct b as [|x b _] using rev_ind; [done|]. exfalso.
    destruct w' as [|y w' _] using rev_ind.
    - rewrite Hc in Hw'. rewrite !app_comm_cons, !app_assoc in Hw'.
      change (0x7D%N :: []) with [0x7D%N] in Hw'.
      apply app_inj_tail in Hw' as [_ ->]. apply (proj2 Hb). apply elem_of_app. right. left.
    - apply Forall_app in Hws' as [_ Hy]. apply Forall_cons in Hy as [Hy _].
      apply isJsonWs_isWhiteSpace in Hy. rewrite app_comm_cons, app_assoc in Hw'.
      unfold clean in Hw'. apply trim_last in Hw'. congruence. }
  by rewrite app_nil_r in Hc.
Qed.




(** C10. When strategies 1 and 2 find no call and a known name occurs in
    the text, the extractor returns the first name of the list that occurs
    in the text, wherever the names stand in the text; and when no part of
    the text from that name on parses as a JSON object, the arguments are
    the empty object. *)
Theorem strategy3_first_listed_name
  (content : jsstring) (before : list jsstring) (toolName : jsstring) (after : list jsstring) :
  content ≠ [] ->
  let knownToolNames := before ++ toolName :: after in
  let cleaned := clean content in
  strategy1 knownToolNames cleaned = None ->
  strategy2 knownToolNames cleaned = None ->
  Forall (fun k => includes cleaned k = false) before ->
  includes cleaned toolName = true ->
  exists args,
    parseToolCallFromContent content knownToolNames
    = Some {| tcName := toolName; tcArguments := args |}
    /\ ((forall part props, occursIn part (textFrom cleaned toolName) ->
           parse part ≠ Some (JObj props)) ->
        args = JObj []).
Proof.
  intros Hne known cleaned H1 H2 Hb Hn.
  exists (tcArguments (callNear cleaned toolName)).
  assert (Hname : tcName (callNear cleaned toolName) = toolName).
  { unfold callNear. destruct (greedyBraces _); [|done]. destruct (parse _); [|done].
    by destruct (_ || _). }
  split.
  - unfold parseToolCallFromContent. destruct content; [done|]. cbn [nonEmpty negb orb].
    assert (Hk : known ≠ []) by (unfold known; by destruct before).
    rewrite (bool_decide_eq_false_2 _ Hk).
    cbv zeta. fold cleaned. rewrite H1, H2. unfold known.
    rewrite strategy3_first by done. f_equal.
    destruct (callNear cleaned toolName) as [nm ar]. cbn [tcName tcArguments] in *.
    by subst.
  - intros Hnone. unfold callNear.
    destruct (greedyBraces (textFrom cleaned toolName)) as [m|] eqn:Eg; [|done].
    apply greedyBraces_inv in Eg as [Hocc [r ->]].
    destruct (parse (0x7B%N :: r)) as [v|] eqn:Ep; [|done].
    apply parse_brace_object in Ep as Hv. destruct Hv as [props ->].
    by apply Hnone in Ep.
Qed.

Lemma strategy3_first_listed_name_witness :
  exists args,
    parseToolCallFromContent Samples.mentionText [js "get_house"; js "get_room"]
    = Some {| tcName := js "get_house"; tcArguments := args |}
    /\ ((forall part props,
           occursIn part (textFrom (clean Samples.mentionText) (js "get_house")) ->
           parse part ≠ Some (JObj props)) ->
        args = JObj []).
Proof.
  apply (strategy3_first_listed_name Samples.mentionText [] (js "get_house") [js "get_room"]).
  - done.
  - by vm_compute.
  - by vm_compute.
  - constructor.
  - by vm_compute.
Defined.

(** In the reply of the witness the name that comes first in the text is
    the other one. *)
Lemma strategy3_not_first_in_text :
  indexOf Samples.mentionText (js "get_room") = Some 5
  /\ indexOf Samples.mentionText (js "get_house") = Some 19
  /\ parseToolCallFromContent Samples.mentionText [js "get_house"; js "get_room"]
     = Some {| tcName := js "get_house"; tcArguments := JObj [] |}.
Proof. by vm_compute. Qed.

End ExtractorClaims.

(* ===================================================================== *)
(** * The orchestrator *)
(* ===================================================================== *)

(** ** Runs: what a computation does to the world *)

Section RunFacts.

Lemma bind_run {A B} (m : M A) (k : A -> M B) (w : World) :
  (m ≫= k) w
  = match m w with
    | (inr a, w') => k a w'
    | (inl e, w') => (inl e, w')
    end.
Proof. done. Qed.

Lemma bind_ret {A B} (a : A) (k : A -> M B) (w : World) : (mret a ≫= k) w = k a w.
Proof. reflexivity. Qed.

Lemma bind_getTick {B} (k : nat -> M B) (w : World) : (getTick ≫= k) w = k (tick w) w.
Proof. reflexivity. Qed.

Lemma bind_emit {B} (ev : Event) (k : unit -> M B) (w : World) :
  (emit ev ≫= k) w
  = k tt {| tick := S (tick w); sessions := sessions w;
            conversationHistory := conversationHistory w; trace := trace w ++ [ev] |}.
Proof. reflexivity. Qed.

Lemma bind_now {B} (env : Env) (k : Z -> M B) (w : World) :
  (now env ≫= k) w
  = k (clock env (tick w))
      {| tick := S (tick w); sessions := sessions w;
         conversationHistory := conversationHistory w; trace := trace w |}.
Proof. reflexivity. Qed.

Lemma invocations_app (e1 e2 : list Event) :
  invocations (e1 ++ e2) = invocations e1 + invocations e2.
Proof. unfold invocations. by rewrite List.filter_app, length_app. Qed.

(** *** The history *)

Lemma keepsHistory_ret {A} (a : A) : keepsHistory (mret a).
Proof. done. Qed.

Lemma keepsHistory_throw {A} (e : Error) : keepsHistory (@throw A e).
Proof. done. Qed.

Lemma keepsHistory_bind {A B} (m : M A) (k : A -> M B) :
  keepsHistory m -> (forall a, keepsHistory (k a)) -> keepsHistory (m ≫= k).
Proof.
  intros Hm Hk w. rewrite bind_run. specialize (Hm w).
  destruct (m w) as [[e|a] w']; cbn [fst snd] in *; [done|]. by rewrite Hk.
Qed.

Lemma keepsHistory_tryCatch {A} (m : M A) (h : Error -> M A) :
  keepsHistory m -> (forall e, keepsHistory (h e)) -> keepsHistory (tryCatch m h).
Proof.
  intros Hm Hh w. unfold tryCatch. specialize (Hm w).
  destruct (m w) as [[e|a] w']; cbn [fst snd] in *; [|done]. by rewrite Hh.
Qed.

Lemma keepsHistory_emit (ev : Event) : keepsHistory (emit ev).
Proof. done. Qed.

Lemma keepsHistory_getTick : keepsHistory getTick.
Proof. done. Qed.

Lemma keepsHistory_getHistory : keepsHistory getHistory.
Proof. done. Qed.

Lemma keepsHistory_now (env : Env) : keepsHistory (now env).
Proof. done. Qed.

Lemma keepsHistory_onSessions {A} (f : SessionManager.Sessions -> A * SessionManager.Sessions) :
  keepsHistory (onSessions f).
Proof. intros w. unfold onSessions. by destruct (f (sessions w)). Qed.

(** *** The events *)

Lemma invokesAtMost_weaken {A} (n n' : nat) (m : M A) :
  n <= n' -> invokesAtMost n m -> invokesAtMost n' m.
Proof. intros Hn Hm w. destruct (Hm w) as (evs & ? & ?). exists evs. split; [done|lia]. Qed.

Lemma invokesAtMost_ret {A} (a : A) : invokesAtMost 0 (mret a).
Proof. intros w. exists []. by rewrite app_nil_r. Qed.

Lemma invokesAtMost_throw {A} (e : Error) : invokesAtMost 0 (@throw A e).
Proof. intros w. exists []. by rewrite app_nil_r. Qed.

Lemma invokesAtMost_bind {A B} (n1 n2 : nat) (m : M A) (k : A -> M B) :
  invokesAtMost n1 m -> (forall a, invokesAtMost n2 (k a)) ->
  invokesAtMost (n1 + n2) (m ≫= k).
Proof.
  intros Hm Hk w. rewrite bind_run. destruct (Hm w) as (e1 & H1 & Hn1).
  destruct (m w) as [[e|a] w']; cbn [fst snd] in *.
  - exists e1. split; [done|lia].
  - destruct (Hk a w') as (e2 & H2 & Hn2). exists (e1 ++ e2).
    rewrite H2, H1, app_assoc, invocations_app. split; [done|lia].
Qed.

Lemma invokesAtMost_tryCatch {A} (n1 n2 : nat) (m : M A) (h : Error -> M A) :
  invokesAtMost n1 m -> (forall e, invokesAtMost n2 (h e)) ->
  invokesAtMost (n1 + n2) (tryCatch m h).
Proof.
  intros Hm Hh w. unfold tryCatch. destruct (Hm w) as (e1 & H1 & Hn1).
  destruct (m w) as [[e|a] w']; cbn [fst snd] in *.
  - destruct (Hh e w') as (e2 & H2 & Hn2). exists (e1 ++ e2).
    rewrite H2, H1, app_assoc, invocations_app. split; [done|lia].
  - exists e1. split; [done|lia].
Qed.

Lemma invokesAtMost_emit (ev : Event) :
  invokesAtMost (if isInvoke ev then 1 else 0) (emit ev).
Proof. intros w. exists [ev]. split; [done|]. unfold invocations. cbn. by destruct (isInvoke ev). Qed.

Lemma invokesAtMost_getTick : invokesAtMost 0 getTick.
Proof. intros w. exists []. by rewrite app_nil_r. Qed.

Lemma invokesAtMost_getHistory : invokesAtMost 0 getHistory.
Proof. intros w. exists []. by rewrite app_nil_r. Qed.

Lemma invokesAtMost_pushHistory (t : Turn) : invokesAtMost 0 (pushHistory t).
Proof. intros w. exists []. by rewrite app_nil_r. Qed.

Lemma invokesAtMost_now (env : Env) : invokesAtMost 0 (now env).
Proof. intros w. exists []. by rewrite app_nil_r. Qed.

Lemma invokesAtMost_onSessions {A}
  (f : SessionManager.Sessions -> A * SessionManager.Sessions) :
  invokesAtMost 0 (onSessions f).
Proof.
  intros w. exists []. unfold onSessions. destruct (f (sessions w)). by rewrite app_nil_r.
Qed.

(** *** Exceptions *)

Lemma neverThrows_ret {A} (a : A) : neverThrows (mret a).
Proof. intros w. by exists a. Qed.

Lemma neverThrows_bind {A B} (m : M A) (k : A -> M B) :
  neverThrows m -> (forall a, neverThrows (k a)) -> neverThrows (m ≫= k).
Proof.
  intros Hm Hk w. rewrite bind_run. destruct (Hm w) as [a Ha].
  destruct (m w) as [[e|a'] w']; cbn [fst] in Ha; [done|]. apply Hk.
Qed.

Lemma neverThrows_tryCatch {A} (m : M A) (h : Error -> M A) :
  (forall e, neverThrows (h e)) -> neverThrows (tryCatch m h).
Proof.
  intros Hh w. unfold tryCatch. destruct (m w) as [[e|a] w']; [apply Hh|by exists a].
Qed.

Lemma neverThrows_now (env : Env) : neverThrows (now env).
Proof. intros w. by eexists. Qed.

Lemma neverThrows_pushHistory (t : Turn) : neverThrows (pushHistory t).
Proof. intros w. by eexists. Qed.

Lemma neverThrows_emit (ev : Event) : neverThrows (emit ev).
Proof. intros w. by eexists. Qed.

Lemma neverThrows_getTick : neverThrows getTick.
Proof. intros w. by eexists. Qed.

End RunFacts.

Create HintDb history.
Create HintDb events.
Create HintDb total.

#[local] Hint Resolve keepsHistory_ret keepsHistory_throw keepsHistory_emit
  keepsHistory_getTick keepsHistory_getHistory keepsHistory_now keepsHistory_onSessions
  : history.
#[local] Hint Resolve invokesAtMost_ret invokesAtMost_throw invokesAtMost_getTick
  invokesAtMost_getHistory invokesAtMost_pushHistory invokesAtMost_now
  invokesAtMost_onSessions : events.
#[local] Hint Resolve neverThrows_ret neverThrows_now neverThrows_pushHistory
  neverThrows_emit neverThrows_getTick : total.

(** Proves that a sequence of steps keeps the history, from the lemmas of
    its steps. *)
Ltac keeps :=
  repeat first
    [ apply keepsHistory_bind; [|intros ?]
    | apply keepsHistory_tryCatch; [|intros ?]
    | progress eauto with history
    | match goal with |- keepsHistory (match ?x with _ => _ end) => destruct x end ].

(** Proves a bound on the invocations of a sequence of steps that makes
    none. *)
Ltac silent :=
  repeat first
    [ apply (invokesAtMost_bind 0 0); [|intros ?]
    | apply (invokesAtMost_tryCatch 0 0); [|intros ?]
    | apply (invokesAtMost_emit (EvChat _))
    | apply (invokesAtMost_emit EvListTools)
    | progress eauto with events
    | match goal with |- invokesAtMost 0 (match ?x with _ => _ end) => destruct x end ].

(** ** The parts of the orchestrator *)

Section AgentFacts.
Import OllamaChat Agent.
Context (U : Unicode) (env : Env).

Lemma keepsHistory_getSessionContext sessionId :
  keepsHistory (getSessionContext env sessionId).
Proof. unfold getSessionContext. keeps. Qed.

Lemma invokesAtMost_getSessionContext sessionId :
  invokesAtMost 0 (getSessionContext env sessionId).
Proof. unfold getSessionContext. silent. Qed.

Lemma neverThrows_getSessionContext sessionId :
  neverThrows (getSessionContext env sessionId).
Proof.
  unfold getSessionContext. repeat (apply neverThrows_bind; [auto with total|intros ?]).
  intros w. unfold onSessions. destruct (SessionManager.getSessionContext _ _ _ _). by eexists.
Qed.

Lemma keepsHistory_callOllamaWithTools messages tools temperature :
  keepsHistory (callOllamaWithTools env messages tools temperature).
Proof. unfold callOllamaWithTools. keeps. Qed.

Lemma invokesAtMost_callOllamaWithTools messages tools temperature :
  invokesAtMost 0 (callOllamaWithTools env messages tools temperature).
Proof. unfold callOllamaWithTools. silent. Qed.

Lemma keepsHistory_getAvailableTools : keepsHistory (ToolExecutor.getAvailableTools env).
Proof. unfold ToolExecutor.getAvailableTools. keeps. Qed.

Lemma invokesAtMost_getAvailableTools :
  invokesAtMost 0 (ToolExecutor.getAvailableTools env).
Proof. unfold ToolExecutor.getAvailableTools. silent. Qed.

Lemma keepsHistory_executeMcpTool toolName args ctx :
  keepsHistory (ToolExecutor.executeMcpTool env toolName args ctx).
Proof. unfold ToolExecutor.executeMcpTool. keeps. Qed.

Lemma invokesAtMost_executeMcpTool toolName args ctx :
  invokesAtMost 1 (ToolExecutor.executeMcpTool env toolName args ctx).
Proof.
  unfold ToolExecutor.executeMcpTool.
  apply (invokesAtMost_bind 0 1); [auto with events|intros t].
  apply (invokesAtMost_bind 1 0); [apply (invokesAtMost_emit (EvInvoke _ _ _))|intros ?].
  auto with events.
Qed.

Lemma neverThrows_executeMcpTool toolName args ctx :
  neverThrows (ToolExecutor.executeMcpTool env toolName args ctx).
Proof.
  unfold ToolExecutor.executeMcpTool.
  repeat (apply neverThrows_bind; [auto with total|intros ?]). auto with total.
Qed.

Lemma keepsHistory_contentOf message : keepsHistory (contentOf message).
Proof. unfold contentOf. keeps. Qed.

Lemma invokesAtMost_contentOf message : invokesAtMost 0 (contentOf message).
Proof. unfold contentOf. silent. Qed.

Lemma keepsHistory_toolArgsOf arguments : keepsHistory (toolArgsOf arguments).
Proof. unfold toolArgsOf. keeps. Qed.

Lemma invokesAtMost_toolArgsOf arguments : invokesAtMost 0 (toolArgsOf arguments).
Proof. unfold toolArgsOf. silent. Qed.

Lemma keepsHistory_runToolCall ctx toolCall k :
  keepsHistory (runToolCall env ctx toolCall k).
Proof.
  unfold runToolCall. apply keepsHistory_tryCatch; [|intros ?; auto with history].
  apply keepsHistory_bind; [apply keepsHistory_toolArgsOf|intros ?].
  apply keepsHistory_bind; [apply keepsHistory_executeMcpTool|intros ?]. auto with history.
Qed.

Lemma invokesAtMost_runToolCall ctx toolCall k :
  invokesAtMost 1 (runToolCall env ctx toolCall k).
Proof.
  unfold runToolCall. apply (invokesAtMost_tryCatch 1 0); [|intros ?; auto with events].
  apply (invokesAtMost_bind 0 1); [apply invokesAtMost_toolArgsOf|intros ?].
  apply (invokesAtMost_bind 1 0); [apply invokesAtMost_executeMcpTool|intros ?].
  auto with events.
Qed.

Lemma neverThrows_runToolCall ctx toolCall k :
  neverThrows (runToolCall env ctx toolCall k).
Proof. unfold runToolCall. apply neverThrows_tryCatch. intros e. auto with total. Qed.

(** The entry a call leaves in [toolResults] bears its name, or
    ["unknown"] for a call without name that threw. *)
Lemma runToolCall_name ctx toolCall k w r w' :
  runToolCall env ctx toolCall k w = (inr r, w') -> answers r toolCall.
Proof.
  unfold answers.
  unfold runToolCall, tryCatch. rewrite bind_run.
  destruct (toolArgsOf (fnArguments toolCall) w) as [[e|a] w1].
  - intros [= <- _]. cbn [trName trError]. destruct (fnName toolCall); [right|left]; eauto.
  - rewrite bind_run. destruct (ToolExecutor.executeMcpTool env _ _ _ w1) as [[e|res] w2].
    + intros [= <- _]. cbn [trName trError]. destruct (fnName toolCall); [right|left]; eauto.
    + intros [= <- _]. by left.
Qed.

End AgentFacts.

Section FailureFacts.

Lemma failsKeepingHistory_keeps {A} (m : M A) : keepsHistory m -> failsKeepingHistory m.
Proof. intros H w e w' E. specialize (H w). by rewrite E in H. Qed.

Lemma failsKeepingHistory_total {A} (m : M A) : neverThrows m -> failsKeepingHistory m.
Proof. intros H w e w' E. destruct (H w) as [a Ha]. by rewrite E in Ha. Qed.

Lemma failsKeepingHistory_bind {A B} (m : M A) (k : A -> M B) :
  keepsHistory m -> (forall a, failsKeepingHistory (k a)) -> failsKeepingHistory (m ≫= k).
Proof.
  intros Hm Hk w e w'. rewrite bind_run. specialize (Hm w).
  destruct (m w) as [[e1|a] w1]; cbn [snd] in Hm.
  - intros [= _ <-]. done.
  - intros E. rewrite <- Hm. by eapply Hk.
Qed.

End FailureFacts.

Section LoopFacts.
Import OllamaChat Agent.
Context (U : Unicode) (env : Env).

(** The loop of stage 5 ignores the calls beyond the room the cap leaves. *)
Lemma executeTools_take cap ctx toolCalls k results w :
  executeTools env cap ctx (take (Z.to_nat cap - k) toolCalls) k results w
  = executeTools env cap ctx toolCalls k results w.
Proof.
  revert k results w. induction toolCalls as [|tc rest IH]; intros k results w.
  - by rewrite take_nil.
  - destruct (Z.leb_spec cap (Z.of_nat k)) as [Hle|Hgt].
    + replace (Z.to_nat cap - k) with 0 by lia. cbn [take executeTools].
      by rewrite (proj2 (Z.leb_le cap (Z.of_nat k)) Hle).
    + replace (Z.to_nat cap - k) with (S (Z.to_nat cap - S k)) by lia.
      cbn [take executeTools].
      rewrite (proj2 (Z.leb_gt cap (Z.of_nat k))) by lia. rewrite !bind_run.
      destruct (runToolCall env ctx tc k w) as [[e|r] w1]; [done|]. apply IH.
Qed.

(** The loop returns, having added one entry for each of the calls the cap
    leaves room for, in their order. *)
Lemma executeTools_results cap ctx toolCalls k results w :
  exists added w',
    executeTools env cap ctx toolCalls k results w = (inr (results ++ added), w')
    /\ length added = min (length toolCalls) (Z.to_nat cap - k)
    /\ Forall2 answers added (take (Z.to_nat cap - k) toolCalls).
Proof.
  revert k results w. induction toolCalls as [|tc rest IH]; intros k results w.
  - exists [], w. rewrite app_nil_r, take_nil. split; [done|split; [done|constructor]].
  - cbn [executeTools]. destruct (Z.leb_spec cap (Z.of_nat k)) as [Hle|Hgt].
    + exists [], w. rewrite app_nil_r. replace (Z.to_nat cap - k) with 0 by lia.
      split; [done|split; [cbn; lia|constructor]].
    + rewrite bind_run.
      destruct (neverThrows_runToolCall env ctx tc k w) as [r Hr].
      destruct (runToolCall env ctx tc k w) as [x w1] eqn:E. cbn [fst] in Hr. subst x.
      destruct (IH (S k) (results ++ [r]) w1) as (added & w' & Hrun & Hlen & Hall).
      exists (r :: added), w'. rewrite Hrun, <- app_assoc. split; [done|].
      replace (Z.to_nat cap - k) with (S (Z.to_nat cap - S k)) by lia.
      cbn [length take]. split; [lia|].
      constructor; [|done]. by eapply runToolCall_name.
Qed.

Lemma keepsHistory_executeTools cap ctx toolCalls k results :
  keepsHistory (executeTools env cap ctx toolCalls k results).
Proof.
  revert k results. induction toolCalls as [|tc rest IH]; intros k results;
    cbn [executeTools]; [auto with history|].
  destruct (cap <=? Z.of_nat k)%Z; [auto with history|].
  apply keepsHistory_bind; [apply keepsHistory_runToolCall|intros r; apply IH].
Qed.

Lemma invokesAtMost_executeTools cap ctx toolCalls k results :
  invokesAtMost (Z.to_nat cap - k) (executeTools env cap ctx toolCalls k results).
Proof.
  revert k results. induction toolCalls as [|tc rest IH]; intros k results;
    cbn [executeTools].
  - eapply invokesAtMost_weaken; [|apply invokesAtMost_ret]. lia.
  - destruct (Z.leb_spec cap (Z.of_nat k)) as [Hle|Hgt].
    + eapply invokesAtMost_weaken; [|apply invokesAtMost_ret]. lia.
    + replace (Z.to_nat cap - k) with (1 + (Z.to_nat cap - S k)) by lia.
      apply invokesAtMost_bind; [apply invokesAtMost_runToolCall|intros r; apply IH].
Qed.

Lemma keepsHistory_decide agent userMessage : keepsHistory (decide U env agent userMessage).
Proof.
  unfold decide.
  apply keepsHistory_bind; [apply keepsHistory_getAvailableTools|intros allTools].
  apply keepsHistory_bind; [auto with history|intros history].
  apply keepsHistory_bind; [apply keepsHistory_callOllamaWithTools|intros llm].
  destruct llm.2; [|auto with history].
  destruct (ToolFilter.filterRelevantTools _ _ _ _); [auto with history|].
  apply keepsHistory_bind; [apply keepsHistory_callOllamaWithTools|intros retry].
  destruct retry.2; auto with history.
Qed.

Lemma invokesAtMost_decide agent userMessage :
  invokesAtMost 0 (decide U env agent userMessage).
Proof.
  unfold decide.
  apply (invokesAtMost_bind 0 0); [apply invokesAtMost_getAvailableTools|intros allTools].
  apply (invokesAtMost_bind 0 0); [auto with events|intros history].
  apply (invokesAtMost_bind 0 0); [apply invokesAtMost_callOllamaWithTools|intros llm].
  destruct llm.2; [|auto with events].
  destruct (ToolFilter.filterRelevantTools _ _ _ _); [auto with events|].
  apply (invokesAtMost_bind 0 0); [apply invokesAtMost_callOllamaWithTools|intros retry].
  destruct retry.2; auto with events.
Qed.

Lemma keepsHistory_summarize userMessage vi message results :
  keepsHistory (summarize env userMessage vi message results).
Proof.
  unfold summarize. destruct results.
  - apply keepsHistory_bind; [apply keepsHistory_contentOf|intros ?]. auto with history.
  - apply keepsHistory_bind; [apply keepsHistory_callOllamaWithTools|intros ?].
    apply keepsHistory_bind; [apply keepsHistory_contentOf|intros ?]. auto with history.
Qed.

Lemma invokesAtMost_summarize userMessage vi message results :
  invokesAtMost 0 (summarize env userMessage vi message results).
Proof.
  unfold summarize. destruct results.
  - apply (invokesAtMost_bind 0 0); [apply invokesAtMost_contentOf|intros ?].
    auto with events.
  - apply (invokesAtMost_bind 0 0); [apply invokesAtMost_callOllamaWithTools|intros ?].
    apply (invokesAtMost_bind 0 0); [apply invokesAtMost_contentOf|intros ?].
    auto with events.
Qed.

Lemma keepsHistory_answer agent userMessage ctx :
  keepsHistory (answer U env agent userMessage ctx).
Proof.
  unfold answer.
  apply keepsHistory_bind; [apply keepsHistory_decide|intros decision].
  apply keepsHistory_bind; [apply keepsHistory_executeTools|intros results].
  apply keepsHistory_bind; [apply keepsHistory_summarize|intros text]. auto with history.
Qed.

Lemma invokesAtMost_answer agent userMessage ctx :
  invokesAtMost (Z.to_nat (maxToolCalls agent)) (answer U env agent userMessage ctx).
Proof.
  unfold answer.
  apply (invokesAtMost_bind 0 (Z.to_nat (maxToolCalls agent)));
    [apply invokesAtMost_decide|].
  intros decision.
  replace (Z.to_nat (maxToolCalls agent))
    with ((Z.to_nat (maxToolCalls agent) - 0) + 0) at 1 by lia.
  apply invokesAtMost_bind; [apply invokesAtMost_executeTools|intros results].
  apply (invokesAtMost_bind 0 0); [apply invokesAtMost_summarize|intros text].
  auto with events.
Qed.

Lemma invokesAtMost_addHistory r text sessionId userId called :
  invokesAtMost 0 (addHistory env r text sessionId userId called).
Proof.
  unfold addHistory. apply (invokesAtMost_bind 0 0); [auto with events|intros ?].
  auto with events.
Qed.

Lemma neverThrows_addHistory r text sessionId userId called :
  neverThrows (addHistory env r text sessionId userId called).
Proof.
  unfold addHistory. apply neverThrows_bind; [auto with total|intros ?]. auto with total.
Qed.

Lemma invokesAtMost_buildResponse ok text called results userId sessionId authenticated :
  invokesAtMost 0 (buildResponse env ok text called results userId sessionId authenticated).
Proof.
  unfold buildResponse. apply (invokesAtMost_bind 0 0); [auto with events|intros ?].
  auto with events.
Qed.

Lemma keepsHistory_buildResponse ok text called results userId sessionId authenticated :
  keepsHistory (buildResponse env ok text called results userId sessionId authenticated).
Proof.
  unfold buildResponse. apply keepsHistory_bind; [auto with history|intros ?].
  auto with history.
Qed.

Lemma neverThrows_buildResponse ok text called results userId sessionId authenticated :
  neverThrows (buildResponse env ok text called results userId sessionId authenticated).
Proof.
  unfold buildResponse. apply neverThrows_bind; [auto with total|intros ?].
  auto with total.
Qed.

Lemma invokesAtMost_record userMessage userId sessionId ctx final :
  invokesAtMost 0 (record env userMessage userId sessionId ctx final).
Proof.
  unfold record.
  apply (invokesAtMost_bind 0 0); [apply invokesAtMost_addHistory|intros ?].
  apply (invokesAtMost_bind 0 0); [apply invokesAtMost_addHistory|intros ?].
  apply invokesAtMost_buildResponse.
Qed.

Lemma neverThrows_record userMessage userId sessionId ctx final :
  neverThrows (record env userMessage userId sessionId ctx final).
Proof.
  unfold record.
  apply neverThrows_bind; [apply neverThrows_addHistory|intros ?].
  apply neverThrows_bind; [apply neverThrows_addHistory|intros ?].
  apply neverThrows_buildResponse.
Qed.

Lemma invokesAtMost_converse userMessage userId sessionId ctx :
  invokesAtMost 0 (converse env userMessage userId sessionId ctx).
Proof.
  unfold converse.
  apply (invokesAtMost_bind 0 0); [apply invokesAtMost_callOllamaWithTools|intros ?].
  apply (invokesAtMost_bind 0 0); [apply invokesAtMost_contentOf|intros ?].
  apply (invokesAtMost_bind 0 0); [apply invokesAtMost_addHistory|intros ?].
  apply (invokesAtMost_bind 0 0); [apply invokesAtMost_addHistory|intros ?].
  apply invokesAtMost_buildResponse.
Qed.

Lemma failsKeepingHistory_converse userMessage userId sessionId ctx :
  failsKeepingHistory (converse env userMessage userId sessionId ctx).
Proof.
  unfold converse.
  apply failsKeepingHistory_bind; [apply keepsHistory_callOllamaWithTools|intros ?].
  apply failsKeepingHistory_bind; [apply keepsHistory_contentOf|intros ?].
  apply failsKeepingHistory_total.
  apply neverThrows_bind; [apply neverThrows_addHistory|intros ?].
  apply neverThrows_bind; [apply neverThrows_addHistory|intros ?].
  apply neverThrows_buildResponse.
Qed.

Lemma invokesAtMost_processMessageBody agent userMessage userId sessionId :
  invokesAtMost (Z.to_nat (maxToolCalls agent))
    (processMessageBody U env agent userMessage userId sessionId).
Proof.
  unfold processMessageBody.
  apply (invokesAtMost_bind 0 (Z.to_nat (maxToolCalls agent)));
    [apply invokesAtMost_getSessionContext|intros ctx].
  destruct (isConversationalMessage U userMessage).
  - eapply invokesAtMost_weaken; [|apply invokesAtMost_converse]. lia.
  - replace (Z.to_nat (maxToolCalls agent))
      with (Z.to_nat (maxToolCalls agent) + 0) by lia.
    apply invokesAtMost_bind; [apply invokesAtMost_answer|intros final].
    apply invokesAtMost_record.
Qed.

Lemma failsKeepingHistory_processMessageBody agent userMessage userId sessionId :
  failsKeepingHistory (processMessageBody U env agent userMessage userId sessionId).
Proof.
  unfold processMessageBody.
  apply failsKeepingHistory_bind; [apply keepsHistory_getSessionContext|intros ctx].
  destruct (isConversationalMessage U userMessage).
  - apply failsKeepingHistory_converse.
  - apply failsKeepingHistory_bind; [apply keepsHistory_answer|intros final].
    apply failsKeepingHistory_total, neverThrows_record.
Qed.

Lemma neverThrows_processMessage agent userMessage userId sessionId :
  neverThrows (processMessage U env agent userMessage userId sessionId).
Proof.
  unfold processMessage. apply neverThrows_tryCatch. intros e.
  apply neverThrows_buildResponse.
Qed.

End LoopFacts.

#[local] Arguments js : simpl never.
#[local] Arguments OllamaClient.parseToolCallFromContent : simpl never.

Section ResponseFacts.
Import OllamaChat Agent.
Context (U : Unicode) (env : Env).

Lemma getSessionContext_run sessionId w :
  exists ctx w',
    getSessionContext env sessionId w = (inr ctx, w')
    /\ tick w' = S (S (tick w)) /\ trace w' = trace w
    /\ conversationHistory w' = conversationHistory w.
Proof.
  unfold getSessionContext, now, onSessions. rewrite !bind_run.
  cbn [tick sessions conversationHistory trace fst snd].
  destruct (SessionManager.getSessionContext _ _ _ _) as [ctx s']. by eexists _, _.
Qed.

Lemma buildResponse_run ok text called results userId sessionId authenticated w :
  exists resp w',
    buildResponse env ok text called results userId sessionId authenticated w
    = (inr resp, w')
    /\ success resp = ok /\ response resp = text /\ toolsCalled resp = called
    /\ toolResults resp = results /\ trace w' = trace w
    /\ conversationHistory w' = conversationHistory w.
Proof. unfold buildResponse, now. by eexists _, _. Qed.

Lemma bind_addHistory {B} r text sessionId userId called (k : unit -> M B) w :
  (addHistory env r text sessionId userId called ≫= k) w
  = k tt {| tick := S (tick w); sessions := sessions w;
            conversationHistory :=
              conversationHistory w
              ++ [ {| turnRole := r; turnContent := text;
                      turnUserId := orString userId None;
                      turnToolsCalled := match called with [] => None | _ => Some called end;
                      turnSessionId := SessionManager.sidOf sessionId;
                      turnTimestamp := clock env (tick w) |} ];
            trace := trace w |}.
Proof. reflexivity. Qed.

Lemma buildResponse_eq ok text called results userId sessionId authenticated w :
  buildResponse env ok text called results userId sessionId authenticated w
  = (inr {| success := ok; response := text; toolsCalled := called;
            toolResults := results; respUserId := userId;
            respSessionId := SessionManager.sidOf sessionId;
            respIsAuthenticated := authenticated;
            respTimestamp := clock env (tick w) |},
     {| tick := S (tick w); sessions := sessions w;
        conversationHistory := conversationHistory w; trace := trace w |}).
Proof. reflexivity. Qed.

(** Stage 7: two turns are appended and the response lists the names of the
    entries of [toolResults]. *)
Lemma record_run userMessage userId sessionId ctx final w :
  exists resp w' t1 t2,
    record env userMessage userId sessionId ctx final w = (inr resp, w')
    /\ success resp = true /\ response resp = final.1
    /\ toolsCalled resp = trName <$> final.2 /\ toolResults resp = final.2
    /\ trace w' = trace w
    /\ conversationHistory w' = conversationHistory w ++ [t1; t2]
    /\ (turnRole t1, turnContent t1) = (user, userMessage)
    /\ (turnRole t2, turnContent t2) = (assistant, final.1).
Proof.
  unfold record, addHistory, buildResponse, now, pushHistory.
  do 4 eexists. split; [reflexivity|]. cbn. rewrite <- app_assoc. done.
Qed.

(** Without tool names nothing is read as a call. *)
Lemma parseToolCallFromContent_no_names content :
  OllamaClient.parseToolCallFromContent content [] = None.
Proof. unfold OllamaClient.parseToolCallFromContent. by rewrite orb_true_r. Qed.

(** One request to the model without tools: the messages go out as they
    are, and the message of the reply comes back as it is. *)
Lemma callOllamaWithTools_plain_run messages temperature w :
  let req := {| reqMessages := messages; reqTemperature := temperature |} in
  exists w',
    trace w' = trace w ++ [EvChat req]
    /\ conversationHistory w' = conversationHistory w
    /\ callOllamaWithTools env messages [] temperature w
       = (match ollamaChat env (tick w) req with
          | inl e => inl {| message := js "LLM Error: " ++ httpMessage e |}
          | inr None => inr (None, [])
          | inr (Some m) => inr (Some m, nativeCalls m)
          end, w').
Proof.
  intros req. unfold callOllamaWithTools, tryCatch.
  rewrite bind_ret, bind_getTick, bind_emit. fold req. cbn [fmap list_fmap].
  destruct (ollamaChat env (tick w) req) as [e|[m|]].
  - eexists. (split; [|split; [|reflexivity]]); reflexivity.
  - rewrite parseToolCallFromContent_no_names.
    eexists. (split; [|split; [|reflexivity]]); reflexivity.
  - eexists. (split; [|split; [|reflexivity]]); reflexivity.
Qed.

(** Stage 1: one request, with the friendly prompt and no tool; the reply of
    the model, or the greeting in its place, is the answer. *)
Lemma converse_run userMessage userId sessionId ctx w :
  let req := {| reqMessages := [ {| role := system; content := friendlyPrompt |};
                                 {| role := user; content := userMessage |} ];
                reqTemperature := js "0.5" |} in
  exists w',
    trace w' = trace w ++ [EvChat req]
    /\ match ollamaChat env (tick w) req with
       | inl e =>
           converse env userMessage userId sessionId ctx w
           = (inl {| message := js "LLM Error: " ++ httpMessage e |}, w')
       | inr None =>
           converse env userMessage userId sessionId ctx w = (inl undefinedContent, w')
       | inr (Some m) =>
           exists resp t1 t2,
             converse env userMessage userId sessionId ctx w = (inr resp, w')
             /\ success resp = true
             /\ response resp = (if nonEmpty (msgContent m) then msgContent m else greeting)
             /\ toolsCalled resp = [] /\ toolResults resp = []
             /\ conversationHistory w' = conversationHistory w ++ [t1; t2]
             /\ (turnRole t1, turnContent t1) = (user, userMessage)
             /\ (turnRole t2, turnContent t2) = (assistant, response resp)
       end.
Proof.
  intros req. subst req. unfold converse.
  destruct (callOllamaWithTools_plain_run
              [ {| role := system; content := friendlyPrompt |};
                {| role := user; content := userMessage |} ] (js "0.5") w)
    as (w1 & Htr & Hh & Hrun).
  rewrite bind_run, Hrun. clear Hrun.
  destruct (ollamaChat env (tick w) _) as [e|[m|]].
  - by exists w1.
  - unfold contentOf. cbn [fst]. rewrite bind_ret, !bind_addHistory, buildResponse_eq.
    eexists. split; [|do 3 eexists; split; [reflexivity|]].
    + cbn [trace]. exact Htr.
    + cbn [success response toolsCalled toolResults conversationHistory msgContent
           turnRole turnContent].
      rewrite Hh, <- app_assoc. split_and!; reflexivity.
  - by exists w1.
Qed.

End ResponseFacts.

Section OrchestratorFacts.
Import OllamaChat Agent.
Context (U : Unicode) (env : Env).

(** A pass that returns from the body of the [try] has appended the two
    turns of the exchange, and reports success. *)
Lemma processMessageBody_returns agent userMessage userId sessionId w resp w' :
  processMessageBody U env agent userMessage userId sessionId w = (inr resp, w') ->
  success resp = true
  /\ exists t1 t2,
       conversationHistory w' = conversationHistory w ++ [t1; t2]
       /\ (turnRole t1, turnContent t1) = (user, userMessage)
       /\ (turnRole t2, turnContent t2) = (assistant, response resp).
Proof.
  unfold processMessageBody. rewrite bind_run.
  destruct (getSessionContext_run env sessionId w) as (ctx & w1 & -> & _ & _ & Hh).
  destruct (isConversationalMessage U userMessage).
  - destruct (converse_run env userMessage userId sessionId ctx w1) as (w2 & _ & Hrun).
    destruct (ollamaChat env (tick w1) _) as [e|[m|]]; [by rewrite Hrun| |by rewrite Hrun].
    destruct Hrun as (r & t1 & t2 & -> & Hok & _ & _ & _ & Hh2 & Ht1 & Ht2).
    intros [= <- <-]. split; [done|]. exists t1, t2. by rewrite Hh2, Hh.
  - rewrite bind_run. pose proof (keepsHistory_answer U env agent userMessage ctx w1) as Hk.
    destruct (answer U env agent userMessage ctx w1) as [[e|final] w2]; [done|].
    cbn [snd] in Hk.
    destruct (record_run env userMessage userId sessionId ctx final w2)
      as (r & w3 & t1 & t2 & -> & Hok & Htext & _ & _ & _ & Hh3 & Ht1 & Ht2).
    intros [= <- <-]. split; [done|]. exists t1, t2. by rewrite Hh3, Hk, Hh, Htext.
Qed.

End OrchestratorFacts.

Section OrchestratorClaims.
Import OllamaChat Agent.
Context (U : Unicode) (env : Env).


(** C3 as the orchestrator has it. [processMessage] returns a response
    from every state and for every message. When the body of its [try]
    throws, the response has [success] false, no tool listed, and the text
    ["Error: "] followed by the message of the exception. A response with
    [success] false comes from such an exception and leaves the history as
    it was; a response with [success] true has appended the turn of the user
    and the turn of the assistant. *)
Theorem processMessage_catches agent userMessage userId sessionId w :
  exists resp w',
    processMessage U env agent userMessage userId sessionId w = (inr resp, w')
    /\ (forall e w1,
          processMessageBody U env agent userMessage userId sessionId w = (inl e, w1) ->
          success resp = false /\ response resp = js "Error: " ++ message e
          /\ toolsCalled resp = [] /\ toolResults resp = [])
    /\ (success resp = false ->
          conversationHistory w' = conversationHistory w
          /\ exists e w1,
               processMessageBody U env agent userMessage userId sessionId w
               = (inl e, w1))
    /\ (success resp = true ->
          exists t1 t2,
            conversationHistory w' = conversationHistory w ++ [t1; t2]
            /\ (turnRole t1, turnContent t1) = (user, userMessage)
            /\ (turnRole t2, turnContent t2) = (assistant, response resp)).
Proof.
  unfold processMessage, tryCatch.
  pose proof (failsKeepingHistory_processMessageBody U env agent userMessage userId
                sessionId w) as Hfail.
  pose proof (processMessageBody_returns U env agent userMessage userId sessionId w)
    as Hret.
  destruct (processMessageBody U env agent userMessage userId sessionId w)
    as [[e|r] w1].
  - rewrite buildResponse_eq. eexists _, _. split; [reflexivity|].
    cbn [success response toolsCalled toolResults conversationHistory].
    split_and!.
    + by intros e' w1' [= <- <-].
    + intros _. split; [by eapply Hfail|by eexists _, _].
    + done.
  - exists r, w1. destruct (Hret r w1 eq_refl) as [Hok Hturns]. split_and!.
    + done.
    + done.
    + by rewrite Hok.
    + done.
Qed.

(** C9. A conversational message makes [processMessage] send out one
    thing only: a request to the model whose messages are the friendly
    prompt and the message, with no tool prompt. The catalog is not fetched
    and no tool is invoked, whatever the model answers; [toolsCalled] and
    [toolResults] are empty, and when the model answers, the response is its
    text (the greeting when it has none). *)
Theorem conversational_skips_tools agent userMessage userId sessionId w :
  isConversationalMessage U userMessage = true ->
  let req := {| reqMessages := [ {| role := system; content := friendlyPrompt |};
                                 {| role := user; content := userMessage |} ];
                reqTemperature := js "0.5" |} in
  exists resp w',
    processMessage U env agent userMessage userId sessionId w = (inr resp, w')
    /\ trace w' = trace w ++ [EvChat req]
    /\ toolsCalled resp = [] /\ toolResults resp = []
    /\ forall m,
         ollamaChat env (S (S (tick w))) req = inr (Some m) ->
         success resp = true
         /\ response resp = (if nonEmpty (msgContent m) then msgContent m else greeting).
Proof.
  intros Hconv req. unfold processMessage, tryCatch, processMessageBody.
  rewrite bind_run.
  destruct (getSessionContext_run env sessionId w) as (ctx & w1 & -> & Htick & Htr & _).
  rewrite Hconv.
  destruct (converse_run env userMessage userId sessionId ctx w1) as (w2 & Htr2 & Hrun).
  rewrite Htick, Htr in *. fold req in Hrun, Htr2.
  destruct (ollamaChat env (S (S (tick w))) req) as [e|[m|]].
  - rewrite Hrun, buildResponse_eq. eexists _, _. split; [reflexivity|]. by cbn.
  - destruct Hrun as (r & t1 & t2 & -> & Hok & Htext & Hcalled & Hresults & _).
    exists r, w2. split_and!; try done. by intros m' [= <-].
  - rewrite Hrun, buildResponse_eq. eexists _, _. split; [reflexivity|]. by cbn.
Qed.

End OrchestratorClaims.

(** ** The earlier orchestrator *)

Section LegacyFacts.
Context (env : Env) (toolContextOf : list Tool -> jsstring)
  (parseToolCalls : jsstring -> list LegacyAgent.Call).

Lemma bind_pushHistory {B} (t : Turn) (k : unit -> M B) (w : World) :
  (pushHistory t ≫= k) w
  = k tt {| tick := tick w; sessions := sessions w;
            conversationHistory := conversationHistory w ++ [t]; trace := trace w |}.
Proof. reflexivity. Qed.

Lemma returns_keepingHistory {A} (m : M A) (w : World) :
  neverThrows m -> keepsHistory m ->
  exists a w', m w = (inr a, w') /\ conversationHistory w' = conversationHistory w.
Proof.
  intros Ht Hk. destruct (Ht w) as [a Ha]. specialize (Hk w).
  destruct (m w) as [x w']. cbn [fst snd] in *. subst x. by exists a, w'.
Qed.

Lemma neverThrows_getAvailableTools : neverThrows (ToolExecutor.getAvailableTools env).
Proof.
  unfold ToolExecutor.getAvailableTools.
  repeat (apply neverThrows_bind; [auto with total|intros ?]). auto with total.
Qed.

Lemma keepsHistory_callOllama prompt : keepsHistory (LegacyAgent.callOllama env prompt).
Proof.
  unfold LegacyAgent.callOllama.
  apply keepsHistory_bind; [auto with history|intros t].
  apply keepsHistory_bind; [auto with history|intros _].
  destruct (ollamaGenerate env t prompt); auto with history.
Qed.

Lemma legacy_runToolCall_counts ctx toolCall w :
  exists entry w',
    LegacyAgent.runToolCall env ctx toolCall w = (inr (entry, true), w')
    /\ conversationHistory w' = conversationHistory w.
Proof.
  unfold LegacyAgent.runToolCall, tryCatch. rewrite bind_run.
  destruct (returns_keepingHistory
              (ToolExecutor.executeMcpTool env (LegacyAgent.callName toolCall)
                 (LegacyAgent.callArgs toolCall) ctx) w
              (neverThrows_executeMcpTool env _ _ _) (keepsHistory_executeMcpTool env _ _ _))
    as (res & w' & -> & Hh).
  by eexists _, _.
Qed.

(** The room the cap leaves after [k] counted calls; without a cap, room
    for all. *)
Lemma legacy_executeTools_results cap ctx toolCalls k results w :
  exists added w',
    LegacyAgent.executeTools env cap ctx toolCalls k results w
    = (inr (results ++ added), w')
    /\ length added = match cap with
                      | Some c => min (length toolCalls) (Z.to_nat c - k)
                      | None => length toolCalls
                      end
    /\ conversationHistory w' = conversationHistory w.
Proof.
  revert k results w. induction toolCalls as [|tc rest IH]; intros k results w.
  - exists [], w. rewrite app_nil_r. by destruct cap.
  - cbn [LegacyAgent.executeTools].
    destruct (match cap with Some c => (c <=? Z.of_nat k)%Z | None => false end) eqn:Hcap.
    + exists [], w. rewrite app_nil_r. destruct cap as [c|]; [|done].
      apply Z.leb_le in Hcap. replace (Z.to_nat c - k) with 0 by lia.
      by rewrite Nat.min_0_r.
    + rewrite bind_run.
      destruct (legacy_runToolCall_counts ctx tc w) as (entry & w1 & -> & Hh).
      destruct (IH (S k) (results ++ [entry]) w1) as (added & w' & -> & Hlen & Hh').
      exists (entry :: added), w'. rewrite <- app_assoc. split; [done|].
      split; [|by rewrite Hh', Hh]. cbn [length]. rewrite Hlen.
      destruct cap as [c|]; [|done]. apply Z.leb_gt in Hcap. lia.
Qed.

(** One pass of the earlier orchestrator. It appends the turn of the user
    before anything can throw, so that a failure leaves that turn in the
    history; and when it succeeds, its [toolsCalled] names every call read
    in the reply, also those the cap kept from running. *)
Lemma legacy_processMessageBody_run systemPrompt cap userMessage userId sessionId w :
  exists t1,
    (turnRole t1, turnContent t1) = (user, userMessage)
    /\ match LegacyAgent.processMessageBody env toolContextOf parseToolCalls systemPrompt
               cap userMessage userId sessionId w with
       | (inl e, w') => conversationHistory w' = conversationHistory w ++ [t1]
       | (inr r, w') =>
           exists reply results t2,
             LegacyAgent.success r = true
             /\ LegacyAgent.toolsCalled r
                = Some (LegacyAgent.callName <$> parseToolCalls reply)
             /\ LegacyAgent.toolResults r = Some results
             /\ length results
                = match cap with
                  | Some c => min (length (parseToolCalls reply)) (Z.to_nat c)
                  | None => length (parseToolCalls reply)
                  end
             /\ conversationHistory w' = conversationHistory w ++ [t1; t2]
       end.
Proof.
  unfold LegacyAgent.processMessageBody. rewrite bind_run.
  destruct (getSessionContext_run env sessionId w) as (ctx & w1 & -> & _ & _ & Hh1).
  rewrite bind_now, bind_pushHistory.
  eexists {| turnRole := user; turnContent := userMessage; turnUserId := _;
             turnToolsCalled := _; turnSessionId := _; turnTimestamp := _ |}.
  split; [reflexivity|].
  rewrite bind_run.
  match goal with |- context [LegacyAgent.createToolContext _ _ ?w] =>
    destruct (returns_keepingHistory (LegacyAgent.createToolContext env toolContextOf) w)
      as (text & w2 & -> & Hh2)
  end.
  { unfold LegacyAgent.createToolContext.
    apply neverThrows_bind; [apply neverThrows_getAvailableTools|auto with total]. }
  { unfold LegacyAgent.createToolContext.
    apply keepsHistory_bind; [apply keepsHistory_getAvailableTools|auto with history]. }
  cbn [conversationHistory] in Hh2. rewrite Hh1 in Hh2.
  change ((getHistory ≫= ?k) w2) with (k (conversationHistory w2) w2). cbv beta.
  rewrite bind_run.
  match goal with |- context [LegacyAgent.callOllama env ?p w2] =>
    pose proof (keepsHistory_callOllama p w2) as Hh3;
    destruct (LegacyAgent.callOllama env p w2) as [[e|reply] w3]
  end; cbn [snd] in Hh3; [by rewrite Hh3, Hh2|].
  rewrite bind_run.
  destruct (legacy_executeTools_results cap ctx (parseToolCalls reply) 0 [] w3)
    as (results & w4 & -> & Hlen & Hh4).
  cbn [app].
  assert (length results
          = match cap with
            | Some c => min (length (parseToolCalls reply)) (Z.to_nat c)
            | None => length (parseToolCalls reply)
            end) as Hlen'
    by (destruct cap; [by rewrite Nat.sub_0_r in Hlen|done]).
  clear Hlen. rewrite bind_run. destruct results as [|r0 results].
  - unfold mret at 1, M_ret at 1. cbv beta iota.
    rewrite bind_now, bind_pushHistory, bind_now.
    exists reply, []. eexists. split_and!; try done.
    cbn [conversationHistory]. by rewrite Hh4, Hh3, Hh2, <- app_assoc.
  - match goal with |- context [LegacyAgent.callOllama env ?p w4] =>
      pose proof (keepsHistory_callOllama p w4) as Hh5;
      destruct (LegacyAgent.callOllama env p w4) as [[e|final] w5]
    end; cbn [snd] in Hh5; [by rewrite Hh5, Hh4, Hh3, Hh2|].
    rewrite bind_now, bind_pushHistory, bind_now.
    exists reply, (r0 :: results). eexists. split_and!; try done.
    cbn [conversationHistory]. by rewrite Hh5, Hh4, Hh3, Hh2, <- app_assoc.
Qed.

(** The failure response of the earlier orchestrator carries the apology;
    the history has grown by the turn of the user. *)
Lemma legacy_failure_keeps_user_turn systemPrompt cap userMessage userId sessionId w :
  exists resp w',
    LegacyAgent.processMessage env toolContextOf parseToolCalls systemPrompt cap
      userMessage userId sessionId w = (inr resp, w')
    /\ (LegacyAgent.success resp = false ->
          LegacyAgent.response resp = LegacyAgent.apology
          /\ exists t1, conversationHistory w' = conversationHistory w ++ [t1]
                        /\ (turnRole t1, turnContent t1) = (user, userMessage)).
Proof.
  unfold LegacyAgent.processMessage, tryCatch.
  destruct (legacy_processMessageBody_run systemPrompt cap userMessage userId sessionId w)
    as (t1 & Ht1 & Hrun).
  destruct (LegacyAgent.processMessageBody _ _ _ _ _ _ _ _ w) as [[e|r] w1].
  - rewrite bind_now. eexists _, _. split; [reflexivity|]. intros _. split; [done|].
    exists t1. by cbn [conversationHistory].
  - destruct Hrun as (reply & results & t2 & Hok & _). exists r, w1. split; [done|].
    by rewrite Hok.
Qed.

End LegacyFacts.

Section OrchestratorRuns.
Import OllamaChat Agent.


(** The run of the witness, in full: of the eight calls the model proposes
    five leave an entry, the third with the error of its arguments, and four
    reach the backend. *)
Lemma eight_calls_cap_five :
  exists resp w',
    processMessage asciiUnicode Samples.busyEnv Samples.theAgent Samples.roomsQuestion
      None None Samples.freshWorld = (inr resp, w')
    /\ success resp = true
    /\ length (toolsCalled resp) = 5
    /\ (from_option (fun _ => true) false ∘ trError <$> toolResults resp)
       = [false; false; true; false; false]
    /\ invocations (trace w') = 4
    /\ length (trace w') = 7.
Proof. eexists _, _. split; [vm_compute; reflexivity|]. by vm_compute. Qed.

(** C3 fails as stated. With the model backend down the response of
    [processMessage] is the message of the exception after ["Error: "],
    not the apology of the earlier orchestrator. *)
Lemma processMessage_reports_the_exception :
  exists resp w',
    processMessage asciiUnicode Samples.downEnv Samples.theAgent Samples.roomsQuestion
      None None Samples.freshWorld = (inr resp, w')
    /\ success resp = false
    /\ response resp = js "Error: LLM Error: connect ECONNREFUSED 127.0.0.1:11434"
    /\ response resp <> LegacyAgent.apology.
Proof.
  eexists _, _. split; [vm_compute; reflexivity|]. split; [reflexivity|].
  split; [by vm_compute|]. by vm_compute.
Qed.

Lemma processMessage_catches_witness :
  exists resp w',
    processMessage asciiUnicode Samples.downEnv Samples.theAgent Samples.roomsQuestion
      None None Samples.freshWorld = (inr resp, w')
    /\ success resp = false
    /\ conversationHistory w' = [].
Proof.
  destruct (processMessage_catches asciiUnicode Samples.downEnv Samples.theAgent
              Samples.roomsQuestion None None Samples.freshWorld)
    as (resp & w' & Hrun & Hthrown & Hfailed & _).
  exists resp, w'. split; [exact Hrun|].
  assert (success resp = false) as Hno.
  { eapply Hthrown. vm_compute. reflexivity. }
  split; [exact Hno|]. by destruct (Hfailed Hno) as [-> _].
Defined.

Lemma conversational_skips_tools_witness :
  isConversationalMessage asciiUnicode Samples.hello = true
  /\ exists resp w',
       processMessage asciiUnicode Samples.friendlyEnv Samples.theAgent Samples.hello
         None None Samples.freshWorld = (inr resp, w')
       /\ trace w' = [EvChat Samples.helloRequest]
       /\ toolsCalled resp = [] /\ toolResults resp = []
       /\ response resp = js "Hello! How can I help you today?".
Proof.
  split; [by vm_compute|].
  destruct (conversational_skips_tools asciiUnicode Samples.friendlyEnv Samples.theAgent
              Samples.hello None None Samples.freshWorld)
    as (resp & w' & Hrun & Htr & Hcalled & Hresults & Htext); [by vm_compute|].
  exists resp, w'. split_and!; try done.
  by destruct (Htext {| msgContent := js "Hello! How can I help you today?";
                        tool_calls := [] |} eq_refl) as [_ ->].
Defined.

(** In the earlier orchestrator the same eight calls under the cap of 5:
    five are run, and [toolsCalled] names all eight. *)
Lemma legacy_toolsCalled_names_dropped_calls :
  exists resp w',
    LegacyAgent.processMessage Samples.busyEnv Samples.noToolContext
      Samples.alwaysEightCalls (systemPrompt Samples.theAgent) (Some 5%Z)
      Samples.roomsQuestion None None Samples.freshWorld = (inr resp, w')
    /\ LegacyAgent.success resp = true
    /\ (length <$> LegacyAgent.toolsCalled resp) = Some 8
    /\ (length <$> LegacyAgent.toolResults resp) = Some 5
    /\ invocations (trace w') = 5.
Proof. eexists _, _. split; [vm_compute; reflexivity|]. by vm_compute. Qed.

(** In the earlier orchestrator a failure answers with the apology and
    leaves the turn of the user in the history. *)
Lemma legacy_failure_run :
  exists resp w',
    LegacyAgent.processMessage Samples.downEnv Samples.noToolContext
      Samples.alwaysEightCalls (systemPrompt Samples.theAgent) (Some 5%Z)
      Samples.roomsQuestion None None Samples.freshWorld = (inr resp, w')
    /\ LegacyAgent.success resp = false
    /\ LegacyAgent.response resp = LegacyAgent.apology
    /\ (turnContent <$> conversationHistory w') = [Samples.roomsQuestion].
Proof. eexists _, _. split; [vm_compute; reflexivity|]. by vm_compute. Qed.

End OrchestratorRuns.

(* ===================================================================== *)
(** * Further properties of the code *)
(* ===================================================================== *)

(** ** Session store *)

Section SessionManagerMore.
Import SessionManager.

Lemma getToken_resolved (sessions : Sessions) (now : Z) sessionId :
  getToken sessions now (Some (sidOf sessionId)) = getToken sessions now sessionId.
Proof. unfold getToken. by rewrite sidOf_idemp. Qed.

(** X1. A token stored by [setToken] is served by [getToken], which leaves the
    store as it is, as long as the clock has not passed the time of the
    call by more than the time to live, one hour when none (or 0) is
    given; later the call returns [null] and the session is gone. *)
Lemma setToken_getToken_round_trip
  (sessions : Sessions) (t0 now : Z) (tok uid : jsstring) sessionId
  (data : AdditionalData) :
  tok ≠ [] -> (0 <= t0)%Z -> (0 <= default 0%Z (expiresIn data))%Z ->
  let ttl := match expiresIn data with
             | Some e => if (e =? 0)%Z then 3600%Z else e
             | None => 3600%Z
             end in
  let stored := setToken sessions t0 tok uid sessionId data in
  ((now <= t0 + ttl * 1000)%Z -> getToken stored now sessionId = (Some tok, stored))
  /\ ((t0 + ttl * 1000 < now)%Z ->
        getToken stored now sessionId = (None, delete (sidOf sessionId) sessions)).
Proof.
  intros Htok Ht0 Hdata ttl stored.
  assert (0 < ttl)%Z as Httl.
  { unfold ttl. revert Hdata. destruct (expiresIn data) as [e|]; [|lia].
    simpl. destruct (Z.eqb_spec e 0); lia. }
  unfold stored, setToken, getToken, expired, clearSession. fold ttl.
  rewrite lookup_insert_eq, sidOf_idemp. cbn [token expiresAt].
  destruct tok as [|c tk]; [done|]. cbn [nonEmpty negb].
  destruct (Z.eqb_spec (t0 + ttl * 1000) 0); [lia|]. cbn [negb andb].
  split; intros Hnow.
  - destruct (Z.ltb_spec (t0 + ttl * 1000) now); [lia|done].
  - destruct (Z.ltb_spec (t0 + ttl * 1000) now); [|lia]. by rewrite delete_insert_eq.
Qed.

Lemma setToken_getToken_round_trip_witness :
  getToken (setToken ∅ 1000 (js "jwt-abc") (js "u1") None noAdditionalData) 3601000 None
  = (Some (js "jwt-abc"), Samples.oneSession)
  /\ getToken (setToken ∅ 1000 (js "jwt-abc") (js "u1") None noAdditionalData) 3601001 None
     = (None, ∅).
Proof.
  destruct (setToken_getToken_round_trip ∅ 1000 3601000 (js "jwt-abc") (js "u1") None
              noAdditionalData) as [H1 _]; [done|lia|done|].
  destruct (setToken_getToken_round_trip ∅ 1000 3601001 (js "jwt-abc") (js "u1") None
              noAdditionalData) as [_ H2]; [done|lia|done|].
  split.
  - apply H1. by vm_compute.
  - rewrite H2 by (by vm_compute). by rewrite delete_empty.
Defined.

(** X2. The operations on one session leave the others alone: what [getToken]
    and [getSessionContext] answer for a session does not change when a
    token is set, a refresh token is set, or the session is cleared, under
    another id. *)
Lemma sessions_are_isolated
  (sessions : Sessions) (t0 : Z) (tok uid : jsstring) (data : AdditionalData)
  (rt : option jsstring) (sessionId other : option jsstring) :
  sidOf other ≠ sidOf sessionId ->
  forall sessions',
    sessions' = setToken sessions t0 tok uid other data
    \/ sessions' = setRefreshToken sessions rt other
    \/ sessions' = clearSession sessions other
    \/ (exists now, sessions' = (getToken sessions now other).2) ->
    sessions' !! sidOf sessionId = sessions !! sidOf sessionId
    /\ (forall now, (getToken sessions' now sessionId).1 = (getToken sessions now sessionId).1)
    /\ (forall now1 now2,
          (getSessionContext sessions' now1 now2 sessionId).1
          = (getSessionContext sessions now1 now2 sessionId).1).
Proof.
  intros Hne sessions' Hop.
  assert (sessions' !! sidOf sessionId = sessions !! sidOf sessionId) as Hsame.
  { destruct Hop as [-> | [-> | [-> | [now ->]]]].
    - unfold setToken. by rewrite lookup_insert_ne.
    - unfold setRefreshToken. destruct (sessions !! sidOf other); [|done].
      by rewrite lookup_insert_ne.
    - unfold clearSession. by rewrite lookup_delete_ne.
    - unfold getToken. destruct (sessions !! sidOf other) as [s|]; [|done].
      destruct (negb (nonEmpty (token s))); [done|].
      destruct (expired s now); [|done].
      cbn [snd]. unfold clearSession. rewrite sidOf_idemp. by rewrite lookup_delete_ne. }
  split; [done|].
  assert (forall now, (getToken sessions' now sessionId).1
                      = (getToken sessions now sessionId).1) as Htok.
  { intros now. unfold getToken. rewrite Hsame.
    destruct (sessions !! sidOf sessionId) as [s|]; [|done].
    destruct (negb (nonEmpty (token s))); [done|]. by destruct (expired s now). }
  split; [done|]. intros now1 now2. unfold getSessionContext. rewrite Hsame.
  destruct (sessions !! sidOf sessionId) as [s|]; [|done].
  rewrite !getToken_resolved. specialize (Htok now2).
  destruct (getToken sessions' now2 sessionId) as [tok1 s1].
  destruct (getToken sessions now2 sessionId) as [tok2 s2].
  cbn [fst] in *. by subst.
Qed.

Lemma sessions_are_isolated_witness :
  let sessions' := clearSession Samples.oneSession (Some (js "guest")) in
  (getToken sessions' 2000 None).1 = Some (js "jwt-abc")
  /\ isAuthenticated (getSessionContext sessions' 2000 2000 None).1 = true.
Proof.
  intros sessions'.
  destruct (sessions_are_isolated Samples.oneSession 0 [] [] noAdditionalData None
              None (Some (js "guest"))) with (sessions' := sessions')
    as (_ & Htok & Hctx).
  - by vm_compute.
  - right. right. by left.
  - rewrite Htok, Hctx. by vm_compute.
Defined.

(** X3. Logging out: after [clearSession] the session has no token and is
    reported as unauthenticated, with no user, at every reading of the
    clock; the other sessions are as they were; and clearing again changes
    nothing. *)
Lemma clearSession_logs_out (sessions : Sessions) (sessionId : option jsstring) :
  let cleared := clearSession sessions sessionId in
  (forall now, getToken cleared now sessionId = (None, cleared))
  /\ (forall now1 now2,
        getSessionContext cleared now1 now2 sessionId
        = ({| ctxSessionId := sidOf sessionId; isAuthenticated := false;
              ctxToken := None; ctxUserId := None; ctxExpiresAt := None;
              ctxRefreshToken := None |}, cleared))
  /\ (forall k, k ≠ sidOf sessionId -> cleared !! k = sessions !! k)
  /\ clearSession cleared sessionId = cleared.
Proof.
  intros cleared.
  assert (cleared !! sidOf sessionId = None) as Hgone by apply lookup_delete_eq.
  split_and!.
  - intros now. unfold getToken. by rewrite Hgone.
  - intros now1 now2. by apply getSessionContext_absent.
  - intros k Hk. unfold cleared, clearSession. by rewrite lookup_delete_ne.
  - unfold clearSession. by apply delete_id.
Qed.

(** X4. What [getSessionContext] reports hangs together when the clock does not
    go back between its two readings: a token is handed out only for a
    session reported as authenticated, and it is the token of the session;
    when the two readings agree, a session reported as authenticated comes
    with its token. *)
Lemma getSessionContext_consistent
  (sessions : Sessions) (now1 now2 : Z) (sessionId : option jsstring) :
  (now1 <= now2)%Z ->
  let context := (getSessionContext sessions now1 now2 sessionId).1 in
  ctxSessionId context = sidOf sessionId
  /\ (forall tok, ctxToken context = Some tok ->
        isAuthenticated context = true
        /\ exists s, sessions !! sidOf sessionId = Some s /\ token s = tok /\ tok ≠ [])
  /\ (now1 = now2 -> isAuthenticated context = true -> is_Some (ctxToken context)).
Proof.
  intros Hclock context. unfold context, getSessionContext.
  destruct (sessions !! sidOf sessionId) as [s|] eqn:Hs; [|done].
  rewrite getToken_resolved. unfold getToken, expired. rewrite Hs.
  destruct (nonEmpty (token s)) eqn:Htok; cbn [negb andb].
  - destruct (Z.eqb_spec (expiresAt s) 0) as [E0|E0]; cbn [negb andb orb fst].
    + split; [done|]. split; [|by eexists]. intros tok [= <-]. split; [done|].
      exists s. split_and!; try done. by destruct (token s).
    + destruct (Z.ltb_spec (expiresAt s) now2) as [E2|E2]; cbn [fst ctxToken].
      * split; [done|]. split; [done|]. intros -> Hauth.
        cbn [isAuthenticated] in Hauth. apply Z.leb_le in Hauth. lia.
      * split; [done|]. split; [|by eexists]. intros tok [= <-]. cbn [isAuthenticated].
        split; [apply Z.leb_le; lia|]. exists s. split_and!; try done.
        by destruct (token s).
  - by cbn.
Qed.

Lemma getSessionContext_consistent_witness :
  isAuthenticated (getSessionContext Samples.oneSession 2000 2000 None).1 = true
  /\ ctxToken (getSessionContext Samples.oneSession 2000 2000 None).1 = Some (js "jwt-abc").
Proof.
  destruct (getSessionContext_consistent Samples.oneSession 2000 2000 None)
    as (_ & Hauth & _); [lia|].
  assert (ctxToken (getSessionContext Samples.oneSession 2000 2000 None).1
          = Some (js "jwt-abc")) as Htok by (by vm_compute).
  split; [|exact Htok]. by destruct (Hauth _ Htok).
Defined.

(** X5. [setRefreshToken] does not open a session: on an id without session it
    changes nothing. On a session it replaces the refresh token and nothing
    else: the token [getToken] serves, the authentication and the user
    reported are as before. *)
Lemma setRefreshToken_only_refresh_token
  (sessions : Sessions) (rt : option jsstring) (sessionId : option jsstring) :
  let updated := setRefreshToken sessions rt sessionId in
  (sessions !! sidOf sessionId = None -> updated = sessions)
  /\ (is_Some (sessions !! sidOf sessionId) ->
        forall now1 now2,
          let before := (getSessionContext sessions now1 now2 sessionId).1 in
          let after := (getSessionContext updated now1 now2 sessionId).1 in
          ctxRefreshToken after = rt
          /\ ctxToken after = ctxToken before
          /\ isAuthenticated after = isAuthenticated before
          /\ ctxUserId after = ctxUserId before
          /\ ctxExpiresAt after = ctxExpiresAt before).
Proof.
  intros updated. unfold updated, setRefreshToken. split.
  - by intros ->.
  - intros [s Hs] now1 now2. rewrite Hs. unfold getSessionContext.
    rewrite lookup_insert_eq, Hs, !getToken_resolved. unfold getToken.
    rewrite lookup_insert_eq, Hs. cbn [token expiresAt userId refreshToken].
    unfold expired. cbn [expiresAt].
    destruct (negb (nonEmpty (token s))); [done|].
    by destruct (negb (expiresAt s =? 0)%Z && (expiresAt s <? now2)%Z).
Qed.

Lemma setRefreshToken_only_refresh_token_witness :
  setRefreshToken ∅ (Some (js "r2")) None = ∅
  /\ ctxRefreshToken
       (getSessionContext (setRefreshToken Samples.oneSession (Some (js "r2")) None)
          2000 2000 None).1 = Some (js "r2").
Proof.
  destruct (setRefreshToken_only_refresh_token ∅ (Some (js "r2")) None) as [H1 _].
  destruct (setRefreshToken_only_refresh_token Samples.oneSession (Some (js "r2")) None)
    as [_ H2].
  split; [by apply H1|].
  by destruct (H2 ltac:(by eexists) 2000%Z 2000%Z) as [-> _].
Defined.

End SessionManagerMore.

(** ** Tool catalog filter *)

Section ToolFilterMore.
Import ToolFilter.

Lemma ordmap_foldl_fresh {V} (es m : list (jsstring * V)) :
  NoDup (fst <$> es) ->
  (forall k, k ∈ fst <$> es -> k ∉ OrdMap.keys m) ->
  foldl (fun m e => OrdMap.set m e.1 e.2) m es = m ++ es.
Proof.
  revert m. induction es as [|[k v] es IH]; intros m Hnd Hfresh.
  - by rewrite app_nil_r.
  - cbn [fmap list_fmap fst] in Hnd, Hfresh. apply NoDup_cons in Hnd as [Hk Hnd].
    cbn [foldl fst snd]. rewrite ordmap_set_fresh by (apply Hfresh; left).
    rewrite IH; [by rewrite <- app_assoc|done|].
    intros k' Hk'. unfold OrdMap.keys. rewrite fmap_app, elem_of_app.
    intros [Hin|Hin].
    + by apply (Hfresh k'); [right|].
    + cbn in Hin. apply list_elem_of_singleton in Hin as ->. done.
Qed.

Lemma filter_all {A} (P : A -> Prop) `{!forall x, Decision (P x)} (l : list A) :
  Forall P l -> filter P l = l.
Proof.
  induction 1 as [|x l Hx Hl IH]; [done|]. rewrite filter_cons_True by done. by f_equal.
Qed.

(** De-duplication leaves a list without repeated names as it is. *)
Lemma uniqueTools_NoDup (ts : list Tool) : NoDup (name <$> ts) -> uniqueTools ts = ts.
Proof.
  intros Hnd. unfold uniqueTools, OrdMap.of_entries, OrdMap.values.
  rewrite ordmap_foldl_fresh.
  - cbn [app]. rewrite <- list_fmap_compose. by rewrite list_fmap_id.
  - by rewrite <- list_fmap_compose.
  - intros k _. apply not_elem_of_nil.
Qed.

(** No category of the keyword table is [other], so the categories read in
    a message never include it. *)
Lemma detectRelevantCategories_named (U : Unicode) (userMessage : jsstring) :
  detectRelevantCategories U userMessage ≠ []
  /\ other ∉ detectRelevantCategories U userMessage.
Proof.
  unfold detectRelevantCategories.
  assert (other ∉ matchedCategories U userMessage) as Hm.
  { unfold matchedCategories. intros Hin. apply list_elem_of_In, in_map_iff in Hin.
    destruct Hin as ([c kws] & Hc & Hin). apply filter_In in Hin as [Hin _].
    cbn [fst] in Hc. subst c. revert Hin. unfold TOOL_KEYWORDS.
    intros Hin. repeat (destruct Hin as [Hin|Hin]; [done|]). done. }
  destruct (matchedCategories U userMessage) as [|c cs]; [|done].
  split; [done|]. unfold defaultCategories. intros Hin.
  repeat (apply elem_of_cons in Hin as [Hin|Hin]; [done|]). by apply elem_of_nil in Hin.
Qed.

(** X6. Filtering is idempotent: the filter returns its own output unchanged
    when it is given it as the catalog, for the same message and cap. *)
Lemma filterRelevantTools_idempotent
  (U : Unicode) (allTools : list Tool) (userMessage : jsstring) (maxTools : nat) :
  let out := filterRelevantTools U allTools userMessage maxTools in
  filterRelevantTools U out userMessage maxTools = out.
Proof.
  intros out. unfold filterRelevantTools at 1. cbv zeta.
  set (cs := detectRelevantCategories U userMessage).
  assert (relevantTools cs out = out) as ->.
  { unfold relevantTools. apply filter_all. apply Forall_forall. intros t Ht.
    by apply filter_elem_of in Ht as (_ & Hc & _). }
  assert (NoDup (name <$> out)) as Hnd.
  { unfold out, filterRelevantTools. cbv zeta. rewrite filter_names.
    apply (sublist_NoDup _ (nub (name <$> allTools))); [apply nub_NoDup|].
    etrans; [apply sublist_take|apply sublist_filter]. }
  rewrite uniqueTools_NoDup by done. apply take_ge.
  unfold out, filterRelevantTools. cbv zeta. rewrite length_take. lia.
Qed.

(** X7. Whatever the message, every tool the filter returns is of a category
    read in the message (of a default category when none is), and never of
    the category [other]; and when the output is shorter than the cap, no
    name is lost: every catalog tool of such a category has its name in the
    output. *)
Lemma filterRelevantTools_sound_complete
  (U : Unicode) (allTools : list Tool) (userMessage : jsstring) (maxTools : nat) :
  let out := filterRelevantTools U allTools userMessage maxTools in
  let cs := detectRelevantCategories U userMessage in
  (forall t, t ∈ out -> getToolCategory (name t) ∈ cs /\ getToolCategory (name t) ≠ other)
  /\ (length out < maxTools ->
      forall t, t ∈ allTools -> getToolCategory (name t) ∈ cs ->
                exists t', t' ∈ out /\ name t' = name t).
Proof.
  intros out cs. split.
  - intros t Ht. apply filter_elem_of in Ht as (_ & Hc & _). split; [done|].
    intros Ho. rewrite Ho in Hc.
    by apply (proj2 (detectRelevantCategories_named U userMessage)).
  - intros Hlen t Ht Hc.
    assert (out = uniqueTools (relevantTools cs allTools)) as Hout.
    { unfold out, filterRelevantTools. cbv zeta. fold cs. apply take_ge.
      unfold out, filterRelevantTools in Hlen. cbv zeta in Hlen. fold cs in Hlen.
      rewrite length_take in Hlen. lia. }
    assert (name t ∈ name <$> out) as Hn.
    { rewrite Hout, uniqueTools_names, nub_elem_of, relevantTools_names.
      apply list_elem_of_filter. split; [done|]. by apply list_elem_of_fmap_2. }
    apply list_elem_of_fmap in Hn as (t' & Hn & Ht'). by exists t'.
Qed.

End ToolFilterMore.

(** ** Tool-call extractor *)

Section ExtractorMore.
Import Json OllamaClient.

Lemma callNear_name (cleaned toolName : jsstring) :
  tcName (callNear cleaned toolName) = toolName.
Proof.
  unfold callNear. destruct (greedyBraces _) as [m|]; [|done].
  destruct (parse m) as [args|]; [|done].
  by destruct (propIs args (js "tool") toolName || propIs args (js "name") toolName).
Qed.

Lemma strategy3_name (known : list jsstring) (cleaned : jsstring) (call : ToolCall) :
  strategy3 known cleaned = Some call ->
  tcName call ∈ known /\ includes cleaned (tcName call) = true.
Proof.
  induction known as [|n known IH]; [done|]. cbn [strategy3].
  destruct (includes cleaned n) eqn:E.
  - intros [= <-]. rewrite callNear_name. split; [left|done].
  - intros [Hin Hinc]%IH. split; [by right|done].
Qed.

(** X9. The extractor does not invent a tool: whatever the reply, a call it
    returns bears one of the names it was given; with no name, or on an
    empty reply, it returns no call. *)
Lemma parseToolCallFromContent_known_name
  (content : jsstring) (knownToolNames : list jsstring) (call : ToolCall) :
  parseToolCallFromContent content knownToolNames = Some call ->
  tcName call ∈ knownToolNames /\ content ≠ [].
Proof.
  unfold parseToolCallFromContent.
  destruct content as [|c content]; [done|]. cbn [nonEmpty negb orb].
  destruct (bool_decide (knownToolNames = [])); [done|]. cbv zeta.
  intros H. split; [|done]. revert H.
  destruct (strategy1 knownToolNames (clean (c :: content))) as [call1|] eqn:E1.
  - intros [= <-]. unfold strategy1 in E1.
    destruct (parse (clean (c :: content))) as [parsed|]; [|done].
    destruct (isObject parsed); [|done]. by apply callOfParsed_inv in E1 as [? _].
  - destruct (strategy2 knownToolNames (clean (c :: content))) as [call2|] eqn:E2.
    + intros [= <-]. apply firstCall_inv in E2 as (cand & _ & E2).
      destruct (parse cand) as [parsed|]; [|done]. cbn in E2.
      by apply callOfParsed_inv in E2 as [? _].
    + by intros [? _]%strategy3_name.
Qed.

Lemma parseToolCallFromContent_known_name_witness :
  tcName Samples.roomCall ∈ Samples.knownTools /\ Samples.callText ≠ [].
Proof.
  apply (parseToolCallFromContent_known_name Samples.callText Samples.knownTools).
  by vm_compute.
Defined.

(** *** The balanced candidates *)

Lemma substring_snoc (text : jsstring) (st i : nat) (c : N) :
  st <= i -> text !! i = Some c ->
  substring text st (S i) = substring text st i ++ [c].
Proof.
  intros Hle Hc. unfold substring. replace (S i - st) with (S (i - st)) by lia.
  rewrite (take_S_r _ _ c); [done|]. rewrite lookup_drop.
  by replace (st + (i - st)) with i by lia.
Qed.

Lemma substring_head (text : jsstring) (st i : nat) (c : N) :
  st < i -> text !! st = Some c ->
  exists r, substring text st i = c :: r.
Proof.
  intros Hlt Hc. unfold substring. rewrite (drop_S _ c) by done.
  replace (i - st) with (S (i - st - 1)) by lia. cbn [take]. by eexists.
Qed.

(** The loop of the scan, with what it knows where it stands: [start] is the
    place of an opening brace and [depth], at least 1, counts the braces
    from there. *)
Lemma scanBraces_shape (text chars : jsstring) (i : nat) (depth : Z) (start : option nat) :
  chars = drop i text ->
  (forall st, start = Some st ->
     st < i /\ text !! st = Some 0x7B%N /\ (1 <= depth)%Z
     /\ depth = (Z.of_nat (count_occ N.eq_dec (substring text st i) 0x7B%N)
                 - Z.of_nat (count_occ N.eq_dec (substring text st i) 0x7D%N))%Z) ->
  Forall (fun cand =>
            (exists body, cand = 0x7B%N :: body ++ [0x7D%N])
            /\ count_occ N.eq_dec cand 0x7B%N = count_occ N.eq_dec cand 0x7D%N)
    (scanBraces text chars i depth start).
Proof.
  revert i depth start. induction chars as [|c r IH]; intros i depth start Hchars Hstart;
    [constructor|].
  assert (text !! i = Some c) as Hc.
  { rewrite <- (Nat.add_0_r i), <- lookup_drop, <- Hchars. done. }
  assert (r = drop (S i) text) as Hr.
  { rewrite (drop_S _ c i Hc) in Hchars. by injection Hchars. }
  cbn [scanBraces]. destruct (N.eqb_spec c 0x7B) as [->|Hopen].
  - apply IH; [done|]. intros st Hst. destruct (Z.eqb_spec depth 0) as [->|Hd].
    + injection Hst as <-. split; [lia|]. split; [done|]. split; [lia|].
      rewrite (substring_snoc _ _ _ 0x7B%N) by done.
      unfold substring. by rewrite Nat.sub_diag.
    + destruct (Hstart st Hst) as (Hlt & Hopen & Hpos & Hdepth).
      split; [lia|]. split; [done|]. split; [lia|].
      rewrite (substring_snoc _ _ _ 0x7B%N) by (done || lia).
      rewrite !count_occ_app. cbn. lia.
  - destruct (N.eqb_spec c 0x7D) as [->|Hclose].
    + destruct start as [st|]; [|by apply IH].
      destruct (Hstart st eq_refl) as (Hlt & Hst & Hpos & Hdepth).
      assert (substring text st (i + 1) = substring text st i ++ [0x7D%N]) as Hsub.
      { rewrite Nat.add_1_r. apply substring_snoc; [lia|done]. }
      destruct (Z.eqb_spec (depth - 1) 0) as [Hzero|Hnz].
      * constructor; [|by apply IH]. rewrite Hsub. split.
        -- destruct (substring_head text st i _ Hlt Hst) as [body ->]. by exists body.
        -- rewrite !count_occ_app. cbn. lia.
      * apply IH; [done|]. intros st' [= <-]. split; [lia|]. split; [done|].
        split; [lia|]. rewrite <- Nat.add_1_r, Hsub, !count_occ_app. cbn. lia.
    + apply IH; [done|]. intros st Hst.
      destruct (Hstart st Hst) as (Hlt & Hopen' & Hpos & Hdepth).
      split; [lia|]. split; [done|]. split; [done|].
      rewrite (substring_snoc _ _ _ c) by (done || lia). rewrite !count_occ_app.
      assert (count_occ N.eq_dec [c] 0x7B%N = 0) as ->
        by (cbn; destruct (N.eq_dec _ _); congruence).
      assert (count_occ N.eq_dec [c] 0x7D%N = 0) as ->
        by (cbn; destruct (N.eq_dec _ _); congruence).
      by rewrite !Nat.add_0_r.
Qed.

(** X10. Every candidate [extractBalancedJsonObjects] returns is a piece of the
    text that starts with an opening brace, ends with a closing brace and
    holds as many of the one as of the other; a text without braces has no
    candidate. *)
Lemma extractBalancedJsonObjects_candidates (text : jsstring) :
  Forall (fun cand =>
            occursIn cand text
            /\ (exists body, cand = 0x7B%N :: body ++ [0x7D%N])
            /\ count_occ N.eq_dec cand 0x7B%N = count_occ N.eq_dec cand 0x7D%N)
    (extractBalancedJsonObjects text)
  /\ (braceFree text -> extractBalancedJsonObjects text = []).
Proof.
  split; [|apply scanBraces_braceFree]. unfold extractBalancedJsonObjects.
  pose proof (scanBraces_occursIn text text 0 0 None) as H1.
  pose proof (scanBraces_shape text text 0 0 None eq_refl) as H2.
  rewrite Forall_forall in H1. rewrite Forall_forall in H2. apply Forall_forall.
  intros cand Hin. split; [by apply H1|]. by apply H2.
Qed.

(** *** Markdown fences *)

Lemma trimStart_ws (ws s : jsstring) :
  Forall (fun c => isWhiteSpace c = true) ws -> trimStart (ws ++ s) = trimStart s.
Proof. induction 1 as [|c ws Hc Hws IH]; [done|]. cbn [app trimStart]. by rewrite Hc. Qed.

Lemma trimEnd_ws (s ws : jsstring) :
  Forall (fun c => isWhiteSpace c = true) ws -> trimEnd (s ++ ws) = trimEnd s.
Proof.
  intros Hws. unfold trimEnd. rewrite rev_app_distr, trimStart_ws; [done|].
  by apply Forall_rev.
Qed.

Lemma startsWithCI_app (s p r : jsstring) :
  startsWithCI s p = true -> startsWithCI (s ++ r) p = true.
Proof.
  revert s. induction p as [|a p IH]; intros s; [done|].
  destruct s as [|b s]; [done|]. cbn [app startsWithCI].
  intros [-> H]%andb_true_iff. cbn [andb]. by apply IH.
Qed.

Lemma whiteSpace_not_j (c : N) : isWhiteSpace c = true -> sameLetter 0x6A c = false.
Proof.
  unfold isWhiteSpace, sameLetter, asciiUpper. intros H.
  destruct ((0x61 <=? c) && (c <=? 0x7A))%N eqn:E.
  - apply andb_true_iff in E as [E1 E2]. apply N.leb_le in E1, E2.
    repeat (apply orb_true_iff in H as [H|H]);
      repeat match goal with
             | H : (_ && _)%bool = true |- _ => apply andb_true_iff in H as [? ?]
             | H : (_ <=? _)%N = true |- _ => apply N.leb_le in H
             | H : (_ =? _)%N = true |- _ => apply N.eqb_eq in H
             end; lia.
  - cbn. apply N.eqb_neq. intros <-. by vm_compute in H.
Qed.

(** A reply wrapped in a markdown code fence, with or without the [json]
    tag in any case and with any white space around the fence and inside
    it, is cleaned to the object it wraps. *)
Lemma clean_fenced (pre tag ws1 body ws2 post : jsstring) :
  Forall (fun c => isWhiteSpace c = true) pre ->
  Forall (fun c => isWhiteSpace c = true) ws1 ->
  Forall (fun c => isWhiteSpace c = true) ws2 ->
  Forall (fun c => isWhiteSpace c = true) post ->
  tag = [] \/ (length tag = 4 /\ startsWithCI tag (js "json") = true) ->
  clean (pre ++ js "```" ++ tag ++ ws1 ++ (0x7B%N :: body ++ [0x7D%N]) ++ ws2
         ++ js "```" ++ post)
  = 0x7B%N :: body ++ [0x7D%N].
Proof.
  intros Hpre Hws1 Hws2 Hpost Htag.
  change (js "```") with ([0x60; 0x60; 0x60]%N).
  set (t := (0x7B%N :: body ++ [0x7D%N])).
  assert (trimStart t = t) as Hts by (by apply trimStart_id).
  assert (trimEnd t = t) as Hte.
  { unfold t. rewrite app_comm_cons. by apply trimEnd_id. }
  set (inner := tag ++ ws1 ++ t ++ ws2).
  assert (trim (pre ++ [0x60; 0x60; 0x60]%N ++ tag ++ ws1 ++ t ++ ws2
                ++ [0x60; 0x60; 0x60]%N ++ post)
          = [0x60; 0x60; 0x60]%N ++ inner ++ [0x60; 0x60; 0x60]%N) as Htrim.
  { unfold trim. rewrite trimStart_ws by done. cbn [app]. rewrite trimStart_id by done.
    replace (0x60%N :: 0x60%N :: 0x60%N
             :: tag ++ ws1 ++ t ++ ws2 ++ 0x60%N :: 0x60%N :: 0x60%N :: post)
      with (([0x60; 0x60; 0x60]%N ++ inner ++ [0x60; 0x60]%N) ++ [0x60%N] ++ post)
      by (unfold inner; repeat (rewrite <- app_assoc || cbn [app]); done).
    rewrite app_assoc, trimEnd_ws by done. rewrite trimEnd_id by done.
    repeat (rewrite <- app_assoc || cbn [app]). done. }
  unfold clean. rewrite Htrim.
  assert (stripLeadingFence ([0x60; 0x60; 0x60]%N ++ inner ++ [0x60; 0x60; 0x60]%N)
          = t ++ ws2 ++ [0x60; 0x60; 0x60]%N) as ->.
  { unfold stripLeadingFence. change (js "```") with ([0x60; 0x60; 0x60]%N).
    cbn [app startsWith N.eqb Pos.eqb andb drop].
    assert (trimStart (ws1 ++ t ++ ws2 ++ [0x60; 0x60; 0x60]%N)
            = t ++ ws2 ++ [0x60; 0x60; 0x60]%N) as Hin.
    { rewrite trimStart_ws by done. unfold t. cbn [app]. by apply trimStart_id. }
    unfold inner. rewrite !drop_0. destruct Htag as [->|[Hlen Hci]].
    - cbn [app].
      assert (startsWithCI ((ws1 ++ t ++ ws2) ++ [0x60; 0x60; 0x60]%N) (js "json") = false)
        as ->; [|by rewrite <- !app_assoc].
      destruct Hws1 as [|c ws1 Hc Hws1].
      + by vm_compute.
      + change (js "json") with (0x6A%N :: js "son"). cbn [app startsWithCI].
        by rewrite (whiteSpace_not_j c Hc).
    - rewrite <- !app_assoc, (startsWithCI_app tag) by done.
      by rewrite drop_app_length'. }
  assert (stripTrailingFence (t ++ ws2 ++ [0x60; 0x60; 0x60]%N) = t) as ->.
  { unfold stripTrailingFence. change (js "```") with ([0x60; 0x60; 0x60]%N).
    assert (trimEnd (t ++ ws2 ++ [0x60; 0x60; 0x60]%N) = (t ++ ws2) ++ [0x60; 0x60; 0x60]%N)
      as ->.
    { replace (t ++ ws2 ++ [0x60; 0x60; 0x60]%N)
        with ((t ++ ws2 ++ [0x60; 0x60]%N) ++ [0x60%N])
        by (repeat (rewrite <- app_assoc || cbn [app]); done).
      rewrite trimEnd_id by done. repeat (rewrite <- app_assoc || cbn [app]). done. }
    assert (endsWith ((t ++ ws2) ++ [0x60; 0x60; 0x60]%N) [0x60; 0x60; 0x60]%N = true) as ->.
    { unfold endsWith. rewrite rev_app_distr. apply startsWith_spec. by eexists. }
    rewrite length_app. cbn [length]. rewrite Nat.add_sub, take_app_length.
    by rewrite trimEnd_ws. }
  unfold trim. by rewrite Hts.
Qed.

(** X11. The extractor reads the same from a fenced object as from the
    object itself: a reply made of an object between two fences, the first
    with the tag [json] (in any case) or none, with white space around, gives
    what the object alone gives. *)
Lemma parseToolCallFromContent_fenced
  (pre tag ws1 body ws2 post : jsstring) (knownToolNames : list jsstring) :
  Forall (fun c => isWhiteSpace c = true) pre ->
  Forall (fun c => isWhiteSpace c = true) ws1 ->
  Forall (fun c => isWhiteSpace c = true) ws2 ->
  Forall (fun c => isWhiteSpace c = true) post ->
  tag = [] \/ (length tag = 4 /\ startsWithCI tag (js "json") = true) ->
  parseToolCallFromContent
    (pre ++ js "```" ++ tag ++ ws1 ++ (0x7B%N :: body ++ [0x7D%N]) ++ ws2
     ++ js "```" ++ post) knownToolNames
  = parseToolCallFromContent (0x7B%N :: body ++ [0x7D%N]) knownToolNames.
Proof.
  intros Hpre Hws1 Hws2 Hpost Htag. unfold parseToolCallFromContent.
  rewrite clean_fenced, clean_braced by done.
  assert (nonEmpty (pre ++ js "```" ++ tag ++ ws1 ++ (0x7B%N :: body ++ [0x7D%N]) ++ ws2
                    ++ js "```" ++ post) = true) as ->; [|done].
  change (js "```") with ([0x60; 0x60; 0x60]%N). by destruct pre.
Qed.

Lemma parseToolCallFromContent_fenced_witness :
  parseToolCallFromContent
    ([] ++ js "```" ++ js "JSON" ++ [0x0A%N]
     ++ (0x7B%N :: jsq "'tool':'get_room','args':{'id':1}" ++ [0x7D%N])
     ++ [0x0A%N] ++ js "```" ++ [0x0A%N])
    Samples.knownTools
  = Some Samples.roomCall.
Proof.
  rewrite parseToolCallFromContent_fenced.
  - by vm_compute.
  - constructor.
  - constructor; [by vm_compute|constructor].
  - constructor; [by vm_compute|constructor].
  - constructor; [by vm_compute|constructor].
  - right. split; by vm_compute.
Defined.

End ExtractorMore.

(** ** Runs of the orchestrator: what is sent out, and the session store *)

Section AlwaysFacts.
Context {R : relation World} `{!PreOrder R}.

Lemma always_ret {A} (a : A) : always R (mret a).
Proof using Type*. intros w. reflexivity. Qed.

Lemma always_throw {A} (e : Error) : always R (@throw A e).
Proof using Type*. intros w. reflexivity. Qed.

Lemma always_getTick : always R getTick.
Proof using Type*. intros w. reflexivity. Qed.

Lemma always_getHistory : always R getHistory.
Proof using Type*. intros w. reflexivity. Qed.

Lemma always_bind {A B} (m : M A) (k : A -> M B) :
  always R m -> (forall a, always R (k a)) -> always R (m ≫= k).
Proof using Type*.
  intros Hm Hk w. rewrite bind_run. specialize (Hm w).
  destruct (m w) as [[e|a] w1]; cbn [snd] in *; [done|].
  etrans; [exact Hm|apply Hk].
Qed.

Lemma always_tryCatch {A} (m : M A) (h : Error -> M A) :
  always R m -> (forall e, always R (h e)) -> always R (tryCatch m h).
Proof using Type*.
  intros Hm Hh w. unfold tryCatch. specialize (Hm w).
  destruct (m w) as [[e|a] w1]; cbn [snd] in *; [|done].
  etrans; [exact Hm|apply Hh].
Qed.

End AlwaysFacts.

#[local] Instance addsOnly_preorder (P : Event -> Prop) : PreOrder (addsOnly P).
Proof.
  split.
  - intros w. exists []. by rewrite app_nil_r.
  - intros w1 w2 w3 (e1 & H1 & P1) (e2 & H2 & P2). exists (e1 ++ e2).
    rewrite H2, H1, app_assoc. split; [done|]. by apply Forall_app.
Qed.

#[local] Instance sameSessions_preorder : PreOrder sameSessions.
Proof.
  split; [by intros w|]. intros w1 w2 w3 H1 H2. unfold sameSessions in *. congruence.
Qed.

Lemma addsOnly_quiet (P : Event -> Prop) (w w' : World) :
  trace w' = trace w -> addsOnly P w w'.
Proof. intros H. exists []. by rewrite app_nil_r. Qed.

Lemma always_emit (P : Event -> Prop) (ev : Event) : P ev -> always (addsOnly P) (emit ev).
Proof. intros H w. exists [ev]. split; [done|]. by constructor. Qed.

Lemma always_onSessions (P : Event -> Prop) {A}
  (f : SessionManager.Sessions -> A * SessionManager.Sessions) :
  always (addsOnly P) (onSessions f).
Proof. intros w. apply addsOnly_quiet. unfold onSessions. by destruct (f (sessions w)). Qed.

(** Takes a computation apart, down to the steps that touch the world;
    [known] is tried on what it cannot take apart. *)
Ltac run_steps_with known :=
  repeat first
    [ apply always_ret | apply always_throw | apply always_getTick
    | apply always_getHistory
    | apply always_bind; [|intros ?]
    | apply always_tryCatch; [|intros ?]
    | apply always_emit; first [exact I | reflexivity]
    | apply always_onSessions
    | (intros ?; apply addsOnly_quiet; reflexivity)
    | (intros ?; reflexivity)
    | match goal with
      | |- always _ (match ?x with _ => _ end) => destruct x
      | |- always _ (let '(_, _) := ?x in _) => destruct x
      end
    | assumption
    | known ].

Ltac run_steps := run_steps_with fail.

Section AgentRuns.
Import OllamaChat Agent.
Context (U : Unicode) (env : Env).

Lemma always_executeTools {R : relation World} `{!PreOrder R} cap ctx :
  (forall toolCall k, always R (runToolCall env ctx toolCall k)) ->
  forall toolCalls k results, always R (executeTools env cap ctx toolCalls k results).
Proof.
  intros Hrun. induction toolCalls as [|tc rest IH]; intros k results;
    cbn [executeTools]; [apply always_ret|].
  destruct (cap <=? Z.of_nat k)%Z; [apply always_ret|].
  apply always_bind; [apply Hrun|intros r; apply IH].
Qed.

(** Every invocation [runToolCall] sends carries the headers made of the
    session context it is given. *)
Lemma emitsOnly_runToolCall ctx toolCall k :
  emitsOnly (invokesWith (ToolExecutor.authHeaders ctx)) (runToolCall env ctx toolCall k).
Proof.
  unfold emitsOnly, runToolCall, ToolExecutor.executeMcpTool, toolArgsOf. run_steps.
Qed.

Lemma emitsOnly_processMessageRest (P : Event -> Prop) agent userMessage userId sessionId ctx :
  (forall req, P (EvChat req)) -> P EvListTools ->
  (forall toolCall k, emitsOnly P (runToolCall env ctx toolCall k)) ->
  emitsOnly P
    (if isConversationalMessage U userMessage
     then converse env userMessage userId sessionId ctx
     else answer U env agent userMessage ctx
          ≫= record env userMessage userId sessionId ctx).
Proof.
  intros Hchat Hlist Hrun.
  unfold emitsOnly, converse, answer, record, decide, summarize, contentOf, addHistory,
    buildResponse, ToolExecutor.getAvailableTools.
  run_steps_with
    ltac:(first [ apply always_emit; first [apply Hchat|exact Hlist]
                | apply always_executeTools; exact Hrun ]).
Qed.

Lemma getSessionContext_eq sessionId w :
  getSessionContext env sessionId w
  = (inr (SessionManager.getSessionContext (sessions w) (clock env (tick w))
            (clock env (S (tick w))) sessionId).1,
     {| tick := S (S (tick w));
        sessions := (SessionManager.getSessionContext (sessions w) (clock env (tick w))
                       (clock env (S (tick w))) sessionId).2;
        conversationHistory := conversationHistory w; trace := trace w |}).
Proof.
  unfold getSessionContext. rewrite !bind_now. unfold onSessions.
  cbn [tick sessions conversationHistory trace].
  by destruct (SessionManager.getSessionContext _ _ _ _).
Qed.

Lemma processMessage_unfold agent userMessage userId sessionId w :
  let read := SessionManager.getSessionContext (sessions w) (clock env (tick w))
                (clock env (S (tick w))) sessionId in
  let w1 := {| tick := S (S (tick w)); sessions := read.2;
               conversationHistory := conversationHistory w; trace := trace w |} in
  processMessage U env agent userMessage userId sessionId w
  = tryCatch
      (if isConversationalMessage U userMessage
       then converse env userMessage userId sessionId read.1
       else answer U env agent userMessage read.1
            ≫= record env userMessage userId sessionId read.1)
      (fun error =>
         buildResponse env false (js "Error: " ++ message error) [] [] userId sessionId
           false) w1.
Proof.
  intros read w1. unfold processMessage, tryCatch, processMessageBody.
  by rewrite bind_run, getSessionContext_eq.
Qed.

End AgentRuns.

Section OrchestratorMore.
Import OllamaChat Agent.
Context (U : Unicode) (env : Env).

(** The headers made of a session context hold a token only when the
    session held it, unexpired, at the reading of the clock. *)
Lemma authHeaders_of_session (sessions : SessionManager.Sessions) (now1 now2 : Z)
  (sessionId : option jsstring) (tok uid : jsstring) :
  ToolExecutor.authHeaders
    (SessionManager.getSessionContext sessions now1 now2 sessionId).1 = Some (tok, uid) ->
  exists s, sessions !! SessionManager.sidOf sessionId = Some s
            /\ SessionManager.token s = tok /\ tok ≠ []
            /\ (SessionManager.expiresAt s ≠ 0 -> now2 <= SessionManager.expiresAt s)%Z.
Proof.
  unfold ToolExecutor.authHeaders, SessionManager.getSessionContext.
  destruct (sessions !! SessionManager.sidOf sessionId) as [s|] eqn:Hs; [|done].
  rewrite getToken_resolved.
  destruct (SessionManager.getToken sessions now2 sessionId) as [t sessions'] eqn:Et.
  cbn [fst SessionManager.ctxToken SessionManager.ctxUserId].
  destruct t as [t|]; [|done]. destruct (nonEmpty t) eqn:Hne; [|done].
  intros [= <- _].
  assert ((SessionManager.getToken sessions now2 sessionId).1 = Some t) as Ht
    by (by rewrite Et).
  apply getToken_Some in Ht as (s' & Hs' & Htok & Hexp & _).
  rewrite Hs in Hs'. injection Hs' as <-. exists s. split_and!; try done.
  by destruct t.
Qed.

(** The events of a pass, as to the headers of its invocations. *)
Lemma processMessage_invokesWith agent userMessage userId sessionId w :
  let context := (SessionManager.getSessionContext (sessions w) (clock env (tick w))
                    (clock env (S (tick w))) sessionId).1 in
  addsOnly (invokesWith (ToolExecutor.authHeaders context)) w
    (processMessage U env agent userMessage userId sessionId w).2.
Proof.
  intros context. rewrite processMessage_unfold. cbv zeta. fold context.
  match goal with |- addsOnly ?P w (tryCatch ?m ?h ?w1).2 =>
    assert (always (addsOnly P) (tryCatch m h)) as Hrun
  end.
  { apply always_tryCatch.
    - apply emitsOnly_processMessageRest; [done|done|]. intros tc k.
      apply emitsOnly_runToolCall.
    - intros e. unfold buildResponse. run_steps. }
  match goal with |- addsOnly _ w (_ ?w1).2 => destruct (Hrun w1) as (evs & Htr & Hall) end.
  by exists evs.
Qed.


(** What [getSessionContext] does to the store: nothing, or the removal of
    the session it reads, when that session holds a token and an expiry that
    the clock has passed. *)
Lemma getSessionContext_store (sessions : SessionManager.Sessions) (now1 now2 : Z)
  (sessionId : option jsstring) :
  let after := (SessionManager.getSessionContext sessions now1 now2 sessionId).2 in
  after = sessions
  \/ (after = delete (SessionManager.sidOf sessionId) sessions
      /\ exists s, sessions !! SessionManager.sidOf sessionId = Some s
                   /\ SessionManager.token s ≠ []
                   /\ SessionManager.expiresAt s ≠ 0%Z
                   /\ (SessionManager.expiresAt s < now2)%Z).
Proof.
  unfold SessionManager.getSessionContext.
  destruct (sessions !! SessionManager.sidOf sessionId) as [s|] eqn:Hs; [|by left].
  rewrite getToken_resolved. unfold SessionManager.getToken, SessionManager.expired.
  rewrite Hs. destruct (SessionManager.token s) as [|c t] eqn:Ht; [by left|].
  cbn [nonEmpty negb].
  destruct (Z.eqb_spec (SessionManager.expiresAt s) 0); [by left|]. cbn [negb andb].
  destruct (Z.ltb_spec (SessionManager.expiresAt s) now2); [|by left].
  right. cbn [snd]. unfold SessionManager.clearSession. rewrite sidOf_idemp.
  split; [done|]. exists s. by rewrite Ht.
Qed.

(** X13. Processing a message never opens or alters a session. The store after a
    pass is the store before it, but possibly for the session of the pass,
    which is removed when its token had expired as the pass began. *)
Lemma processMessage_sessions agent userMessage userId sessionId w :
  let after := sessions (processMessage U env agent userMessage userId sessionId w).2 in
  after ⊆ sessions w
  /\ forall k s,
       sessions w !! k = Some s -> after !! k = None ->
       k = SessionManager.sidOf sessionId
       /\ SessionManager.token s ≠ [] /\ SessionManager.expiresAt s ≠ 0%Z
       /\ (SessionManager.expiresAt s < clock env (S (tick w)))%Z.
Proof.
  intros after.
  assert (after = (SessionManager.getSessionContext (sessions w) (clock env (tick w))
                     (clock env (S (tick w))) sessionId).2) as ->.
  { unfold after. rewrite processMessage_unfold. cbv zeta.
    match goal with |- sessions (tryCatch ?m ?h ?w1).2 = _ =>
      assert (always sameSessions (tryCatch m h)) as Hrun
    end.
    { unfold converse, answer, record, decide, summarize, contentOf, addHistory,
        buildResponse, ToolExecutor.getAvailableTools, callOllamaWithTools.
      run_steps_with
        ltac:(apply (@always_executeTools env sameSessions _); intros ? ?;
              unfold runToolCall, ToolExecutor.executeMcpTool, toolArgsOf; run_steps). }
    match goal with |- sessions (_ ?w1).2 = _ => exact (Hrun w1) end. }
  destruct (getSessionContext_store (sessions w) (clock env (tick w))
              (clock env (S (tick w))) sessionId) as [->|[-> (s & Hs & Htok & Hexp & Hnow)]].
  - split; [done|]. intros k s Hk Hnone. congruence.
  - split; [apply delete_subseteq|]. intros k s' Hk Hnone.
    destruct (base.decide (k = SessionManager.sidOf sessionId)) as [->|Hne].
    + rewrite Hs in Hk. injection Hk as <-. done.
    + rewrite lookup_delete_ne in Hnone by done. congruence.
Qed.

End OrchestratorMore.

Section RequestBounds.
Import OllamaChat Agent.
Context (U : Unicode) (env : Env) (p : Event -> bool).

Lemma sendsAtMost_weaken {A} (n n' : nat) (m : M A) :
  n <= n' -> sendsAtMost p n m -> sendsAtMost p n' m.
Proof. intros Hle H w. destruct (H w) as (evs & Htr & Hn). exists evs. split; [done|lia]. Qed.

Lemma sendsAtMost_silent {A} (m : M A) :
  emitsOnly (fun ev => p ev = false) m -> sendsAtMost p 0 m.
Proof.
  intros H w. destruct (H w) as (evs & Htr & Hall). exists evs. split; [done|].
  clear Htr. induction Hall as [|ev evs Hev Hall IH]; [cbn; lia|]. simpl. by rewrite Hev.
Qed.

Lemma sendsAtMost_emit (ev : Event) : sendsAtMost p 1 (emit ev).
Proof.
  intros w. exists [ev]. split; [done|]. simpl. destruct (p ev); cbn; lia.
Qed.

Lemma sendsAtMost_bind {A B} (n1 n2 : nat) (m : M A) (k : A -> M B) :
  sendsAtMost p n1 m -> (forall a, sendsAtMost p n2 (k a)) ->
  sendsAtMost p (n1 + n2) (m ≫= k).
Proof.
  intros Hm Hk w. rewrite bind_run. destruct (Hm w) as (e1 & H1 & L1).
  destruct (m w) as [[e|a] w1]; cbn [snd] in *.
  - exists e1. split; [done|lia].
  - destruct (Hk a w1) as (e2 & H2 & L2). exists (e1 ++ e2).
    rewrite H2, H1, app_assoc, List.filter_app, length_app. split; [done|lia].
Qed.

Lemma sendsAtMost_tryCatch {A} (n1 n2 : nat) (m : M A) (h : Error -> M A) :
  sendsAtMost p n1 m -> (forall e, sendsAtMost p n2 (h e)) ->
  sendsAtMost p (n1 + n2) (tryCatch m h).
Proof.
  intros Hm Hh w. unfold tryCatch. destruct (Hm w) as (e1 & H1 & L1).
  destruct (m w) as [[e|a] w1]; cbn [snd] in *.
  - destruct (Hh e w1) as (e2 & H2 & L2). exists (e1 ++ e2).
    rewrite H2, H1, app_assoc, List.filter_app, length_app. split; [done|lia].
  - exists e1. split; [done|lia].
Qed.

End RequestBounds.

(** Proves that a computation sends nothing of a kind, by taking it apart. *)
Ltac quiet :=
  apply sendsAtMost_silent;
  unfold emitsOnly, Agent.converse, Agent.answer, Agent.record, Agent.decide,
    Agent.summarize, Agent.contentOf, Agent.addHistory, Agent.buildResponse,
    ToolExecutor.getAvailableTools, OllamaChat.callOllamaWithTools, getSessionContext;
  run_steps_with
    ltac:(apply (@always_executeTools _ (addsOnly _) _); intros ? ?;
          unfold Agent.runToolCall, ToolExecutor.executeMcpTool, Agent.toolArgsOf;
          run_steps).

Section RequestCounts.
Import OllamaChat Agent.
Context (U : Unicode) (env : Env).

Lemma sendsAtMost_chat_callOllamaWithTools messages tools temperature :
  sendsAtMost isChat 1 (callOllamaWithTools env messages tools temperature).
Proof.
  unfold callOllamaWithTools.
  apply (sendsAtMost_tryCatch isChat 1 0); [|intros e; quiet].
  apply (sendsAtMost_bind isChat 0 1); [quiet|intros msgs].
  apply (sendsAtMost_bind isChat 0 1); [quiet|intros t].
  apply (sendsAtMost_bind isChat 1 0); [apply sendsAtMost_emit|intros _]. quiet.
Qed.

Lemma sendsAtMost_chat_decide agent userMessage :
  sendsAtMost isChat 2 (decide U env agent userMessage).
Proof.
  unfold decide.
  apply (sendsAtMost_bind isChat 0 2); [quiet|intros allTools].
  apply (sendsAtMost_bind isChat 0 2); [quiet|intros history].
  apply (sendsAtMost_bind isChat 1 1);
    [apply sendsAtMost_chat_callOllamaWithTools|intros llm].
  destruct llm.2; [|apply (sendsAtMost_weaken isChat 0); [lia|quiet]].
  destruct (ToolFilter.filterRelevantTools _ _ _ _);
    [apply (sendsAtMost_weaken isChat 0); [lia|quiet]|].
  apply (sendsAtMost_bind isChat 1 0);
    [apply sendsAtMost_chat_callOllamaWithTools|intros retry].
  destruct retry.2; quiet.
Qed.

Lemma sendsAtMost_chat_summarize userMessage vi message results :
  sendsAtMost isChat 1 (summarize env userMessage vi message results).
Proof.
  unfold summarize. destruct results.
  - apply (sendsAtMost_weaken isChat 0); [lia|quiet].
  - apply (sendsAtMost_bind isChat 1 0);
      [apply sendsAtMost_chat_callOllamaWithTools|intros ?]. quiet.
Qed.

(** X14. One pass sends the model at most three requests (the question, one
    retry, the summary) and fetches the catalog at most once, whatever the
    message and whatever the backends answer. *)
Lemma processMessage_requests agent userMessage userId sessionId :
  sendsAtMost isChat 3 (processMessage U env agent userMessage userId sessionId)
  /\ sendsAtMost isListTools 1 (processMessage U env agent userMessage userId sessionId).
Proof.
  unfold processMessage, processMessageBody. split.
  - apply (sendsAtMost_tryCatch isChat 3 0); [|intros e; quiet].
    apply (sendsAtMost_bind isChat 0 3); [quiet|intros ctx].
    destruct (isConversationalMessage U userMessage).
    + unfold converse. apply (sendsAtMost_bind isChat 3 0); [|intros ?; quiet].
      apply (sendsAtMost_weaken isChat 1); [lia|].
      apply sendsAtMost_chat_callOllamaWithTools.
    + apply (sendsAtMost_bind isChat 3 0); [|intros ?; quiet]. unfold answer.
      apply (sendsAtMost_bind isChat 2 1); [apply sendsAtMost_chat_decide|intros d].
      apply (sendsAtMost_bind isChat 0 1); [quiet|intros results].
      apply (sendsAtMost_bind isChat 1 0); [apply sendsAtMost_chat_summarize|intros ?].
      quiet.
  - apply (sendsAtMost_tryCatch isListTools 1 0); [|intros e; quiet].
    apply (sendsAtMost_bind isListTools 0 1); [quiet|intros ctx].
    destruct (isConversationalMessage U userMessage);
      [apply (sendsAtMost_weaken isListTools 0); [lia|quiet]|].
    apply (sendsAtMost_bind isListTools 1 0); [|intros ?; quiet]. unfold answer.
    apply (sendsAtMost_bind isListTools 1 0); [|intros ?; quiet]. unfold decide.
    apply (sendsAtMost_bind isListTools 1 0); [|intros ?; quiet].
    unfold ToolExecutor.getAvailableTools.
    apply (sendsAtMost_bind isListTools 0 1); [quiet|intros t].
    apply (sendsAtMost_bind isListTools 1 0); [apply sendsAtMost_emit|intros ?]. quiet.
Qed.

End RequestCounts.

(** ** The routes *)

Section RoutesMore.
Import ChatRoutes.
Context (U : Unicode) (env : Env) (agent : Agent.AgentConfig).

Lemma setToken_eq tok uid sessionId data w :
  setToken env tok uid sessionId data w
  = (inr tt,
     {| tick := S (S (tick w));
        sessions :=
          alter (fun s => {| SessionManager.token := SessionManager.token s;
                             SessionManager.userId := SessionManager.userId s;
                             SessionManager.expiresAt := SessionManager.expiresAt s;
                             SessionManager.refreshToken := SessionManager.refreshToken s;
                             SessionManager.loginTime := clock env (S (tick w)) |})
            (SessionManager.sidOf sessionId)
            (SessionManager.setToken (sessions w) (clock env (tick w)) tok uid sessionId
               data);
        conversationHistory := conversationHistory w; trace := trace w |}).
Proof. reflexivity. Qed.


(** X20. A token sent with a chat request is the one its tool invocations carry:
    when the body holds a message and an [authToken], and the clock has not
    advanced by more than the hour the session lasts while the request is
    handled, every tool invocation of the pass carries that token, with the
    user id of the body, or [anonymous] without one. *)
Lemma postChat_uses_the_token (body : ChatBody) (w : World) (userMessage tok : jsstring) :
  SessionManager.orNull (bodyMessage body) = Some userMessage ->
  SessionManager.orNull (authToken body) = Some tok ->
  (clock env (3 + tick w) <= clock env (tick w) + 3600 * 1000)%Z ->
  addsOnly
    (invokesWith
       (Some (tok, default (js "anonymous") (SessionManager.orNull (bodyUserId body)))))
    w (postChat U env agent body w).2.
Proof.
  intros Hmsg Htok Hclock. unfold postChat, tryCatch. rewrite Hmsg, Htok, bind_run.
  rewrite setToken_eq, bind_run.
  set (uid := default (js "anonymous") (SessionManager.orNull (bodyUserId body))).
  match goal with |- context [Agent.processMessage _ _ _ _ _ _ ?x] => set (w1 := x) end.
  pose proof (processMessage_invokesWith U env agent userMessage (bodyUserId body)
                (bodySessionId body) w1) as Hrun. cbv zeta in Hrun.
  assert (ToolExecutor.authHeaders
            (SessionManager.getSessionContext (sessions w1) (clock env (tick w1))
               (clock env (S (tick w1))) (bodySessionId body)).1 = Some (tok, uid)) as Hauth.
  { unfold w1. cbn [sessions tick].
    unfold SessionManager.getSessionContext, SessionManager.setToken.
    rewrite lookup_alter_eq, lookup_insert_eq. cbn [fmap option_fmap option_map].
    rewrite getToken_resolved. unfold SessionManager.getToken, SessionManager.expired.
    rewrite lookup_alter_eq, lookup_insert_eq.
    cbn [fmap option_fmap option_map SessionManager.token SessionManager.expiresAt
         SessionManager.expiresIn SessionManager.noAdditionalData].
    assert (nonEmpty tok = true) as Hne.
    { revert Htok. unfold SessionManager.orNull. destruct (authToken body) as [t|]; [|done].
      destruct (nonEmpty t) eqn:E; [|done]. by intros [= <-]. }
    rewrite Hne. cbn [negb andb].
    assert (nonEmpty uid = true) as Hu.
    { unfold uid, SessionManager.orNull. destruct (bodyUserId body) as [u|]; [|done].
      by destruct (nonEmpty u) eqn:E. }
    destruct (Z.eqb_spec (clock env (tick w) + 3600 * 1000) 0) as [E0|E0];
      cbn [negb andb fst].
    - unfold ToolExecutor.authHeaders.
      cbn [SessionManager.ctxToken SessionManager.ctxUserId SessionManager.userId].
      by rewrite Hne, Hu.
    - destruct (Z.ltb_spec (clock env (tick w) + 3600 * 1000)
                  (clock env (S (S (S (tick w)))))) as [Hlt|Hge]; [cbn in Hclock; lia|].
      unfold ToolExecutor.authHeaders.
      cbn [fst SessionManager.ctxToken SessionManager.ctxUserId SessionManager.userId].
      by rewrite Hne, Hu. }
  rewrite Hauth in Hrun. destruct Hrun as (evs & Htr & Hall).
  destruct (Agent.processMessage U env agent userMessage (bodyUserId body)
              (bodySessionId body) w1) as [[e|result] w2];
    unfold mret, M_ret; cbn [snd] in *; exists evs; by split.
Qed.

(** X21. After [POST /api/session/logout], [GET /api/session] for that session
    reports it as unauthenticated, with no token and no user; both routes
    answer 200. *)
Lemma logout_then_session (body query : ChatBody) (w : World) :
  SessionManager.sidOf (bodySessionId query) = SessionManager.sidOf (bodySessionId body) ->
  exists w1 w2,
    postLogout body w = (inr {| status := 200; payload := Done (js "Session cleared") |}, w1)
    /\ getSession env query w1
       = (inr {| status := 200;
                 payload :=
                   SessionInfo
                     {| SessionManager.ctxSessionId :=
                          SessionManager.sidOf (bodySessionId body);
                        SessionManager.isAuthenticated := false;
                        SessionManager.ctxToken := None;
                        SessionManager.ctxUserId := None;
                        SessionManager.ctxExpiresAt := None;
                        SessionManager.ctxRefreshToken := None |} |}, w2)
    /\ sessions w2 = delete (SessionManager.sidOf (bodySessionId body)) (sessions w).
Proof.
  intros Hsid. unfold postLogout, getSession, tryCatch. eexists _, _.
  split; [reflexivity|]. rewrite bind_run, getSessionContext_eq.
  cbn [sessions tick]. unfold SessionManager.clearSession.
  rewrite getSessionContext_absent
    by (rewrite sidOf_idemp, Hsid; apply lookup_delete_eq).
  rewrite sidOf_idemp, Hsid. split; reflexivity.
Qed.

End RoutesMore.

(** ** The tool gateway and the loop over the calls *)

Section GatewayMore.
Import OllamaChat Agent.
Context (U : Unicode) (env : Env).

Lemma executeMcpTool_eq toolName args ctx w :
  ToolExecutor.executeMcpTool env toolName args ctx w
  = (inr (match mcpInvoke env (tick w) toolName args (ToolExecutor.authHeaders ctx) with
          | inr data => data
          | inl e =>
              JObj [(js "success", JBool false);
                    (js "error",
                     match responseError e with
                     | Some err => if Json.truthy err then err else JStr (httpMessage e)
                     | None => JStr (httpMessage e)
                     end)]
          end),
     {| tick := S (tick w); sessions := sessions w;
        conversationHistory := conversationHistory w;
        trace := trace w ++ [EvInvoke toolName args (ToolExecutor.authHeaders ctx)] |}).
Proof. reflexivity. Qed.


(** X18. A call whose arguments are a string that does not parse as JSON is not
    sent: it leaves an entry with an error and no result, and nothing goes
    out. A call without arguments, or with the empty string for
    arguments, is sent with the empty object. *)
Lemma runToolCall_arguments ctx toolCall k w :
  (forall s, fnArguments toolCall = Some (JStr s) ->
             Json.parse (if nonEmpty s then s else js "{}") = None ->
             exists r, runToolCall env ctx toolCall k w = (inr r, w)
                       /\ is_Some (trError r) /\ trResult r = None)
  /\ (fnArguments toolCall = None \/ fnArguments toolCall = Some (JStr []) ->
      exists r w',
        runToolCall env ctx toolCall k w = (inr r, w')
        /\ trace w' = trace w ++ [EvInvoke (fnName toolCall) (JObj [])
                                    (ToolExecutor.authHeaders ctx)]
        /\ trArgs r = Some (JObj []) /\ trError r = None).
Proof.
  split.
  - intros s Hs Hparse. unfold runToolCall, tryCatch, toolArgsOf.
    rewrite Hs, Hparse, bind_run. eexists. split; [reflexivity|]. by split; [eexists|].
  - intros Hargs.
    assert (toolArgsOf (fnArguments toolCall) = mret (JObj [])) as Hobj.
    { destruct Hargs as [-> | ->]; [done|]. unfold toolArgsOf. cbn [nonEmpty].
      assert (Json.parse (js "{}") = Some (JObj [])) as -> by (by vm_compute). done. }
    unfold runToolCall, tryCatch. rewrite Hobj, bind_ret, bind_run.
    rewrite executeMcpTool_eq. eexists _, _. split; [reflexivity|]. by split.
Qed.

End GatewayMore.

(** ** A pass without catalog *)

Section DegradedRuns.
Import OllamaChat Agent.
Context (U : Unicode) (env : Env).

Lemma getAvailableTools_eq w :
  ToolExecutor.getAvailableTools env w
  = (inr (match mcpListTools env (tick w) with
          | inr (Some tools) => tools
          | _ => []
          end),
     {| tick := S (tick w); sessions := sessions w;
        conversationHistory := conversationHistory w;
        trace := trace w ++ [EvListTools] |}).
Proof. reflexivity. Qed.

Lemma filterRelevantTools_nil userMessage maxTools :
  ToolFilter.filterRelevantTools U [] userMessage maxTools = [].
Proof. unfold ToolFilter.filterRelevantTools. cbv zeta. by destruct maxTools. Qed.

(** X15. When the tool server cannot be reached, or lists no tool, a message
    that is not conversational is still answered: the catalog is asked for,
    then the model is sent one request, at temperature 0, with the system
    prompt as it is (no tool prompt), the last six turns of the history at
    most and the message; there is no retry. When the reply proposes no
    call, nothing else is sent, and the answer is the text of the reply, or
    an apology in the language of the message when the reply has none. *)
Lemma processMessage_without_catalog agent userMessage userId sessionId w m :
  isConversationalMessage U userMessage = false ->
  match mcpListTools env (2 + tick w) with
  | inr (Some tools) => tools = []
  | _ => True
  end ->
  let history := conversationHistory w in
  let req :=
    {| reqMessages :=
         [ {| role := system; content := systemPrompt agent |} ]
         ++ ((fun t => {| role := turnRole t; content := turnContent t |})
               <$> drop (length history - 6) history)
         ++ [ {| role := user; content := userMessage |} ];
       reqTemperature := js "0" |} in
  ollamaChat env (3 + tick w) req = inr (Some m) ->
  nativeCalls m = [] ->
  exists resp w',
    processMessage U env agent userMessage userId sessionId w = (inr resp, w')
    /\ success resp = true
    /\ response resp
       = (if nonEmpty (msgContent m) then msgContent m
          else if isNonEnglish U userMessage then sorryVi else sorryEn)
    /\ toolsCalled resp = [] /\ toolResults resp = []
    /\ trace w' = trace w ++ [EvListTools; EvChat req].
Proof.
  intros Hconv Hlist history req Hchat Hcalls.
  rewrite processMessage_unfold. cbv zeta. unfold tryCatch. rewrite Hconv, bind_run.
  unfold answer. rewrite bind_run. unfold decide.
  rewrite bind_run, getAvailableTools_eq. cbn [tick].
  assert (match mcpListTools env (S (S (tick w))) with
          | inr (Some tools) => tools
          | _ => []
          end = []) as ->.
  { revert Hlist. cbn [Nat.add].
    by destruct (mcpListTools env (S (S (tick w)))) as [e|[tools|]]. }
  rewrite filterRelevantTools_nil.
  change ((getHistory ≫= ?k) ?w0) with (k (conversationHistory w0) w0).
  cbv beta. cbn [conversationHistory]. fold history. rewrite bind_run.
  match goal with |- context [callOllamaWithTools env ?msgs [] ?t ?w0] =>
    destruct (callOllamaWithTools_plain_run env msgs t w0) as (w3 & Htr3 & _ & ->)
  end.
  cbn [tick] in *. fold req in Htr3 |- *.
  change (S (S (S (tick w)))) with (3 + tick w). rewrite Hchat, Hcalls.
  unfold mret at 1, M_ret at 1. cbv beta iota. cbn [fst snd].
  cbn [executeTools]. rewrite bind_ret. unfold summarize, contentOf.
  rewrite bind_run, bind_ret. unfold mret, M_ret. cbv beta iota.
  match goal with |- context [record env ?a ?b ?c ?d ?f w3] =>
    destruct (record_run env a b c d f w3)
      as (resp & w' & t1 & t2 & -> & Hok & Htext & Hcalled & Hresults & Htr & _)
  end.
  exists resp, w'. split; [done|]. cbn [fst snd fmap list_fmap] in *.
  split_and!; try done. rewrite Htr, Htr3. cbn [trace]. by rewrite <- app_assoc.
Qed.

End DegradedRuns.

(** ** The earlier orchestrator *)

Section LegacyMore.
Context (env : Env) (toolContextOf : list Tool -> jsstring)
  (parseToolCalls : jsstring -> list LegacyAgent.Call).

(** X23. In the earlier orchestrator a successful response names, in
    [toolsCalled], every call read in the reply of the model, while
    [toolResults] holds an entry for those that were run only: as many as
    the calls, or as the cap when there are more; and when the cap is [NaN]
    all the calls are run. *)
Lemma legacy_toolsCalled_names_every_call systemPrompt cap userMessage userId sessionId
  w resp w' :
  LegacyAgent.processMessage env toolContextOf parseToolCalls systemPrompt cap
    userMessage userId sessionId w = (inr resp, w') ->
  LegacyAgent.success resp = true ->
  exists reply results,
    LegacyAgent.toolsCalled resp = Some (LegacyAgent.callName <$> parseToolCalls reply)
    /\ LegacyAgent.toolResults resp = Some results
    /\ length results
       = match cap with
         | Some c => min (length (parseToolCalls reply)) (Z.to_nat c)
         | None => length (parseToolCalls reply)
         end.
Proof.
  unfold LegacyAgent.processMessage, tryCatch.
  destruct (legacy_processMessageBody_run env toolContextOf parseToolCalls systemPrompt
              cap userMessage userId sessionId w) as (t1 & _ & Hrun).
  destruct (LegacyAgent.processMessageBody _ _ _ _ _ _ _ _ w) as [[e|r] w1].
  - rewrite bind_now. by intros [= <- _].
  - intros [= <- <-] _.
    destruct Hrun as (reply & results & t2 & _ & Hcalled & Hresults & Hlen & _).
    by exists reply, results.
Qed.

(** X22. Every pass of the earlier orchestrator returns a response and records
    the turn of the user. A pass that succeeds adds one more turn after it,
    the reply; a pass that fails adds none, answers with the apology, and
    its response has no [toolsCalled], [toolResults] and
    [isAuthenticated]. *)
Lemma legacy_processMessage_history systemPrompt cap userMessage userId sessionId w :
  exists resp w' t1,
    LegacyAgent.processMessage env toolContextOf parseToolCalls systemPrompt cap
      userMessage userId sessionId w = (inr resp, w')
    /\ (turnRole t1, turnContent t1) = (user, userMessage)
    /\ if LegacyAgent.success resp
       then exists t2, conversationHistory w' = conversationHistory w ++ [t1; t2]
       else conversationHistory w' = conversationHistory w ++ [t1]
            /\ LegacyAgent.response resp = LegacyAgent.apology
            /\ LegacyAgent.toolsCalled resp = None
            /\ LegacyAgent.toolResults resp = None
            /\ LegacyAgent.respIsAuthenticated resp = None.
Proof.
  unfold LegacyAgent.processMessage, tryCatch.
  destruct (legacy_processMessageBody_run env toolContextOf parseToolCalls systemPrompt
              cap userMessage userId sessionId w) as (t1 & Ht1 & Hrun).
  destruct (LegacyAgent.processMessageBody _ _ _ _ _ _ _ _ w) as [[e|r] w1].
  - rewrite bind_now. eexists _, _, t1. split; [reflexivity|]. split; [exact Ht1|].
    cbn [LegacyAgent.success LegacyAgent.response LegacyAgent.toolsCalled
         LegacyAgent.toolResults LegacyAgent.respIsAuthenticated conversationHistory].
    by split_and!.
  - destruct Hrun as (reply & results & t2 & Hok & _ & _ & _ & Hh).
    exists r, w1, t1. split; [done|]. split; [exact Ht1|]. rewrite Hok. by exists t2.
Qed.

End LegacyMore.

(** ** Instances *)

Section MoreRuns.
Import OllamaChat Agent.

Lemma postChat_uses_the_token_witness :
  addsOnly
    (invokesWith
       (Some (js "jwt-abc",
              default (js "anonymous")
                (SessionManager.orNull (ChatRoutes.bodyUserId Samples.tokenBody)))))
    Samples.freshWorld
    (ChatRoutes.postChat asciiUnicode Samples.busyEnv Samples.theAgent Samples.tokenBody
       Samples.freshWorld).2.
Proof.
  apply (postChat_uses_the_token asciiUnicode Samples.busyEnv Samples.theAgent
           Samples.tokenBody Samples.freshWorld Samples.roomsQuestion (js "jwt-abc")).
  - reflexivity.
  - reflexivity.
  - by vm_compute.
Defined.

(** The run of that request: four invocations, each with the token. *)
Lemma postChat_token_run :
  let w' := (ChatRoutes.postChat asciiUnicode Samples.busyEnv Samples.theAgent
               Samples.tokenBody Samples.freshWorld).2 in
  List.filter isInvoke (trace w')
  = ((fun args => EvInvoke (js "get_room") args (Some (js "jwt-abc", js "anonymous")))
       <$> [ JObj [(js "id", JNum (js "1"))]; JObj [(js "id", JNum (js "2"))];
             JObj [(js "id", JNum (js "4"))] ])
      ++ [ EvInvoke (js "get_house") (JObj [(js "id", JNum (js "5"))])
             (Some (js "jwt-abc", js "anonymous")) ].
Proof. by vm_compute. Qed.

Lemma logout_then_session_witness :
  exists w1 w2,
    ChatRoutes.postLogout Samples.tokenBody Samples.loggedInWorld
    = (inr {| ChatRoutes.status := 200;
              ChatRoutes.payload := ChatRoutes.Done (js "Session cleared") |}, w1)
    /\ ChatRoutes.getSession Samples.busyEnv Samples.tokenBody w1
       = (inr {| ChatRoutes.status := 200;
                 ChatRoutes.payload :=
                   ChatRoutes.SessionInfo
                     {| SessionManager.ctxSessionId :=
                          SessionManager.sidOf (ChatRoutes.bodySessionId Samples.tokenBody);
                        SessionManager.isAuthenticated := false;
                        SessionManager.ctxToken := None;
                        SessionManager.ctxUserId := None;
                        SessionManager.ctxExpiresAt := None;
                        SessionManager.ctxRefreshToken := None |} |}, w2)
    /\ sessions w2
       = delete (SessionManager.sidOf (ChatRoutes.bodySessionId Samples.tokenBody))
           (sessions Samples.loggedInWorld).
Proof.
  by apply (logout_then_session Samples.busyEnv Samples.tokenBody Samples.tokenBody
              Samples.loggedInWorld).
Defined.

Lemma processMessage_without_catalog_witness :
  exists resp w',
    processMessage asciiUnicode Samples.offlineEnv Samples.theAgent Samples.roomsQuestion
      None None Samples.freshWorld = (inr resp, w')
    /\ success resp = true
    /\ response resp = js "Hello! How can I help you today?"
    /\ toolsCalled resp = [].
Proof.
  destruct (processMessage_without_catalog asciiUnicode Samples.offlineEnv Samples.theAgent
              Samples.roomsQuestion None None Samples.freshWorld Samples.friendlyReply)
    as (resp & w' & Hrun & Hok & Htext & Hcalled & _).
  - by vm_compute.
  - by vm_compute.
  - reflexivity.
  - reflexivity.
  - exists resp, w'. split; [exact Hrun|]. split; [exact Hok|]. split; [|exact Hcalled].
    rewrite Htext. by vm_compute.
Defined.

Lemma legacy_toolsCalled_names_every_call_witness :
  exists resp w',
    LegacyAgent.processMessage Samples.busyEnv Samples.noToolContext
      Samples.alwaysEightCalls (systemPrompt Samples.theAgent) (Some 5%Z)
      Samples.roomsQuestion None None Samples.freshWorld = (inr resp, w')
    /\ (length <$> LegacyAgent.toolsCalled resp) = Some 8
    /\ (length <$> LegacyAgent.toolResults resp) = Some 5.
Proof.
  eexists _, _. split; [vm_compute; reflexivity|].
  edestruct (legacy_toolsCalled_names_every_call Samples.busyEnv Samples.noToolContext
               Samples.alwaysEightCalls (systemPrompt Samples.theAgent) (Some 5%Z)
               Samples.roomsQuestion None None Samples.freshWorld)
    as (reply & results & Hcalled & Hresults & Hlen).
  - vm_compute. reflexivity.
  - reflexivity.
  - split; [by vm_compute|by vm_compute].
Defined.

End MoreRuns.

(** ** The shape of the responses *)

Section ResponseShape.
Import OllamaChat Agent.
Context (U : Unicode) (env : Env).

Lemma returnsOnly_bind {A B} (Q : B -> Prop) (m : M A) (k : A -> M B) :
  (forall a, returnsOnly Q (k a)) -> returnsOnly Q (m ≫= k).
Proof.
  intros Hk w b w'. rewrite bind_run. destruct (m w) as [[e|a] w1]; [done|]. apply Hk.
Qed.

Lemma returnsOnly_tryCatch {A} (Q : A -> Prop) (m : M A) (h : Error -> M A) :
  returnsOnly Q m -> (forall e, returnsOnly Q (h e)) -> returnsOnly Q (tryCatch m h).
Proof.
  intros Hm Hh w a w'. unfold tryCatch. destruct (m w) as [[e|a'] w1] eqn:E.
  - apply Hh.
  - intros [= <- <-]. by eapply Hm.
Qed.

Lemma returnsOnly_buildResponse (Q : Response -> Prop) ok text called results userId
  sessionId authenticated :
  (forall stamp,
     Q {| success := ok; response := text; toolsCalled := called; toolResults := results;
          respUserId := userId; respSessionId := SessionManager.sidOf sessionId;
          respIsAuthenticated := authenticated; respTimestamp := stamp |}) ->
  returnsOnly Q (buildResponse env ok text called results userId sessionId authenticated).
Proof. intros HQ w a w'. rewrite buildResponse_eq. intros [= <- _]. apply HQ. Qed.

(** X16. Every response of [processMessage], whatever the path it comes from:
    [toolsCalled] lists the names of the entries of [toolResults], in their
    order; [sessionId] is the id given, or [default], and is never empty; a
    failure response lists no tool, has the user id as given and
    [isAuthenticated] false; a success response reports the session as it
    was read when the pass began. *)
Lemma processMessage_response_shape agent userMessage userId sessionId w resp w' :
  processMessage U env agent userMessage userId sessionId w = (inr resp, w') ->
  let context := (SessionManager.getSessionContext (sessions w) (clock env (tick w))
                    (clock env (S (tick w))) sessionId).1 in
  toolsCalled resp = trName <$> toolResults resp
  /\ respSessionId resp = SessionManager.sidOf sessionId
  /\ respSessionId resp ≠ []
  /\ (success resp = false ->
      toolResults resp = [] /\ respUserId resp = userId
      /\ respIsAuthenticated resp = false)
  /\ (success resp = true ->
      respIsAuthenticated resp = SessionManager.isAuthenticated context
      /\ (respUserId resp = userId
          \/ respUserId resp = orString userId (SessionManager.ctxUserId context))).
Proof.
  intros Hrun context.
  set (Q := fun resp : Response =>
    toolsCalled resp = trName <$> toolResults resp
    /\ respSessionId resp = SessionManager.sidOf sessionId
    /\ respSessionId resp ≠ []
    /\ (success resp = false ->
        toolResults resp = [] /\ respUserId resp = userId
        /\ respIsAuthenticated resp = false)
    /\ (success resp = true ->
        respIsAuthenticated resp = SessionManager.isAuthenticated context
        /\ (respUserId resp = userId
            \/ respUserId resp = orString userId (SessionManager.ctxUserId context)))).
  change (Q resp). revert Hrun. rewrite processMessage_unfold. cbv zeta. fold context.
  match goal with |- ?m ?w1 = _ -> _ =>
    assert (returnsOnly Q m) as Hall; [|by apply Hall]
  end.
  unfold Q.
  assert (SessionManager.sidOf sessionId ≠ []) as Hsid.
  { pose proof (sidOf_nonEmpty sessionId) as H. by destruct (SessionManager.sidOf sessionId). }
  apply returnsOnly_tryCatch.
  - destruct (isConversationalMessage U userMessage).
    + unfold converse. do 4 (apply returnsOnly_bind; intros ?).
      apply returnsOnly_buildResponse. intros stamp.
      cbn [success response toolsCalled toolResults respUserId respSessionId
           respIsAuthenticated fmap list_fmap snd]. split_and!; try done.
      intros _. split; [done|by left].
    + apply returnsOnly_bind. intros final. unfold record.
      do 2 (apply returnsOnly_bind; intros ?).
      apply returnsOnly_buildResponse. intros stamp.
      cbn [success response toolsCalled toolResults respUserId respSessionId
           respIsAuthenticated fmap list_fmap snd]. split_and!; try done.
      intros _. split; [done|by right].
  - intros e. apply returnsOnly_buildResponse. intros stamp.
      cbn [success response toolsCalled toolResults respUserId respSessionId
           respIsAuthenticated fmap list_fmap snd]. split_and!; try done.
Qed.

End ResponseShape.

Section ResponseShapeRun.
Import OllamaChat Agent.

Lemma processMessage_response_shape_witness :
  exists resp w',
    processMessage asciiUnicode Samples.busyEnv Samples.theAgent Samples.roomsQuestion
      None None Samples.freshWorld = (inr resp, w')
    /\ toolsCalled resp = trName <$> toolResults resp
    /\ respSessionId resp = js "default".
Proof.
  eexists _, _. split; [vm_compute; reflexivity|].
  edestruct (processMessage_response_shape asciiUnicode Samples.busyEnv Samples.theAgent
               Samples.roomsQuestion None None Samples.freshWorld)
    as (Hcalled & Hsid & _).
  - vm_compute. reflexivity.
  - split; [exact Hcalled|exact Hsid].
Defined.

End ResponseShapeRun.

(** ** The classifier of tool names *)

Section ClassifierMore.
Import ToolFilter.

(** X8. A tool name that holds [login], [register], [auth] or
    [refresh_token] is of the category [auth], whatever else it holds; and a
    name is of the category [other], which the filter never keeps, exactly
    when it holds none of the thirteen words the classifier looks for. *)
Lemma getToolCategory_precedence (toolName : jsstring) :
  (includes toolName (js "login") || includes toolName (js "register")
   || includes toolName (js "auth") || includes toolName (js "refresh_token") = true ->
   getToolCategory toolName = auth)
  /\ (getToolCategory toolName = other <->
      Forall (fun word => includes toolName word = false)
        [js "login"; js "register"; js "auth"; js "refresh_token"; js "house";
         js "room"; js "tenant"; js "contract"; js "service"; js "invoice";
         js "payment"; js "user"; js "password"]).
Proof.
  unfold getToolCategory. split; [by intros ->|].
  assert (includes toolName (js "room_service") = true -> includes toolName (js "room") = true)
    as Hrs.
  { rewrite !includes_spec. intros (l & r & ->). exists l, (js "_service" ++ r).
    change (js "room_service") with (js "room" ++ js "_service").
    by rewrite <- !app_assoc. }
  rewrite !Forall_cons, Forall_nil.
  destruct (includes toolName (js "login")); [cbn; split; [done|intros [? _]; done]|].
  destruct (includes toolName (js "register")); [cbn; split; [done|intros (_ & ? & _); done]|].
  destruct (includes toolName (js "auth"));
    [cbn; split; [done|intros (_ & _ & ? & _); done]|].
  destruct (includes toolName (js "refresh_token"));
    [cbn; split; [done|intros (_ & _ & _ & ? & _); done]|].
  cbn [orb].
  destruct (includes toolName (js "house"));
    [split; [done|intros (_ & _ & _ & _ & ? & _); done]|].
  destruct (includes toolName (js "room_service")) eqn:Ers.
  - rewrite Hrs by done. cbn [negb andb].
    split; [|intros (_ & _ & _ & _ & _ & ? & _); done].
    destruct (includes toolName (js "tenant")); [done|].
    destruct (includes toolName (js "contract")); [done|]. by rewrite orb_true_r.
  - clear Hrs. destruct (includes toolName (js "room"));
      [split; [done|intros (_ & _ & _ & _ & _ & ? & _); done]|].
    cbn [negb andb orb].
    destruct (includes toolName (js "tenant"));
      [split; [done|intros (_ & _ & _ & _ & _ & _ & ? & _); done]|].
    destruct (includes toolName (js "contract"));
      [split; [done|intros (_ & _ & _ & _ & _ & _ & _ & ? & _); done]|].
    destruct (includes toolName (js "service"));
      [split; [done|intros (_ & _ & _ & _ & _ & _ & _ & _ & ? & _); done]|].
    cbn [orb].
    destruct (includes toolName (js "invoice"));
      [split; [done|intros (_ & _ & _ & _ & _ & _ & _ & _ & _ & ? & _); done]|].
    destruct (includes toolName (js "payment"));
      [split; [done|intros (_ & _ & _ & _ & _ & _ & _ & _ & _ & _ & ? & _); done]|].
    cbn [orb].
    destruct (includes toolName (js "user"));
      [split; [done|intros (_ & _ & _ & _ & _ & _ & _ & _ & _ & _ & _ & ? & _); done]|].
    destruct (includes toolName (js "password"));
      [split; [done|intros (_ & _ & _ & _ & _ & _ & _ & _ & _ & _ & _ & _ & ? & _); done]|].
    cbn [orb]. split; [by intros _|done].
Qed.

End ClassifierMore.

(** ** The routes of the history *)

Section HistoryRoutes.
Import OllamaChat Agent ChatRoutes.
Context (U : Unicode) (env : Env) (agent : Agent.AgentConfig).

(** X24. What [GET /api/chat/history] shows after a [POST /api/chat] with a
    message: both answer 200; when the response of the agent reports
    success the history is the one before the request followed by two
    turns, the message of the user and the text of the response; when it
    reports a failure the history is the one before, the message is not
    recorded. [count] is the length of the history. *)
Lemma chat_then_history (body : ChatBody) (w : World) (userMessage : jsstring) :
  SessionManager.orNull (bodyMessage body) = Some userMessage ->
  exists result w1 w2 history,
    postChat U env agent body w
    = (inr {| status := 200; payload := AgentResult result |}, w1)
    /\ getChatHistory w1
       = (inr {| status := 200; payload := History history (length history) |}, w2)
    /\ if success result
       then exists t1 t2,
              history = conversationHistory w ++ [t1; t2]
              /\ (turnRole t1, turnContent t1) = (user, userMessage)
              /\ (turnRole t2, turnContent t2) = (assistant, response result)
       else history = conversationHistory w.
Proof.
  intros Hmsg. unfold postChat, getChatHistory, tryCatch. rewrite Hmsg, bind_run.
  assert (exists w0,
            match SessionManager.orNull (authToken body) with
            | Some tok =>
                setToken env tok
                  (default (js "anonymous") (SessionManager.orNull (bodyUserId body)))
                  (bodySessionId body) SessionManager.noAdditionalData
            | None => mret tt
            end w = (inr tt, w0)
            /\ conversationHistory w0 = conversationHistory w) as (w0 & -> & Hh0).
  { destruct (SessionManager.orNull (authToken body)); [|by eexists].
    rewrite setToken_eq. by eexists. }
  rewrite bind_run. unfold processMessage, tryCatch.
  pose proof (failsKeepingHistory_processMessageBody U env agent userMessage
                (bodyUserId body) (bodySessionId body) w0) as Hfail.
  pose proof (processMessageBody_returns U env agent userMessage (bodyUserId body)
                (bodySessionId body) w0) as Hok.
  destruct (processMessageBody U env agent userMessage (bodyUserId body)
              (bodySessionId body) w0) as [[e|r] w1].
  - rewrite buildResponse_eq. eexists _, _, _, _. split; [reflexivity|].
    split; [reflexivity|]. cbn [success conversationHistory].
    by rewrite (Hfail e w1 eq_refl).
  - destruct (Hok r w1 eq_refl) as (Hsucc & t1 & t2 & Hh & Ht1 & Ht2).
    eexists _, _, _, _. split; [reflexivity|]. split; [reflexivity|].
    rewrite Hsucc. exists t1, t2. by rewrite Hh, Hh0.
Qed.


End HistoryRoutes.

Section HistoryRuns.
Import OllamaChat Agent ChatRoutes.

Lemma chat_then_history_witness :
  exists result w1 w2 history,
    postChat asciiUnicode Samples.offlineEnv Samples.theAgent Samples.tokenBody
      Samples.freshWorld
    = (inr {| status := 200; payload := AgentResult result |}, w1)
    /\ getChatHistory w1
       = (inr {| status := 200; payload := History history (length history) |}, w2)
    /\ if success result
       then exists t1 t2,
              history = conversationHistory Samples.freshWorld ++ [t1; t2]
              /\ (turnRole t1, turnContent t1) = (user, Samples.roomsQuestion)
              /\ (turnRole t2, turnContent t2) = (assistant, response result)
       else history = conversationHistory Samples.freshWorld.
Proof.
  exact (chat_then_history asciiUnicode Samples.offlineEnv Samples.theAgent
           Samples.tokenBody Samples.freshWorld Samples.roomsQuestion eq_refl).
Defined.

End HistoryRuns.
